(** * The batch verification scheduler of video-kyc

    A shallow embedding of [VerificationScheduler] (the second class of
    [src/services/AtlasApiClient.js]) and of the parts of [AtlasApiClient]
    and [DocumentVerificationService] it calls.

    Modelling choices, all stated once here:
    - the scheduler object is the record [Scheduler]; every method is a
      function in the monad [Js], which threads the object and distinguishes
      a normal return, a thrown value and a loop that never ends;
    - the remote collaborators (Atlas endpoints, the AI backend) and the
      instants at which an operator calls [stopScheduler] are an oracle
      [Env]; every [await] is a suspension point at which such a call may
      land. No other method is called on the scheduler while a run is
      suspended: in particular the configuration does not change during a
      run;
    - the tasks of one [Promise.allSettled] run concurrently: each is
      started in turn and runs until its first [await]; then every turn of
      the event loop resumes one pending task, the one whose remote call or
      timer the oracle lets complete first, until all are settled.  A task
      is an [Async.t], the statements of the method between its awaits;
      results are positional ([results[i]] belongs to [chunk[i]]);
    - strings are sequences of Latin-1 code units, JavaScript numbers that
      count things are [nat], configuration numbers are [Z];
    - ISO timestamps are left out; the run id, derived from [Date.now()], is
      an argument of the two entry points;
    - [console.log] and [console.error] output is not modelled. *)

From Stdlib Require Import ZArith Lia Ascii String.
From stdpp Require Import base strings list gmap pretty.

Local Open Scope string_scope.
Local Open Scope Z_scope.
Local Open Scope list_scope.

(** ** JavaScript helpers *)

Module JS.

(** [String.prototype.includes]. *)
Fixpoint includes (hay needle : string) : bool :=
  String.prefix needle hay ||
  match hay with
  | EmptyString => false
  | String _ rest => includes rest needle
  end.

(** White space removed by [String.prototype.trim], on Latin-1 code units:
    TAB, LF, VT, FF, CR, SP and NBSP. *)
Definition isWhiteSpace (c : ascii) : bool :=
  Ascii.is_space c || bool_decide (c = "160"%char).

Fixpoint trimStart (s : string) : string :=
  match s with
  | EmptyString => EmptyString
  | String c rest => if isWhiteSpace c then trimStart rest else s
  end.

Definition trimEnd (s : string) : string :=
  String.rev (trimStart (String.rev s)).

Definition trim (s : string) : string := trimEnd (trimStart s).

(** Truthiness of a string value and of a possibly missing one. *)
Definition truthy (s : string) : bool := negb (bool_decide (s = "")).

Definition truthy_opt (o : option string) : bool :=
  match o with Some s => truthy s | None => false end.

(** [a || b] on strings. *)
Definition or_else (s dflt : string) : string :=
  if truthy s then s else dflt.

(** [v || null] on a possibly missing string. *)
Definition or_null (o : option string) : option string :=
  if truthy_opt o then o else None.

(** Relative index of [Array.prototype.slice]. *)
Definition relativeIndex (len : nat) (i : Z) : nat :=
  if i <? 0 then Z.to_nat (Z.max (Z.of_nat len + i) 0)
  else Z.to_nat (Z.min i (Z.of_nat len)).

(** [arr.slice(start, end)]. *)
Definition slice {A} (arr : list A) (start end_ : Z) : list A :=
  let k := relativeIndex (length arr) start in
  let e := relativeIndex (length arr) end_ in
  take (e - k)%nat (drop k arr).

(** [arr.slice(start)]. *)
Definition sliceFrom {A} (arr : list A) (start : Z) : list A :=
  drop (relativeIndex (length arr) start) arr.

(** [arr.find(p)]: the first element satisfying [p]. *)
Fixpoint find {A} (p : A -> bool) (arr : list A) : option A :=
  match arr with
  | [] => None
  | x :: rest => if p x then Some x else find p rest
  end.

(** In-place update of the element [arr.find(p)] returns, when there is one. *)
Fixpoint updateFound {A} (p : A -> bool) (f : A -> A) (arr : list A) : list A :=
  match arr with
  | [] => []
  | x :: rest => if p x then f x :: rest else x :: updateFound p f rest
  end.

(** [parts.filter(Boolean).join(' ')]. *)
Fixpoint joinSpace (parts : list string) : string :=
  match parts with
  | [] => ""
  | [p] => p
  | p :: rest => p +:+ " " +:+ joinSpace rest
  end.

End JS.

(** ** Data *)

Inductive Level := info | warn | error.

Record LogEntry := {
  level : Level;
  message : string;
  data : option (list (string * string))
}.

(** One element of [document_status] as the Atlas API returns it. *)
Module Doc.
Record t := {
  document_type_id : string;
  document_type_name : string;
  document_label : string;
  document_description : string;
  document_is_required : string;
  file_url : option string;
  filename : option string;
  verify_status : string;
  doc_upload_id : string
}.
End Doc.

(** What [DocumentVerificationService.verify] resolves to, and what
    [verifyDocument] returns.  [status] is whatever the backend answered
    ([result.status || 'reject']); [confidence] is held in hundredths, the
    only arithmetic on it being the printing of [confidence * 100]. *)
Module Verification.
Record t := {
  status : string;
  confidence : Z;
  remark : string;
  issues : list string;
  extracted_data : option (list (string * string))
}.
End Verification.

Inductive AiStatus := Verified | reject | ai_error | ai_skipped.

(** An element of [studentResult.allDocuments]. *)
Module Entry.
Record t := {
  document_type_id : string;
  document_type_name : string;
  document_label : string;
  document_description : string;
  is_required : bool;
  is_uploaded : bool;
  filename : option string;
  file_url : option string;
  verify_status : string;
  doc_upload_id : string;
  ai_status : option AiStatus;
  confidence : option Z;
  remark : option string;
  issues : option (list string);
  extracted_data : option (list (string * string))
}.

Definition set_ai_status (v : option AiStatus) (r : t) : t :=
  {| document_type_id := document_type_id r;
     document_type_name := document_type_name r;
     document_label := document_label r;
     document_description := document_description r;
     is_required := is_required r; is_uploaded := is_uploaded r;
     filename := filename r; file_url := file_url r;
     verify_status := verify_status r; doc_upload_id := doc_upload_id r;
     ai_status := v; confidence := confidence r; remark := remark r;
     issues := issues r; extracted_data := extracted_data r |}.

Definition set_confidence (v : option Z) (r : t) : t :=
  {| document_type_id := document_type_id r;
     document_type_name := document_type_name r;
     document_label := document_label r;
     document_description := document_description r;
     is_required := is_required r; is_uploaded := is_uploaded r;
     filename := filename r; file_url := file_url r;
     verify_status := verify_status r; doc_upload_id := doc_upload_id r;
     ai_status := ai_status r; confidence := v; remark := remark r;
     issues := issues r; extracted_data := extracted_data r |}.

Definition set_remark (v : option string) (r : t) : t :=
  {| document_type_id := document_type_id r;
     document_type_name := document_type_name r;
     document_label := document_label r;
     document_description := document_description r;
     is_required := is_required r; is_uploaded := is_uploaded r;
     filename := filename r; file_url := file_url r;
     verify_status := verify_status r; doc_upload_id := doc_upload_id r;
     ai_status := ai_status r; confidence := confidence r; remark := v;
     issues := issues r; extracted_data := extracted_data r |}.

Definition set_issues (v : option (list string)) (r : t) : t :=
  {| document_type_id := document_type_id r;
     document_type_name := document_type_name r;
     document_label := document_label r;
     document_description := document_description r;
     is_required := is_required r; is_uploaded := is_uploaded r;
     filename := filename r; file_url := file_url r;
     verify_status := verify_status r; doc_upload_id := doc_upload_id r;
     ai_status := ai_status r; confidence := confidence r;
     remark := remark r; issues := v;
     extracted_data := extracted_data r |}.

Definition set_extracted_data (v : option (list (string * string))) (r : t) : t :=
  {| document_type_id := document_type_id r;
     document_type_name := document_type_name r;
     document_label := document_label r;
     document_description := document_description r;
     is_required := is_required r; is_uploaded := is_uploaded r;
     filename := filename r; file_url := file_url r;
     verify_status := verify_status r; doc_upload_id := doc_upload_id r;
     ai_status := ai_status r; confidence := confidence r;
     remark := remark r; issues := issues r; extracted_data := v |}.
End Entry.

(** An element of [studentResult.documents]. *)
Module DocResult.
Record t := {
  document_type_id : string;
  document_label : string;
  document_type_name : string;
  filename : option string;
  file_url : option string;
  ai_status : AiStatus;
  confidence : Z;
  remark : string;
  issues : list string;
  extracted_data : option (list (string * string))
}.
End DocResult.

(** An element of the [statusUpdates] written back to Atlas. *)
Module StatusUpdate.
Record t := {
  document_type_id : string;
  doc_ai_status : AiStatus;
  doc_ai_remark : string
}.
End StatusUpdate.

Inductive SubjectStatus := processing | completed | partial | skipped | failed.

Module StudentResult.
Record t := {
  applnID : string;
  studentName : string;
  status : SubjectStatus;
  ended : bool;
  totalDocs : nat;
  uploaded : nat;
  approved : nat;
  rejected : nat;
  errors : nat;
  skipped : nat;
  allDocuments : list Entry.t;
  documents : list DocResult.t
}.

Definition set_status (v : SubjectStatus) (r : t) : t :=
  {| applnID := applnID r; studentName := studentName r; status := v;
     ended := ended r; totalDocs := totalDocs r; uploaded := uploaded r;
     approved := approved r; rejected := rejected r; errors := errors r;
     skipped := skipped r; allDocuments := allDocuments r;
     documents := documents r |}.

Definition set_ended (v : bool) (r : t) : t :=
  {| applnID := applnID r; studentName := studentName r;
     status := status r; ended := v; totalDocs := totalDocs r;
     uploaded := uploaded r; approved := approved r;
     rejected := rejected r; errors := errors r; skipped := skipped r;
     allDocuments := allDocuments r; documents := documents r |}.

Definition set_totalDocs (v : nat) (r : t) : t :=
  {| applnID := applnID r; studentName := studentName r;
     status := status r; ended := ended r; totalDocs := v;
     uploaded := uploaded r; approved := approved r;
     rejected := rejected r; errors := errors r; skipped := skipped r;
     allDocuments := allDocuments r; documents := documents r |}.

Definition set_uploaded (v : nat) (r : t) : t :=
  {| applnID := applnID r; studentName := studentName r;
     status := status r; ended := ended r; totalDocs := totalDocs r;
     uploaded := v; approved := approved r; rejected := rejected r;
     errors := errors r; skipped := skipped r;
     allDocuments := allDocuments r; documents := documents r |}.

Definition set_approved (v : nat) (r : t) : t :=
  {| applnID := applnID r; studentName := studentName r;
     status := status r; ended := ended r; totalDocs := totalDocs r;
     uploaded := uploaded r; approved := v; rejected := rejected r;
     errors := errors r; skipped := skipped r;
     allDocuments := allDocuments r; documents := documents r |}.

Definition set_rejected (v : nat) (r : t) : t :=
  {| applnID := applnID r; studentName := studentName r;
     status := status r; ended := ended r; totalDocs := totalDocs r;
     uploaded := uploaded r; approved := approved r; rejected := v;
     errors := errors r; skipped := skipped r;
     allDocuments := allDocuments r; documents := documents r |}.

Definition set_errors (v : nat) (r : t) : t :=
  {| applnID := applnID r; studentName := studentName r;
     status := status r; ended := ended r; totalDocs := totalDocs r;
     uploaded := uploaded r; approved := approved r;
     rejected := rejected r; errors := v; skipped := skipped r;
     allDocuments := allDocuments r; documents := documents r |}.

Definition set_skipped (v : nat) (r : t) : t :=
  {| applnID := applnID r; studentName := studentName r;
     status := status r; ended := ended r; totalDocs := totalDocs r;
     uploaded := uploaded r; approved := approved r;
     rejected := rejected r; errors := errors r; skipped := v;
     allDocuments := allDocuments r; documents := documents r |}.

Definition set_allDocuments (v : list Entry.t) (r : t) : t :=
  {| applnID := applnID r; studentName := studentName r;
     status := status r; ended := ended r; totalDocs := totalDocs r;
     uploaded := uploaded r; approved := approved r;
     rejected := rejected r; errors := errors r; skipped := skipped r;
     allDocuments := v; documents := documents r |}.

Definition set_documents (v : list DocResult.t) (r : t) : t :=
  {| applnID := applnID r; studentName := studentName r;
     status := status r; ended := ended r; totalDocs := totalDocs r;
     uploaded := uploaded r; approved := approved r;
     rejected := rejected r; errors := errors r; skipped := skipped r;
     allDocuments := allDocuments r; documents := v |}.
End StudentResult.

Inductive RunStatus := running | run_completed | stopped | run_error.

(** [students] is [None] where the source stores [undefined]. *)
Module Run.
Record t := {
  id : Z;
  ended : bool;
  status : RunStatus;
  totalStudents : nat;
  processed : nat;
  completed : nat;
  skipped : nat;
  errors : nat;
  totalDocsVerified : nat;
  totalApproved : nat;
  totalRejected : nat;
  students : option (list StudentResult.t)
}.

Definition set_ended (v : bool) (r : t) : t :=
  {| id := id r; ended := v; status := status r;
     totalStudents := totalStudents r; processed := processed r;
     completed := completed r; skipped := skipped r; errors := errors r;
     totalDocsVerified := totalDocsVerified r;
     totalApproved := totalApproved r; totalRejected := totalRejected r;
     students := students r |}.

Definition set_status (v : RunStatus) (r : t) : t :=
  {| id := id r; ended := ended r; status := v;
     totalStudents := totalStudents r; processed := processed r;
     completed := completed r; skipped := skipped r; errors := errors r;
     totalDocsVerified := totalDocsVerified r;
     totalApproved := totalApproved r; totalRejected := totalRejected r;
     students := students r |}.

Definition set_totalStudents (v : nat) (r : t) : t :=
  {| id := id r; ended := ended r; status := status r; totalStudents := v;
     processed := processed r; completed := completed r;
     skipped := skipped r; errors := errors r;
     totalDocsVerified := totalDocsVerified r;
     totalApproved := totalApproved r; totalRejected := totalRejected r;
     students := students r |}.

Definition set_processed (v : nat) (r : t) : t :=
  {| id := id r; ended := ended r; status := status r;
     totalStudents := totalStudents r; processed := v;
     completed := completed r; skipped := skipped r; errors := errors r;
     totalDocsVerified := totalDocsVerified r;
     totalApproved := totalApproved r; totalRejected := totalRejected r;
     students := students r |}.

Definition set_completed (v : nat) (r : t) : t :=
  {| id := id r; ended := ended r; status := status r;
     totalStudents := totalStudents r; processed := processed r;
     completed := v; skipped := skipped r; errors := errors r;
     totalDocsVerified := totalDocsVerified r;
     totalApproved := totalApproved r; totalRejected := totalRejected r;
     students := students r |}.

Definition set_skipped (v : nat) (r : t) : t :=
  {| id := id r; ended := ended r; status := status r;
     totalStudents := totalStudents r; processed := processed r;
     completed := completed r; skipped := v; errors := errors r;
     totalDocsVerified := totalDocsVerified r;
     totalApproved := totalApproved r; totalRejected := totalRejected r;
     students := students r |}.

Definition set_errors (v : nat) (r : t) : t :=
  {| id := id r; ended := ended r; status := status r;
     totalStudents := totalStudents r; processed := processed r;
     completed := completed r; skipped := skipped r; errors := v;
     totalDocsVerified := totalDocsVerified r;
     totalApproved := totalApproved r; totalRejected := totalRejected r;
     students := students r |}.

Definition set_totalDocsVerified (v : nat) (r : t) : t :=
  {| id := id r; ended := ended r; status := status r;
     totalStudents := totalStudents r; processed := processed r;
     completed := completed r; skipped := skipped r; errors := errors r;
     totalDocsVerified := v; totalApproved := totalApproved r;
     totalRejected := totalRejected r; students := students r |}.

Definition set_totalApproved (v : nat) (r : t) : t :=
  {| id := id r; ended := ended r; status := status r;
     totalStudents := totalStudents r; processed := processed r;
     completed := completed r; skipped := skipped r; errors := errors r;
     totalDocsVerified := totalDocsVerified r; totalApproved := v;
     totalRejected := totalRejected r; students := students r |}.

Definition set_totalRejected (v : nat) (r : t) : t :=
  {| id := id r; ended := ended r; status := status r;
     totalStudents := totalStudents r; processed := processed r;
     completed := completed r; skipped := skipped r; errors := errors r;
     totalDocsVerified := totalDocsVerified r;
     totalApproved := totalApproved r; totalRejected := v;
     students := students r |}.

Definition set_students (v : option (list StudentResult.t)) (r : t) : t :=
  {| id := id r; ended := ended r; status := status r;
     totalStudents := totalStudents r; processed := processed r;
     completed := completed r; skipped := skipped r; errors := errors r;
     totalDocsVerified := totalDocsVerified r;
     totalApproved := totalApproved r; totalRejected := totalRejected r;
     students := v |}.
End Run.

Record Config := {
  concurrency : Z;
  retryAttempts : Z;
  retryDelayMs : Z;
  delayBetweenStudentsMs : Z;
  delayBetweenDocsMs : Z;
  skipAlreadyVerified : bool
}.

(** The constructor's configuration when no environment variable is set. *)
Definition defaultConfig : Config := {|
  concurrency := 2;
  retryAttempts := 3;
  retryDelayMs := 2000;
  delayBetweenStudentsMs := 1000;
  delayBetweenDocsMs := 500;
  skipAlreadyVerified := true
|}.

(** ** Remote collaborators *)

Record Descriptor := {
  d_filename : option string;
  d_contentType : string;
  d_document_label : string;
  d_document_type_name : string;
  d_document_description : string
}.

Record Download := { buffer : string; contentType : string }.

Record DocListResponse := {
  dl_status : Z;
  dl_document_status : option (list Doc.t)
}.

Record Student := {
  st_applnID : option string;
  st_id : option string;
  st_application_id : option string;
  st_first_name : option string;
  st_last_name : option string;
  st_name : option string
}.

(** [getStudentList]'s answer: a falsy response or [data], an array, or a
    single object. *)
Inductive StudentListResponse :=
  | NoStudentData
  | StudentArray (students : list Student)
  | StudentObject (student : Student).

(** A settled remote promise. Remote failures are [Error] objects. *)
Inductive Outcome (A : Type) :=
  | Resolved (a : A)
  | Rejected (message : string).
Arguments Resolved {A} a.
Arguments Rejected {A} message.

(** The world outside the scheduler.  A remote answer may depend on the
    arguments, on how many times the retried thunk has been invoked
    ([attempt], from 1) and on the instant of the call ([now]).
    [stopRequested t] tells whether [stopScheduler()] is called while the
    scheduler is suspended at instant [t].  When several tasks of the worker
    pool are suspended at instant [t], each on a remote call or on a timer,
    [completes t] tells whose operation completes first: the task at that
    position among the suspended ones, in the order of their chunk (the last
    one for a position beyond them). *)
Record Env := {
  getStudentList : Z -> nat -> Outcome StudentListResponse;
  getDocumentList : string -> Z -> nat -> Outcome DocListResponse;
  updateDocumentStatus :
    string -> list StatusUpdate.t -> Z -> nat -> Outcome unit;
  downloadDocument : string -> Z -> nat -> Outcome Download;
  verify : string -> Descriptor -> Z -> nat -> Outcome Verification.t;
  stopRequested : nat -> bool;
  completes : nat -> nat
}.

(** What the scheduler did to the outside, in order. *)
Inductive Call :=
  | CallGetStudentList
  | CallGetDocumentList (applnID : string)
  | CallUpdateDocumentStatus (applnID : string) (updates : list StatusUpdate.t)
  | CallDownloadDocument (fileUrl : string)
  | CallVerify (buffer : string) (descriptor : Descriptor).

Inductive Effect :=
  | Called (c : Call)
  | Slept (ms : Z)
  | TaskStarted (doc : Doc.t)
  | TaskSettled (doc : Doc.t).

(** ** The scheduler object *)

(** [clock] and [effects] are not fields of the JavaScript object: they
    record the number of suspensions so far and the calls made. *)
Record Scheduler := {
  config : Config;
  cronJob : bool;
  isRunning : bool;
  shouldStop : bool;
  currentRun : option Run.t;
  runs : list Run.t;
  logs : list LogEntry;
  maxLogs : Z;
  maxRuns : Z;
  studentResults : gmap string StudentResult.t;
  clock : nat;
  effects : list Effect
}.

(** The object the constructor builds (with the default configuration). *)
Definition newScheduler : Scheduler := {|
  config := defaultConfig;
  cronJob := false;
  isRunning := false;
  shouldStop := false;
  currentRun := None;
  runs := [];
  logs := [];
  maxLogs := 500;
  maxRuns := 50;
  studentResults := ∅;
  clock := 0%nat;
  effects := []
|}.

Definition set_config (c : Config) (s : Scheduler) : Scheduler :=
  {| config := c; cronJob := cronJob s; isRunning := isRunning s;
     shouldStop := shouldStop s; currentRun := currentRun s; runs := runs s;
     logs := logs s; maxLogs := maxLogs s; maxRuns := maxRuns s;
     studentResults := studentResults s; clock := clock s;
     effects := effects s |}.

Definition set_cronJob (b : bool) (s : Scheduler) : Scheduler :=
  {| config := config s; cronJob := b; isRunning := isRunning s;
     shouldStop := shouldStop s; currentRun := currentRun s; runs := runs s;
     logs := logs s; maxLogs := maxLogs s; maxRuns := maxRuns s;
     studentResults := studentResults s; clock := clock s;
     effects := effects s |}.

Definition set_isRunning (b : bool) (s : Scheduler) : Scheduler :=
  {| config := config s; cronJob := cronJob s; isRunning := b;
     shouldStop := shouldStop s; currentRun := currentRun s; runs := runs s;
     logs := logs s; maxLogs := maxLogs s; maxRuns := maxRuns s;
     studentResults := studentResults s; clock := clock s;
     effects := effects s |}.

Definition set_shouldStop (b : bool) (s : Scheduler) : Scheduler :=
  {| config := config s; cronJob := cronJob s; isRunning := isRunning s;
     shouldStop := b; currentRun := currentRun s; runs := runs s;
     logs := logs s; maxLogs := maxLogs s; maxRuns := maxRuns s;
     studentResults := studentResults s; clock := clock s;
     effects := effects s |}.

Definition set_currentRun (r : option Run.t) (s : Scheduler) : Scheduler :=
  {| config := config s; cronJob := cronJob s; isRunning := isRunning s;
     shouldStop := shouldStop s; currentRun := r; runs := runs s;
     logs := logs s; maxLogs := maxLogs s; maxRuns := maxRuns s;
     studentResults := studentResults s; clock := clock s;
     effects := effects s |}.

Definition set_runs (l : list Run.t) (s : Scheduler) : Scheduler :=
  {| config := config s; cronJob := cronJob s; isRunning := isRunning s;
     shouldStop := shouldStop s; currentRun := currentRun s; runs := l;
     logs := logs s; maxLogs := maxLogs s; maxRuns := maxRuns s;
     studentResults := studentResults s; clock := clock s;
     effects := effects s |}.

Definition set_logs (l : list LogEntry) (s : Scheduler) : Scheduler :=
  {| config := config s; cronJob := cronJob s; isRunning := isRunning s;
     shouldStop := shouldStop s; currentRun := currentRun s; runs := runs s;
     logs := l; maxLogs := maxLogs s; maxRuns := maxRuns s;
     studentResults := studentResults s; clock := clock s;
     effects := effects s |}.

Definition set_studentResults (m : gmap string StudentResult.t)
    (s : Scheduler) : Scheduler :=
  {| config := config s; cronJob := cronJob s; isRunning := isRunning s;
     shouldStop := shouldStop s; currentRun := currentRun s; runs := runs s;
     logs := logs s; maxLogs := maxLogs s; maxRuns := maxRuns s;
     studentResults := m; clock := clock s; effects := effects s |}.

Definition tick (s : Scheduler) : Scheduler :=
  {| config := config s; cronJob := cronJob s; isRunning := isRunning s;
     shouldStop := shouldStop s; currentRun := currentRun s; runs := runs s;
     logs := logs s; maxLogs := maxLogs s; maxRuns := maxRuns s;
     studentResults := studentResults s; clock := S (clock s);
     effects := effects s |}.

Definition record (e : Effect) (s : Scheduler) : Scheduler :=
  {| config := config s; cronJob := cronJob s; isRunning := isRunning s;
     shouldStop := shouldStop s; currentRun := currentRun s; runs := runs s;
     logs := logs s; maxLogs := maxLogs s; maxRuns := maxRuns s;
     studentResults := studentResults s; clock := clock s;
     effects := effects s ++ [e] |}.

(** ** The monad of method bodies *)

(** A thrown value: an [Error] with its message, or [undefined]. *)
Inductive Thrown := ThrownUndefined | ThrownError (msg : string).

Inductive Completion (A : Type) :=
  | Returned (a : A) (s : Scheduler)
  | Raised (e : Thrown) (s : Scheduler)
  | Diverged.
Arguments Returned {A} a s.
Arguments Raised {A} e s.
Arguments Diverged {A}.

Definition Js (A : Type) : Type := Scheduler -> Completion A.

Global Instance Js_ret : MRet Js := fun A a s => Returned a s.

Global Instance Js_bind : MBind Js := fun A B f m s =>
  match m s with
  | Returned a s' => f a s'
  | Raised e s' => Raised e s'
  | Diverged => Diverged
  end.

Definition throw {A} (e : Thrown) : Js A := fun s => Raised e s.

Definition diverge {A} : Js A := fun _ => Diverged.

(** [try { m } catch (e) { ... }], the caught value made explicit. *)
Definition tryCatch {A} (m : Js A) : Js (A + Thrown) := fun s =>
  match m s with
  | Returned a s' => Returned (inl a) s'
  | Raised e s' => Returned (inr e) s'
  | Diverged => Diverged
  end.

Definition gets {A} (f : Scheduler -> A) : Js A := fun s => Returned (f s) s.

Definition modify (f : Scheduler -> Scheduler) : Js unit :=
  fun s => Returned tt (f s).

(** [err.message], a [TypeError] when [err] is [undefined]. *)
Definition messageOf (err : Thrown) : Js string :=
  match err with
  | ThrownError m => mret m
  | ThrownUndefined =>
      throw (ThrownError
        "Cannot read properties of undefined (reading 'message')")
  end.

(** [err?.message]. *)
Definition messageOfOpt (err : Thrown) : string :=
  match err with ThrownError m => m | ThrownUndefined => "" end.

(** A settled task of [Promise.allSettled]. *)
Inductive Settlement (A : Type) :=
  | Fulfilled (value : A)
  | RejectedWith (reason : Thrown).
Arguments Fulfilled {A} value.
Arguments RejectedWith {A} reason.

Definition renderAiStatus (a : AiStatus) : string :=
  match a with
  | Verified => "Verified"
  | reject => "reject"
  | ai_error => "error"
  | ai_skipped => "skipped"
  end.

Definition renderRunStatus (r : RunStatus) : string :=
  match r with
  | running => "running"
  | run_completed => "completed"
  | stopped => "stopped"
  | run_error => "error"
  end.

(** ** Logging *)

(** [log(level, message, data)]: push, then keep the last [maxLogs]. *)
Definition pushLog (lvl : Level) (msg : string)
    (dat : option (list (string * string))) (s : Scheduler) : Scheduler :=
  let pushed := logs s ++ [ {| level := lvl; message := msg; data := dat |} ] in
  set_logs
    (if maxLogs s <? Z.of_nat (length pushed)
     then JS.sliceFrom pushed (- maxLogs s)
     else pushed) s.

Definition log (lvl : Level) (msg : string)
    (dat : option (list (string * string))) : Js unit :=
  modify (pushLog lvl msg dat).

(** ** Helpers *)

(** [chunkArray(arr, size)].  The loop is run with one more iteration than
    [arr] has elements; [None] is the loop that has not ended by then. *)
Fixpoint chunkLoop {A} (fuel : nat) (arr : list A) (size i : Z)
    (chunks : list (list A)) : option (list (list A)) :=
  match fuel with
  | O => None
  | S fuel' =>
      if i <? Z.of_nat (length arr)
      then chunkLoop fuel' arr size (i + size)
             (chunks ++ [JS.slice arr i (i + size)])
      else Some chunks
  end.

Definition chunkArray {A} (arr : list A) (size : Z) : option (list (list A)) :=
  chunkLoop (S (length arr)) arr size 0 [].

(** ** Promises *)

(** An [async] function as the event loop sees it.  It has returned or
    thrown; or it runs the synchronous statements [m] on the scheduler and
    goes on with their value (a throw of [m] is a throw of the function); or
    it is suspended at the [await] of a remote answer or of a timer, and
    only a later turn of the event loop runs [k], what follows the
    [await]. *)
Module Async.

Inductive t (A : Type) : Type :=
  | Return (a : A)
  | Throw (e : Thrown)
  | Sync {B : Type} (m : Js B) (k : B -> t A)
  | Await (k : t A).
Arguments Return {A} a.
Arguments Throw {A} e.
Arguments Sync {A B} m k.
Arguments Await {A} k.

Fixpoint bind {A B} (f : A -> t B) (m : t A) : t B :=
  match m with
  | Return a => f a
  | Throw e => Throw e
  | Sync m k => Sync m (fun b => bind f (k b))
  | Await k => Await (bind f k)
  end.

Global Instance Async_ret : MRet t := fun A a => Return a.

Global Instance Async_bind : MBind t := fun A B f m => bind f m.

(** Synchronous statements, and the suspension of an [await]. *)
Definition lift {A} (m : Js A) : t A := Sync m Return.

Definition yield : t unit := Await (Return tt).

(** [try { m } catch (e) { ... }] around statements that may await. *)
Fixpoint catch {A} (m : t A) : t (A + Thrown) :=
  match m with
  | Return a => Return (inl a)
  | Throw e => Return (inr e)
  | Sync m k =>
      Sync (tryCatch m)
        (fun r =>
           match r with
           | inl b => catch (k b)
           | inr e => Return (inr e)
           end)
  | Await k => Await (catch k)
  end.

(** A promise: pending, with what is left to run when the awaited
    operation completes, or settled. *)
Inductive Promise (A : Type) : Type :=
  | Pending (rest : t A)
  | Settled (result : Settlement A).
Arguments Pending {A} rest.
Arguments Settled {A} result.

Definition isPending {A} (p : Promise A) : bool :=
  match p with Pending _ => true | Settled _ => false end.

(** Running an [async] function until it awaits or settles. *)
Fixpoint advance {A} (f : t A) : Js (Promise A) :=
  match f with
  | Return a => mret (Settled (Fulfilled a))
  | Throw e => mret (Settled (RejectedWith e))
  | Sync m k =>
      r ← tryCatch m;
      match r with
      | inl b => advance (k b)
      | inr e => mret (Settled (RejectedWith e))
      end
  | Await k => mret (Pending k)
  end.

End Async.

(** ** Scheduler control *)

(** [stopScheduler()]. *)
Definition stopScheduler : Js unit :=
  job ← gets cronJob;
  (if job : bool
   then modify (set_cronJob false) ;; log info "Scheduler stopped" None
   else mret tt) ;;
  active ← gets isRunning;
  if active : bool
  then modify (set_shouldStop true) ;;
       log info "Stop signal sent to running batch" None
  else mret tt.

Section WithEnv.

Variable env : Env.

(** A suspension: time passes, and an operator's stop request may land. *)
Definition suspend : Js unit :=
  t ← gets clock;
  modify tick ;;
  if stopRequested env t then stopScheduler else mret tt.

(** Awaiting a remote call whose answer at instant [t] is [answer t]. *)
Definition await {A} (c : Call) (answer : nat -> Outcome A) : Js A :=
  t ← gets clock;
  modify (record (Called c)) ;;
  suspend ;;
  match answer t with
  | Resolved a => mret a
  | Rejected m => throw (ThrownError m)
  end.

(** [await this.sleep(ms)]. *)
Definition sleep (ms : Z) : Js unit :=
  modify (record (Slept ms)) ;; suspend.

(** ** Retry *)

(** The signatures of errors that are not retried. *)
Definition nonRetryable (errMsg : string) : bool :=
  JS.includes errMsg "429" || JS.includes errMsg "quota" ||
  JS.includes errMsg "401" || JS.includes errMsg "403".

(** The [for] loop of [withRetry]; [fn attempt] is the [attempt]-th
    invocation of the thunk. *)
Fixpoint retryLoop {A} (fn : Z -> Js A) (label : string) (fuel : nat)
    (attempt : Z) (lastError : Thrown) : Js A :=
  match fuel with
  | O => diverge
  | S fuel' =>
      cfg ← gets config;
      if attempt <=? retryAttempts cfg then
        r ← tryCatch (fn attempt);
        match r with
        | inl v => mret v
        | inr err =>
            m ← messageOf err;
            let errMsg := JS.or_else m "" in
            if nonRetryable errMsg then
              log error
                (label +:+ " failed with non-retryable error: " +:+ errMsg)
                None ;;
              throw err
            else
              cfg ← gets config;
              (if attempt <? retryAttempts cfg then
                 let delay := retryDelayMs cfg * 2 ^ (attempt - 1) in
                 log warn
                   (label +:+ " failed (attempt " +:+ pretty attempt +:+ "/"
                    +:+ pretty (retryAttempts cfg) +:+ "), retrying in "
                    +:+ pretty delay +:+ "ms: " +:+ m) None ;;
                 sleep delay
               else mret tt) ;;
              retryLoop fn label fuel' (attempt + 1) err
        end
      else throw lastError
  end.

(** [withRetry(fn, label)]. *)
Definition withRetry {A} (fn : Z -> Js A) (label : string) : Js A :=
  cfg ← gets config;
  retryLoop fn label (S (Z.to_nat (retryAttempts cfg))) 1 ThrownUndefined.

(** ** Single document verification *)

Definition trimmed (o : option string) : string :=
  match o with Some s => JS.trim s | None => "" end.

(** [!doc.file_url || !doc.file_url.trim()]. *)
Definition noFile (doc : Doc.t) : bool :=
  negb (JS.truthy_opt (Doc.file_url doc)) ||
  negb (JS.truthy (trimmed (Doc.file_url doc))).

Definition skipVerification : Verification.t := {|
  Verification.status := "skip";
  Verification.confidence := 0;
  Verification.remark := "Document not uploaded - skipped";
  Verification.issues := ["No file uploaded"];
  Verification.extracted_data := Some []
|}.

Definition descriptorOf (doc : Doc.t) (contentType : string) : Descriptor := {|
  d_filename := Doc.filename doc;
  d_contentType := contentType;
  d_document_label := Doc.document_label doc;
  d_document_type_name := Doc.document_type_name doc;
  d_document_description := Doc.document_description doc
|}.

(** The thunk [verifyDocument] hands to [withRetry]. *)
Definition downloadAndVerify (doc : Doc.t) (attempt : Z) : Js Verification.t :=
  let url := default "" (Doc.file_url doc) in
  d ← await (CallDownloadDocument url) (downloadDocument env url attempt);
  let descriptor := descriptorOf doc (contentType d) in
  await (CallVerify (buffer d) descriptor)
        (verify env (buffer d) descriptor attempt).

(** [verifyDocument(doc)]. *)
Definition verifyDocument (doc : Doc.t) : Js Verification.t :=
  if noFile doc then
    log info ("Skipping " +:+ Doc.document_label doc +:+ ": No file uploaded")
      None ;;
    mret skipVerification
  else
    withRetry (downloadAndVerify doc) ("Verify " +:+ Doc.document_label doc).

(** ** Verification tasks *)

(** [verifyDocument(doc)] as a promise among others: the methods above with
    their suspensions left to the event loop, which may run other tasks in
    between.  [await fn()] in [withRetry] and the [return] of an [async]
    function go through the microtask queue only: no remote answer, timer or
    operator comes in between, so they are no suspensions here. *)
Definition awaitTask {A} (c : Call) (answer : nat -> Outcome A) : Async.t A :=
  t ← Async.lift (gets clock);
  Async.lift (modify (record (Called c))) ;;
  Async.yield ;;
  match answer t with
  | Resolved a => mret a
  | Rejected m => Async.Throw (ThrownError m)
  end.

Definition sleepTask (ms : Z) : Async.t unit :=
  Async.lift (modify (record (Slept ms))) ;; Async.yield.

Fixpoint retryLoopTask {A} (fn : Z -> Async.t A) (label : string)
    (fuel : nat) (attempt : Z) (lastError : Thrown) : Async.t A :=
  match fuel with
  | O => Async.lift diverge
  | S fuel' =>
      cfg ← Async.lift (gets config);
      if attempt <=? retryAttempts cfg then
        r ← Async.catch (fn attempt);
        match r with
        | inl v => mret v
        | inr err =>
            m ← Async.lift (messageOf err);
            let errMsg := JS.or_else m "" in
            if nonRetryable errMsg then
              Async.lift
                (log error
                   (label +:+ " failed with non-retryable error: " +:+ errMsg)
                   None) ;;
              Async.Throw err
            else
              cfg ← Async.lift (gets config);
              (if attempt <? retryAttempts cfg then
                 let delay := retryDelayMs cfg * 2 ^ (attempt - 1) in
                 Async.lift
                   (log warn
                      (label +:+ " failed (attempt " +:+ pretty attempt +:+ "/"
                       +:+ pretty (retryAttempts cfg) +:+ "), retrying in "
                       +:+ pretty delay +:+ "ms: " +:+ m) None) ;;
                 sleepTask delay
               else mret tt) ;;
              retryLoopTask fn label fuel' (attempt + 1) err
        end
      else Async.Throw lastError
  end.

Definition withRetryTask {A} (fn : Z -> Async.t A) (label : string)
    : Async.t A :=
  cfg ← Async.lift (gets config);
  retryLoopTask fn label (S (Z.to_nat (retryAttempts cfg))) 1 ThrownUndefined.

Definition downloadAndVerifyTask (doc : Doc.t) (attempt : Z)
    : Async.t Verification.t :=
  let url := default "" (Doc.file_url doc) in
  d ← awaitTask (CallDownloadDocument url) (downloadDocument env url attempt);
  let descriptor := descriptorOf doc (contentType d) in
  awaitTask (CallVerify (buffer d) descriptor)
            (verify env (buffer d) descriptor attempt).

Definition verifyDocumentTask (doc : Doc.t) : Async.t Verification.t :=
  if noFile doc then
    Async.lift
      (log info
         ("Skipping " +:+ Doc.document_label doc +:+ ": No file uploaded")
         None) ;;
    mret skipVerification
  else
    withRetryTask (downloadAndVerifyTask doc)
      ("Verify " +:+ Doc.document_label doc).

(** A task awaited by a caller that does nothing else: each of its
    suspensions is a suspension of the caller. *)
Fixpoint awaited {A} (f : Async.t A) : Js A :=
  match f with
  | Async.Return a => mret a
  | Async.Throw e => throw e
  | Async.Sync m k => b ← m; awaited (k b)
  | Async.Await k => suspend ;; awaited k
  end.

(** ** Single student processing *)

(** [doc.file_url && doc.file_url.trim() !== ''], the filter of
    [uploadedDocs]. *)
Definition hasFile (doc : Doc.t) : bool :=
  JS.truthy_opt (Doc.file_url doc) &&
  negb (bool_decide (trimmed (Doc.file_url doc) = "")).

(** The element of [allDocuments] made from [doc]. *)
Definition entryOf (doc : Doc.t) : Entry.t := {|
  Entry.document_type_id := Doc.document_type_id doc;
  Entry.document_type_name := Doc.document_type_name doc;
  Entry.document_label := Doc.document_label doc;
  Entry.document_description := Doc.document_description doc;
  Entry.is_required := bool_decide (Doc.document_is_required doc = "1");
  Entry.is_uploaded :=
    JS.truthy_opt (Doc.file_url doc) &&
    JS.truthy (trimmed (Doc.file_url doc));
  Entry.filename := JS.or_null (Doc.filename doc);
  Entry.file_url := JS.or_null (Doc.file_url doc);
  Entry.verify_status := Doc.verify_status doc;
  Entry.doc_upload_id := Doc.doc_upload_id doc;
  Entry.ai_status := None;
  Entry.confidence := None;
  Entry.remark := None;
  Entry.issues := None;
  Entry.extracted_data := None
|}.

Definition newStudentResult (applnID studentName : string) : StudentResult.t := {|
  StudentResult.applnID := applnID;
  StudentResult.studentName := JS.or_else studentName applnID;
  StudentResult.status := processing;
  StudentResult.ended := false;
  StudentResult.totalDocs := 0;
  StudentResult.uploaded := 0;
  StudentResult.approved := 0;
  StudentResult.rejected := 0;
  StudentResult.errors := 0;
  StudentResult.skipped := 0;
  StudentResult.allDocuments := [];
  StudentResult.documents := []
|}.

(** [allDocuments.find(d => d.document_type_id === doc.document_type_id)]
    followed by the assignments [f] to the entry found. *)
Definition updateEntry (doc : Doc.t) (f : Entry.t -> Entry.t)
    (sr : StudentResult.t) : StudentResult.t :=
  StudentResult.set_allDocuments
    (JS.updateFound
       (fun d => bool_decide
          (Entry.document_type_id d = Doc.document_type_id doc))
       f (StudentResult.allDocuments sr))
    sr.

Definition pushDocument (d : DocResult.t) (sr : StudentResult.t)
    : StudentResult.t :=
  StudentResult.set_documents (StudentResult.documents sr ++ [d]) sr.

Definition docResultOf (doc : Doc.t) (ai : AiStatus) (conf : Z)
    (rem : string) (iss : list string)
    (extracted : option (list (string * string))) : DocResult.t := {|
  DocResult.document_type_id := Doc.document_type_id doc;
  DocResult.document_label := Doc.document_label doc;
  DocResult.document_type_name := Doc.document_type_name doc;
  DocResult.filename := Doc.filename doc;
  DocResult.file_url := Doc.file_url doc;
  DocResult.ai_status := ai;
  DocResult.confidence := conf;
  DocResult.remark := rem;
  DocResult.issues := iss;
  DocResult.extracted_data := extracted
|}.

(** The body of [for (let i = 0; i < chunk.length; i++)] for one document
    and its settled result; the loop state is [studentResult] and
    [statusUpdates]. *)
Definition mergeResult (applnID : string) (doc : Doc.t)
    (result : Settlement Verification.t)
    (acc : StudentResult.t * list StatusUpdate.t)
    : Js (StudentResult.t * list StatusUpdate.t) :=
  let '(sr, statusUpdates) := acc in
  match result with
  | Fulfilled verification =>
      if bool_decide (Verification.status verification = "skip") then
        let sr := StudentResult.set_skipped (S (StudentResult.skipped sr)) sr in
        let sr :=
          pushDocument
            (docResultOf doc ai_skipped 0 (Verification.remark verification)
               (Verification.issues verification) (Some [])) sr in
        let sr :=
          updateEntry doc
            (fun e =>
               Entry.set_remark (Some (Verification.remark verification))
                 (Entry.set_ai_status (Some ai_skipped) e)) sr in
        log info
          (applnID +:+ " - " +:+ Doc.document_label doc
           +:+ ": Skipped (not uploaded)") None ;;
        mret (sr, statusUpdates)
      else
        let aiStatus :=
          if bool_decide (Verification.status verification = "approve")
          then Verified else reject in
        let statusUpdates :=
          statusUpdates ++
          [ {| StatusUpdate.document_type_id := Doc.document_type_id doc;
               StatusUpdate.doc_ai_status := aiStatus;
               StatusUpdate.doc_ai_remark := Verification.remark verification |} ] in
        let sr :=
          pushDocument
            (docResultOf doc aiStatus (Verification.confidence verification)
               (Verification.remark verification)
               (Verification.issues verification)
               (Verification.extracted_data verification)) sr in
        let sr :=
          updateEntry doc
            (fun e =>
               Entry.set_extracted_data
                 (Verification.extracted_data verification)
                 (Entry.set_issues (Some (Verification.issues verification))
                    (Entry.set_remark (Some (Verification.remark verification))
                       (Entry.set_confidence
                          (Some (Verification.confidence verification))
                          (Entry.set_ai_status (Some aiStatus) e))))) sr in
        let sr :=
          match aiStatus with
          | Verified =>
              StudentResult.set_approved (S (StudentResult.approved sr)) sr
          | _ => StudentResult.set_rejected (S (StudentResult.rejected sr)) sr
          end in
        log info
          (applnID +:+ " - " +:+ Doc.document_label doc +:+ ": "
           +:+ renderAiStatus aiStatus +:+ " ("
           +:+ pretty (Verification.confidence verification) +:+ "%)")
          (Some [("remark", Verification.remark verification)]) ;;
        mret (sr, statusUpdates)
  | RejectedWith reason =>
      let sr := StudentResult.set_errors (S (StudentResult.errors sr)) sr in
      let errMsg := JS.or_else (messageOfOpt reason) "Unknown error" in
      let statusUpdates :=
        statusUpdates ++
        [ {| StatusUpdate.document_type_id := Doc.document_type_id doc;
             StatusUpdate.doc_ai_status := ai_error;
             StatusUpdate.doc_ai_remark := "Verification failed: " +:+ errMsg |} ] in
      let sr :=
        pushDocument
          (docResultOf doc ai_error 0 errMsg ["Verification process error"]
             (Some [])) sr in
      let sr :=
        updateEntry doc
          (fun e =>
             Entry.set_remark (Some errMsg)
               (Entry.set_confidence (Some 0)
                  (Entry.set_ai_status (Some ai_error) e))) sr in
      log error (applnID +:+ " - " +:+ Doc.document_label doc +:+ ": Error")
        (Some [("error", errMsg)]) ;;
      mret (sr, statusUpdates)
  end.

Fixpoint mergeResults (applnID : string)
    (settled : list (Doc.t * Settlement Verification.t))
    (acc : StudentResult.t * list StatusUpdate.t)
    : Js (StudentResult.t * list StatusUpdate.t) :=
  match settled with
  | [] => mret acc
  | (doc, result) :: rest =>
      acc' ← mergeResult applnID doc result acc;
      mergeResults applnID rest acc'
  end.

(** A task of the pool: the document and the promise of its
    verification. *)
Definition Task : Type := Doc.t * Async.Promise Verification.t.

Definition pendingCount (tasks : list Task) : nat :=
  length (List.filter (fun task => Async.isPending (snd task)) tasks).

(** The events [TaskStarted] and [TaskSettled] are recorded where
    [verifyDocument(doc)] is called and where its promise settles. *)
Definition noteSettled (doc : Doc.t) (p : Async.Promise Verification.t)
    : Js unit :=
  match p with
  | Async.Settled _ => modify (record (TaskSettled doc))
  | Async.Pending _ => mret tt
  end.

(** [chunk.map(doc => this.verifyDocument(doc))]: the calls are made in
    order, and each runs until its first [await]. *)
Fixpoint startTasks (chunk : list Doc.t) : Js (list Task) :=
  match chunk with
  | [] => mret []
  | doc :: rest =>
      modify (record (TaskStarted doc)) ;;
      p ← Async.advance (verifyDocumentTask doc);
      noteSettled doc p ;;
      tasks ← startTasks rest;
      mret ((doc, p) :: tasks)
  end.

(** One turn of the event loop: the operation of the [n]-th pending task
    (of the last one, if there are fewer) has completed, and that task runs
    until it awaits again or settles. *)
Fixpoint resumeTask (n : nat) (tasks : list Task) : Js (list Task) :=
  match tasks with
  | [] => mret []
  | (doc, Async.Settled r) :: rest =>
      rest' ← resumeTask n rest;
      mret ((doc, Async.Settled r) :: rest')
  | (doc, Async.Pending k) :: rest =>
      let resumed :=
        p ← Async.advance k;
        noteSettled doc p ;;
        mret ((doc, p) :: rest) in
      match pendingCount rest with
      | O => resumed
      | S _ =>
          match n with
          | O => resumed
          | S n' =>
              rest' ← resumeTask n' rest;
              mret ((doc, Async.Pending k) :: rest')
          end
      end
  end.

Definition settlements (tasks : list Task)
    : list (Settlement Verification.t) :=
  omap (fun task : Task =>
          match snd task with
          | Async.Settled r => Some r
          | Async.Pending _ => None
          end) tasks.

(** [await Promise.allSettled(promises)]: the caller is suspended until no
    promise is pending; each turn of the event loop resumes the pending
    task whose operation completes first, after the operator has had the
    occasion to ask for a stop.  [turns] bounds the number of turns;
    [allSettled] grants as many as the tasks can take. *)
Fixpoint settleTasks (turns : nat) (tasks : list Task)
    : Js (list (Settlement Verification.t)) :=
  match pendingCount tasks with
  | O => mret (settlements tasks)
  | S _ =>
      match turns with
      | O => diverge
      | S turns' =>
          t ← gets clock;
          suspend ;;
          tasks' ← resumeTask (completes env t) tasks;
          settleTasks turns' tasks'
      end
  end.

(** A task is suspended at most three times for each attempt: on the
    download, on the backend and on the delay before the next attempt. *)
Definition turnsOf (cfg : Config) (chunk : list Doc.t) : nat :=
  (length chunk * (3 * Z.to_nat (retryAttempts cfg)))%nat.

(** [Promise.allSettled(chunk.map(doc => this.verifyDocument(doc)))],
    awaited. *)
Definition allSettled (chunk : list Doc.t)
    : Js (list (Settlement Verification.t)) :=
  tasks ← startTasks chunk;
  cfg ← gets config;
  settleTasks (turnsOf cfg chunk) tasks.

(** [for (const chunk of chunks)].  Chunks are distinct array objects, so
    [chunks.indexOf(chunk) < chunks.length - 1] says that [chunk] is not the
    last one. *)
Fixpoint processChunks (applnID : string) (chunks : list (list Doc.t))
    (acc : StudentResult.t * list StatusUpdate.t)
    : Js (StudentResult.t * list StatusUpdate.t) :=
  match chunks with
  | [] => mret acc
  | chunk :: rest =>
      stop ← gets shouldStop;
      if stop : bool then
        log info ("Stopping mid-student " +:+ applnID) None ;;
        mret acc
      else
        results ← allSettled chunk;
        acc' ← mergeResults applnID (zip chunk results) acc;
        (match rest with
         | [] => mret tt
         | _ :: _ =>
             cfg ← gets config;
             sleep (delayBetweenDocsMs cfg)
         end) ;;
        processChunks applnID rest acc'
  end.

(** The tail of [processStudent]: stamp the end time, store, return. *)
Definition storeResult (sr : StudentResult.t) : Js StudentResult.t :=
  let sr := StudentResult.set_ended true sr in
  modify (fun s =>
    set_studentResults
      (<[StudentResult.applnID sr := sr]> (studentResults s)) s) ;;
  mret sr.

(** The [catch (err)] of [processStudent], entered with the
    [studentResult] as it is when the error is thrown. *)
Definition processingFailed (sr : StudentResult.t) (err : Thrown)
    : Js StudentResult.t :=
  let sr := StudentResult.set_status failed sr in
  m ← messageOf err;
  log error
    ("Student " +:+ StudentResult.applnID sr +:+ ": Processing failed")
    (Some [("error", m)]) ;;
  storeResult sr.

(** [processStudent(applnID, studentName)].  The [catch] of its [try] block
    is written out at the two places of the block that can throw, the fetch
    of the document list and the handler of a failed write-back; the chunk
    loop between them always returns. *)
Definition processStudent (applnID studentName : string)
    : Js StudentResult.t :=
  let sr := newStudentResult applnID studentName in
  fetched ←
    tryCatch
      (withRetry
         (fun attempt =>
            await (CallGetDocumentList applnID)
                  (getDocumentList env applnID attempt))
         ("Fetch docs for " +:+ applnID));
  match fetched with
  | inr err => processingFailed sr err
  | inl docListResponse =>
      match
        (if bool_decide (dl_status docListResponse = 1)
         then dl_document_status docListResponse else None)
      with
      | None =>
          let sr := StudentResult.set_status skipped sr in
          log warn
            ("Student " +:+ applnID +:+ ": No document list returned") None ;;
          storeResult sr
      | Some allDocs =>
          let sr := StudentResult.set_allDocuments (entryOf <$> allDocs) sr in
          let uploadedDocs := List.filter hasFile allDocs in
          let sr := StudentResult.set_uploaded (length uploadedDocs) sr in
          cfg ← gets config;
          let uploadedDocs :=
            if skipAlreadyVerified cfg
            then List.filter
                   (fun doc => negb (bool_decide (Doc.verify_status doc = "2")))
                   uploadedDocs
            else uploadedDocs in
          let sr := StudentResult.set_totalDocs (length uploadedDocs) sr in
          match uploadedDocs with
          | [] =>
              let sr := StudentResult.set_status skipped sr in
              log info
                ("Student " +:+ applnID +:+ ": No documents to verify") None ;;
              storeResult sr
          | _ :: _ =>
              cfg ← gets config;
              match chunkArray uploadedDocs (concurrency cfg) with
              | None => diverge
              | Some chunks =>
                  '(sr, statusUpdates) ← processChunks applnID chunks (sr, []);
                  let conclude :=
                    storeResult
                      (StudentResult.set_status
                         (if (0 <? StudentResult.errors sr)%nat
                          then partial else completed) sr) in
                  stop ← gets shouldStop;
                  if (0 <? length statusUpdates)%nat && negb stop then
                    updated ←
                      tryCatch
                        (withRetry
                           (fun attempt =>
                              await
                                (CallUpdateDocumentStatus applnID statusUpdates)
                                (updateDocumentStatus env applnID
                                   statusUpdates attempt))
                           ("Update status for " +:+ applnID));
                    match updated with
                    | inl _ =>
                        log info
                          (applnID +:+ ": Status updated ("
                           +:+ pretty (length statusUpdates) +:+ " documents)")
                          None ;;
                        conclude
                    | inr updateErr =>
                        m ← tryCatch (messageOf updateErr);
                        match m with
                        | inl m =>
                            log error (applnID +:+ ": Failed to update status")
                              (Some [("error", m)]) ;;
                            conclude
                        | inr err => processingFailed sr err
                        end
                    end
                  else conclude
              end
          end
      end
  end.

(** ** Runs *)

Definition newRun (runId : Z) (total : nat) : Run.t := {|
  Run.id := runId;
  Run.ended := false;
  Run.status := running;
  Run.totalStudents := total;
  Run.processed := 0;
  Run.completed := 0;
  Run.skipped := 0;
  Run.errors := 0;
  Run.totalDocsVerified := 0;
  Run.totalApproved := 0;
  Run.totalRejected := 0;
  Run.students := Some []
|}.

Definition nullDereference : Thrown :=
  ThrownError "Cannot read properties of null".

(** Reading [this.currentRun.x]. *)
Definition theRun : Js Run.t :=
  cur ← gets currentRun;
  match cur with
  | Some r => mret r
  | None => throw nullDereference
  end.

(** Assigning fields of [this.currentRun]. *)
Definition updateRun (f : Run.t -> Run.t) : Js unit :=
  r ← theRun;
  modify (set_currentRun (Some (f r))).

(** [this.currentRun.students.push(result)]. *)
Definition pushStudent (result : StudentResult.t) : Js unit :=
  r ← theRun;
  match Run.students r with
  | Some l =>
      modify (set_currentRun (Some (Run.set_students (Some (l ++ [result])) r)))
  | None => throw (ThrownError "Cannot read properties of undefined")
  end.

(** [finishRun()]. *)
Definition finishRun : Js unit :=
  modify (set_isRunning false) ;;
  cur ← gets currentRun;
  match cur with
  | Some r =>
      modify (fun s =>
        let pushed := runs s ++ [Run.set_students None r] in
        set_runs
          (if maxRuns s <? Z.of_nat (length pushed)
           then JS.sliceFrom pushed (- maxRuns s)
           else pushed) s)
  | None => mret tt
  end.

(** [student.applnID || student.id || student.application_id]. *)
Definition applnIDOf (student : Student) : option string :=
  if JS.truthy_opt (st_applnID student) then st_applnID student
  else if JS.truthy_opt (st_id student) then st_id student
  else JS.or_null (st_application_id student).

(** [[first_name, last_name].filter(Boolean).join(' ') || name || applnID]. *)
Definition studentNameOf (student : Student) (applnID : string) : string :=
  let parts :=
    List.filter JS.truthy
      (omap id [st_first_name student; st_last_name student]) in
  JS.or_else (JS.joinSpace parts)
    (JS.or_else (default "" (st_name student)) applnID).

(** How a subject's result is added to the run's counters in [runBatch]. *)
Definition tally (result : StudentResult.t) (r : Run.t) : Run.t :=
  match StudentResult.status result with
  | completed | partial =>
      Run.set_totalRejected
        (Run.totalRejected r + StudentResult.rejected result)%nat
        (Run.set_totalApproved
           (Run.totalApproved r + StudentResult.approved result)%nat
           (Run.set_totalDocsVerified
              (Run.totalDocsVerified r + StudentResult.totalDocs result)%nat
              (Run.set_completed (S (Run.completed r)) r)))
  | skipped => Run.set_skipped (S (Run.skipped r)) r
  | _ => Run.set_errors (S (Run.errors r)) r
  end.

(** [for (const student of students)] in [runBatch]. *)
Fixpoint forStudents (students : list Student) (total : nat) : Js unit :=
  match students with
  | [] => mret tt
  | student :: rest =>
      stop ← gets shouldStop;
      if stop : bool then
        log info "Batch stopped by user" None ;;
        updateRun (Run.set_status stopped)
      else
        match applnIDOf student with
        | None => forStudents rest total
        | Some applnID =>
            let studentName := studentNameOf student applnID in
            r ← theRun;
            log info
              ("Processing student " +:+ pretty (S (Run.processed r)) +:+ "/"
               +:+ pretty total +:+ ": " +:+ applnID +:+ " (" +:+ studentName
               +:+ ")") None ;;
            result ← processStudent applnID studentName;
            pushStudent result ;;
            updateRun (fun r => Run.set_processed (S (Run.processed r)) r) ;;
            updateRun (tally result) ;;
            stop ← gets shouldStop;
            (if stop : bool then mret tt
             else cfg ← gets config; sleep (delayBetweenStudentsMs cfg)) ;;
            forStudents rest total
        end
  end.

(** The [try] block of [runBatch]; [true] is its early [return]. *)
Definition batchBody : Js bool :=
  studentListResponse ←
    withRetry
      (fun attempt => await CallGetStudentList (getStudentList env attempt))
      "Fetch student list";
  match studentListResponse with
  | NoStudentData =>
      log error "Failed to fetch student list" None ;;
      updateRun (Run.set_status run_error) ;;
      updateRun (Run.set_ended true) ;;
      finishRun ;;
      mret true
  | StudentArray _ | StudentObject _ =>
      let students :=
        match studentListResponse with
        | StudentArray l => l
        | StudentObject one => [one]
        | NoStudentData => []
        end in
      updateRun (Run.set_totalStudents (length students)) ;;
      log info
        ("Found " +:+ pretty (length students) +:+ " students to process")
        None ;;
      forStudents students (length students) ;;
      r ← theRun;
      (match Run.status r with
       | running => updateRun (Run.set_status run_completed)
       | _ => mret tt
       end) ;;
      mret false
  end.

(** [runBatch()]; [None] is the [null] it returns when a run is active. *)
Definition runBatch (runId : Z) : Js (option Run.t) :=
  active ← gets isRunning;
  if active : bool then
    log warn "Batch already running, skipping" None ;;
    mret None
  else
    modify (set_isRunning true) ;;
    modify (set_shouldStop false) ;;
    modify (set_currentRun (Some (newRun runId 0))) ;;
    log info "========== BATCH VERIFICATION STARTED ==========" None ;;
    outcome ← tryCatch batchBody;
    match outcome with
    | inl true => gets currentRun
    | _ =>
        (match outcome with
         | inr err =>
             m ← messageOf err;
             log error "Batch run failed" (Some [("error", m)]) ;;
             updateRun (Run.set_status run_error)
         | inl _ => mret tt
         end) ;;
        updateRun (Run.set_ended true) ;;
        r ← theRun;
        log info
          ("========== BATCH FINISHED: " +:+ renderRunStatus (Run.status r)
           +:+ " ==========")
          (Some [("processed", pretty (Run.processed r));
                 ("completed", pretty (Run.completed r));
                 ("approved", pretty (Run.totalApproved r));
                 ("rejected", pretty (Run.totalRejected r))]) ;;
        finishRun ;;
        gets currentRun
    end.

Definition busy : Thrown :=
  ThrownError
    "A batch job is currently running. Wait for it to finish or stop it first.".

(** How [verifySingleStudent] sets the run's counters from the result. *)
Definition tallySingle (result : StudentResult.t) (r : Run.t) : Run.t :=
  match StudentResult.status result with
  | completed | partial =>
      Run.set_totalRejected (StudentResult.rejected result)
        (Run.set_totalApproved (StudentResult.approved result)
           (Run.set_totalDocsVerified (StudentResult.totalDocs result)
              (Run.set_completed 1 r)))
  | skipped => Run.set_skipped 1 r
  | _ => Run.set_errors 1 r
  end.

(** [verifySingleStudent(applnID)]. *)
Definition verifySingleStudent (runId : Z) (applnID : string)
    : Js (option Run.t) :=
  active ← gets isRunning;
  if active : bool then throw busy
  else
    modify (set_isRunning true) ;;
    modify (set_shouldStop false) ;;
    modify (set_currentRun (Some (newRun runId 1))) ;;
    log info
      ("========== SINGLE STUDENT VERIFICATION: " +:+ applnID
       +:+ " ==========") None ;;
    result ← processStudent applnID applnID;
    pushStudent result ;;
    updateRun (Run.set_processed 1) ;;
    updateRun (tallySingle result) ;;
    updateRun (Run.set_status run_completed) ;;
    updateRun (Run.set_ended true) ;;
    finishRun ;;
    gets currentRun.

End WithEnv.

(** [getRunDetail(runId)]. *)
Definition getRunDetail (runId : Z) (s : Scheduler) : option Run.t :=
  let inHistory :=
    JS.find (fun r => bool_decide (Run.id r = runId)) (runs s) in
  match currentRun s with
  | Some r => if bool_decide (Run.id r = runId) then Some r else inHistory
  | None => inHistory
  end.

(** [getLogs(limit)]. *)
Definition getLogs (limit : Z) (s : Scheduler) : list LogEntry :=
  JS.sliceFrom (logs s) (- limit).

(** ** Concrete subjects and collaborators *)

Definition mkDoc (typeId label : string) (url : option string) : Doc.t := {|
  Doc.document_type_id := typeId;
  Doc.document_type_name := "Academic";
  Doc.document_label := label;
  Doc.document_description := "";
  Doc.document_is_required := "1";
  Doc.file_url := url;
  Doc.filename := (fun _ => label +:+ ".pdf") <$> url;
  Doc.verify_status := "0";
  Doc.doc_upload_id := typeId
|}.

Definition docA : Doc.t := mkDoc "1" "A" (Some "https://s3/a.pdf").
Definition docB : Doc.t := mkDoc "2" "B" (Some "https://s3/b.pdf").
Definition docC : Doc.t := mkDoc "3" "C" None.
Definition docD : Doc.t := mkDoc "4" "D" (Some "https://s3/d.pdf").

Definition approval : Verification.t := {|
  Verification.status := "approve";
  Verification.confidence := 95;
  Verification.remark := "Document matches";
  Verification.issues := [];
  Verification.extracted_data := None
|}.

Definition rejection : Verification.t := {|
  Verification.status := "reject";
  Verification.confidence := 80;
  Verification.remark := "Wrong document";
  Verification.issues := ["Type mismatch"];
  Verification.extracted_data := None
|}.

(** An order of completion: at odd instants the operation of the second
    suspended task completes, at even instants that of the first. *)
Definition alternately : nat -> nat := fun t => (t mod 2)%nat.

(** The collaborators of [env] with another order of completion. *)
Definition reordered (order : nat -> nat) (env : Env) : Env := {|
  getStudentList := getStudentList env;
  getDocumentList := getDocumentList env;
  updateDocumentStatus := updateDocumentStatus env;
  downloadDocument := downloadDocument env;
  verify := verify env;
  stopRequested := stopRequested env;
  completes := order
|}.

(** Collaborators that answer every call, for a subject whose documents are
    [docs]; the backend rejects the document B and approves the others. *)
Definition steadyEnv (docs : list Doc.t) : Env := {|
  getStudentList := fun _ _ => Resolved NoStudentData;
  getDocumentList := fun _ _ _ =>
    Resolved {| dl_status := 1; dl_document_status := Some docs |};
  updateDocumentStatus := fun _ _ _ _ => Resolved tt;
  downloadDocument := fun url _ _ =>
    Resolved {| buffer := url; contentType := "application/pdf" |};
  verify := fun buf _ _ _ =>
    if bool_decide (buf = "https://s3/b.pdf")
    then Resolved rejection else Resolved approval;
  stopRequested := fun _ => false;
  completes := alternately
|}.

(** The scenario of the specification: the subject has the items A, B and C;
    the download of A fails on its first two attempts, B is rejected at
    once, C has no file. *)
Definition scenarioEnv : Env := {|
  getStudentList := getStudentList (steadyEnv [docA; docB; docC]);
  getDocumentList := getDocumentList (steadyEnv [docA; docB; docC]);
  updateDocumentStatus := updateDocumentStatus (steadyEnv [docA; docB; docC]);
  downloadDocument := fun url attempt now =>
    if bool_decide (url = "https://s3/a.pdf") && (attempt <? 3)
    then Rejected "socket hang up"
    else downloadDocument (steadyEnv [docA; docB; docC]) url attempt now;
  verify := verify (steadyEnv [docA; docB; docC]);
  stopRequested := fun _ => false;
  completes := alternately
|}.

(** A subject with three uploaded items, and an operator who calls
    [stopScheduler] while the first download is in flight. *)
Definition stoppingEnv : Env := {|
  getStudentList := getStudentList (steadyEnv [docA; docB; docD]);
  getDocumentList := getDocumentList (steadyEnv [docA; docB; docD]);
  updateDocumentStatus := updateDocumentStatus (steadyEnv [docA; docB; docD]);
  downloadDocument := downloadDocument (steadyEnv [docA; docB; docD]);
  verify := verify (steadyEnv [docA; docB; docD]);
  stopRequested := fun t => bool_decide (t = 1%nat);
  completes := alternately
|}.

(** Atlas cannot be reached: every call fails with [message]. *)
Definition unreachableEnv (message : string) : Env := {|
  getStudentList := fun _ _ => Rejected message;
  getDocumentList := fun _ _ _ => Rejected message;
  updateDocumentStatus := fun _ _ _ _ => Rejected message;
  downloadDocument := fun _ _ _ => Rejected message;
  verify := fun _ _ _ _ => Rejected message;
  stopRequested := fun _ => false;
  completes := alternately
|}.

(** A scheduler as constructed, with another log capacity. *)
Definition schedulerWithMaxLogs (n : Z) : Scheduler := {|
  config := defaultConfig;
  cronJob := false;
  isRunning := false;
  shouldStop := false;
  currentRun := None;
  runs := [];
  logs := [];
  maxLogs := n;
  maxRuns := 50;
  studentResults := ∅;
  clock := 0%nat;
  effects := []
|}.

(** ** Vocabulary of the statements *)

(** A sequence of insertions into the log buffer. *)
Fixpoint logAll (entries : list LogEntry) : Js unit :=
  match entries with
  | [] => mret tt
  | e :: rest => log (level e) (message e) (data e) ;; logAll rest
  end.

(** The last [n] elements of a list. *)
Definition lastN {A} (n : nat) (l : list A) : list A :=
  drop (length l - n) l.

(** Remote calls made and delays waited, read off a trace. *)
Definition attemptsMade (evs : list Effect) : nat :=
  length (List.filter (fun e => match e with Called _ => true | _ => false end) evs).

Definition delaysOf (evs : list Effect) : list Z :=
  omap (fun e => match e with Slept ms => Some ms | _ => None end) evs.

(** The trace of [remaining] failed attempts of the call [c], numbered from
    [attempt], the last of which is attempt number [final]. *)
Fixpoint exhaustedTrace (c : Call) (base : Z) (final : Z) (attempt : Z)
    (remaining : nat) : list Effect :=
  match remaining with
  | O => []
  | S k =>
      Called c ::
      (if attempt <? final then [Slept (base * 2 ^ (attempt - 1))] else []) ++
      exhaustedTrace c base final (attempt + 1) k
  end.

(** The files whose download is requested along a trace, in order. *)
Definition downloadsOf (evs : list Effect) : list string :=
  omap (fun e =>
          match e with
          | Called (CallDownloadDocument url) => Some url
          | _ => None
          end) evs.

(** Task events of a trace, the documents whose tasks are started and
    settled along it, and the number of tasks in flight, at its end and at
    most, along a trace that starts with [n] of them. *)
Definition isTaskEvent (e : Effect) : bool :=
  match e with TaskStarted _ | TaskSettled _ => true | _ => false end.

Definition taskEvents (evs : list Effect) : list Effect :=
  List.filter isTaskEvent evs.

Definition startedDocs (evs : list Effect) : list Doc.t :=
  omap (fun e => match e with TaskStarted d => Some d | _ => None end) evs.

Definition settledDocs (evs : list Effect) : list Doc.t :=
  omap (fun e => match e with TaskSettled d => Some d | _ => None end) evs.

Fixpoint inFlight (n : nat) (evs : list Effect) : nat :=
  match evs with
  | [] => n
  | TaskStarted _ :: rest => inFlight (S n) rest
  | TaskSettled _ :: rest => inFlight (pred n) rest
  | _ :: rest => inFlight n rest
  end.

Fixpoint peakInFlight (n : nat) (evs : list Effect) : nat :=
  match evs with
  | [] => n
  | TaskStarted _ :: rest => Nat.max n (peakInFlight (S n) rest)
  | TaskSettled _ :: rest => Nat.max n (peakInFlight (pred n) rest)
  | _ :: rest => peakInFlight n rest
  end.

(** Every download and every call of the backend along a trace is made
    while a task is in flight. *)
Fixpoint callsInFlight (n : nat) (evs : list Effect) : Prop :=
  match evs with
  | [] => True
  | TaskStarted _ :: rest => callsInFlight (S n) rest
  | TaskSettled _ :: rest => callsInFlight (pred n) rest
  | Called (CallDownloadDocument _) :: rest
  | Called (CallVerify _ _) :: rest => (1 <= n)%nat /\ callsInFlight n rest
  | _ :: rest => callsInFlight n rest
  end.

(** The task events [run] of a chunk that the pool has run: the tasks are
    started in the order of the chunk, every one of them is settled, in
    some order, none before it is started, and none is left in flight. *)
Definition chunkRun (chunk : list Doc.t) (run : list Effect) : Prop :=
  startedDocs run = chunk /\ settledDocs run ≡ₚ chunk /\ inFlight 0 run = 0%nat.

(** The task events of the chunks [chunks], run one after another. *)
Definition chunkRuns (chunks : list (list Doc.t)) (evs : list Effect)
    : Prop :=
  exists runs, evs = concat runs /\ Forall2 chunkRun chunks runs.

(** The outcome counters of a subject, added up. *)
Definition outcomes (sr : StudentResult.t) : nat :=
  (StudentResult.approved sr + StudentResult.rejected sr +
   StudentResult.errors sr + StudentResult.skipped sr)%nat.

(** What no step of a run changes, and how the trace grows. *)
Definition frame (s s' : Scheduler) : Prop :=
  config s' = config s /\ maxLogs s' = maxLogs s /\ maxRuns s' = maxRuns s /\
  isRunning s' = isRunning s /\ currentRun s' = currentRun s /\
  runs s' = runs s /\ (shouldStop s = true -> shouldStop s' = true).

Definition extends (P : Effect -> Prop) (s s' : Scheduler) : Prop :=
  exists new, effects s' = effects s ++ new /\ Forall P new.

Definition evolves (P : Effect -> Prop) (s s' : Scheduler) : Prop :=
  frame s s' /\ extends P s s'.

(** A computation that ends, by a return or by throwing an [Error], in a
    state related to the initial one; it may throw [undefined] only where
    [U] holds. *)
Definition settles {A} (R : Scheduler -> Scheduler -> Prop) (U : Prop)
    (m : Js A) (s : Scheduler) : Prop :=
  match m s with
  | Returned _ s' => R s s'
  | Raised (ThrownError _) s' => R s s'
  | Raised ThrownUndefined s' => R s s' /\ U
  | Diverged => False
  end.

(** Event predicates: an event that is no task event, and an event that
    concerns only documents with a file. *)
Definition urlPresent (url : string) : bool :=
  JS.truthy url && negb (bool_decide (JS.trim url = "")).

Definition noTask (e : Effect) : Prop := isTaskEvent e = false.

Definition withFile (e : Effect) : Prop :=
  match e with
  | TaskStarted d | TaskSettled d => hasFile d = true
  | Called (CallDownloadDocument url) => urlPresent url = true
  | _ => True
  end.

(** An event of one verification task: no task event, and no download of
    an absent file. *)
Definition taskStep (e : Effect) : Prop := noTask e /\ withFile e.

(** What the merging of outcomes never changes in an entry of
    [allDocuments]. *)
Definition entryKey (e : Entry.t) : string * bool :=
  (Entry.document_type_id e, Entry.is_uploaded e).

(** [sr'] is [sr] after the outcomes of [docs] have been merged into it. *)
Definition advanced (docs : list Doc.t) (sr sr' : StudentResult.t) : Prop :=
  outcomes sr' = (outcomes sr + length docs)%nat /\
  StudentResult.totalDocs sr' = StudentResult.totalDocs sr /\
  StudentResult.uploaded sr' = StudentResult.uploaded sr /\
  StudentResult.status sr' = StudentResult.status sr /\
  StudentResult.applnID sr' = StudentResult.applnID sr /\
  (exists ds,
    StudentResult.documents sr' = StudentResult.documents sr ++ ds /\
    DocResult.file_url <$> ds = Doc.file_url <$> docs) /\
  entryKey <$> StudentResult.allDocuments sr' =
    entryKey <$> StudentResult.allDocuments sr /\
  (forall e, e ∈ StudentResult.allDocuments sr' ->
     e ∈ StudentResult.allDocuments sr \/
     Entry.document_type_id e ∈ (Doc.document_type_id <$> docs)).

(** What holds of the result [res] and final state [s'] of a
    [processStudent] started in [s]: [allDocs] is the subject's document
    list, [cands] are the documents to verify, [chunks] their chunks, [k]
    the number of chunks that were run. *)
Definition subjectPost (s : Scheduler) (res : StudentResult.t)
    (s' : Scheduler) : Prop :=
  frame s s' /\
  StudentResult.status res <> processing /\
  exists allDocs cands chunks k new,
    chunkArray cands (concurrency (config s)) = Some chunks /\
    Forall (fun d => hasFile d = true) cands /\
    (forall d, d ∈ cands -> d ∈ allDocs) /\
    StudentResult.totalDocs res = length cands /\
    (k <= length chunks)%nat /\
    outcomes res = length (concat (take k chunks)) /\
    DocResult.file_url <$> StudentResult.documents res =
      Doc.file_url <$> concat (take k chunks) /\
    entryKey <$> StudentResult.allDocuments res =
      entryKey <$> (entryOf <$> allDocs) /\
    (forall e, e ∈ StudentResult.allDocuments res ->
       e ∈ (entryOf <$> allDocs) \/
       Entry.document_type_id e ∈
         (Doc.document_type_id <$> concat (take k chunks))) /\
    effects s' = effects s ++ new /\
    chunkRuns (take k chunks) (taskEvents new) /\
    Forall withFile new /\
    (shouldStop s' = false -> k = length chunks).

(** The result of the scenario of the specification, as a test on what
    [processStudent] has done: the counters and the status, the documents
    in the order of the list, the delays of A and the downloads
    requested. *)
Definition scenarioHolds (c : Completion StudentResult.t) : bool :=
  match c with
  | Returned res s' =>
      bool_decide (StudentResult.totalDocs res = 2%nat) &&
      bool_decide (StudentResult.approved res = 1%nat) &&
      bool_decide (StudentResult.rejected res = 1%nat) &&
      bool_decide (StudentResult.skipped res = 0%nat) &&
      bool_decide (StudentResult.errors res = 0%nat) &&
      match StudentResult.status res with completed => true | _ => false end &&
      StudentResult.ended res &&
      bool_decide
        (DocResult.document_label <$> StudentResult.documents res = ["A"; "B"]) &&
      bool_decide (delaysOf (effects s') = [2000; 4000]) &&
      bool_decide
        (downloadsOf (effects s') =
         ["https://s3/a.pdf"; "https://s3/b.pdf"; "https://s3/a.pdf";
          "https://s3/a.pdf"])
  | _ => false
  end.

(** ** The media type of a document *)

(** [DocumentVerificationService.getMediaType], which [verify] calls on the
    descriptor [verifyDocument] builds. *)
Module MediaType.

(** What [getMediaType] can return: a string, or the member of
    [Object.prototype] that [extMap[ext]] finds for an extension that is no
    key of [extMap] itself. *)
Inductive t :=
  | Media (name : string)
  | Inherited (property : string).

(** [String.prototype.toLowerCase] on Latin-1 code units: A-Z, and U+00C0 to
    U+00DE but for the multiplication sign. *)
Definition toLowerCaseChar (c : ascii) : ascii :=
  let n := nat_of_ascii c in
  if ((65 <=? n)%nat && (n <=? 90)%nat) ||
     ((192 <=? n)%nat && (n <=? 222)%nat && negb (n =? 215)%nat)
  then ascii_of_nat (n + 32) else c.

Fixpoint toLowerCase (s : string) : string :=
  match s with
  | EmptyString => EmptyString
  | String c rest => String (toLowerCaseChar c) (toLowerCase rest)
  end.

(** What follows the last ['.'] of [s], if there is one. *)
Fixpoint afterLastDot (s : string) : option string :=
  match s with
  | EmptyString => None
  | String c rest =>
      match afterLastDot rest with
      | Some piece => Some piece
      | None => if bool_decide (c = "."%char) then Some rest else None
      end
  end.

(** [s.split('.').pop()]. *)
Definition lastPiece (s : string) : string := default s (afterLastDot s).

(** The properties every object literal inherits from [Object.prototype]. *)
Definition objectPrototype : list string :=
  ["constructor"; "__defineGetter__"; "__defineSetter__"; "hasOwnProperty";
   "__lookupGetter__"; "__lookupSetter__"; "isPrototypeOf";
   "propertyIsEnumerable"; "toString"; "valueOf"; "__proto__";
   "toLocaleString"].

(** [extMap[ext]]; [None] is [undefined]. *)
Definition extMap (ext : string) : option t :=
  if bool_decide (ext = "jpg") then Some (Media "image/jpeg")
  else if bool_decide (ext = "jpeg") then Some (Media "image/jpeg")
  else if bool_decide (ext = "png") then Some (Media "image/png")
  else if bool_decide (ext = "gif") then Some (Media "image/gif")
  else if bool_decide (ext = "webp") then Some (Media "image/webp")
  else if bool_decide (ext = "pdf") then Some (Media "application/pdf")
  else if bool_decide (ext ∈ objectPrototype) then Some (Inherited ext)
  else None.

(** [getMediaType(filename, contentType)]; a missing [filename] makes
    [filename.split] throw. *)
Definition getMediaType (filename : option string) (contentType : string)
    : t + Thrown :=
  match filename with
  | None => inr (ThrownError "Cannot read properties of null (reading 'split')")
  | Some filename =>
      let ext := toLowerCase (lastPiece filename) in
      let fromExtension := inl (default (Media "image/jpeg") (extMap ext)) in
      if JS.truthy contentType &&
         negb (bool_decide (contentType = "application/octet-stream"))
      then
        if JS.includes contentType "jpeg" || JS.includes contentType "jpg"
        then inl (Media "image/jpeg")
        else if JS.includes contentType "png" then inl (Media "image/png")
        else if JS.includes contentType "gif" then inl (Media "image/gif")
        else if JS.includes contentType "webp" then inl (Media "image/webp")
        else if JS.includes contentType "pdf" then inl (Media "application/pdf")
        else fromExtension
      else fromExtension
  end.

(** Letters that [toLowerCase] changes, and strings without any. *)
Definition isUpper (c : ascii) : bool :=
  let n := nat_of_ascii c in
  ((65 <=? n)%nat && (n <=? 90)%nat) ||
  ((192 <=? n)%nat && (n <=? 222)%nat && negb (n =? 215)%nat).

Fixpoint noUpper (s : string) : bool :=
  match s with
  | EmptyString => true
  | String c rest => negb (isUpper c) && noUpper rest
  end.

(** Whether the content type alone settles the media type. *)
Definition contentTypeDecides (contentType : string) : bool :=
  JS.truthy contentType &&
  negb (bool_decide (contentType = "application/octet-stream")) &&
  (JS.includes contentType "jpeg" || JS.includes contentType "jpg" ||
   JS.includes contentType "png" || JS.includes contentType "gif" ||
   JS.includes contentType "webp" || JS.includes contentType "pdf").

(** The media types the service knows. *)
Definition supported : list string :=
  ["image/jpeg"; "image/png"; "image/gif"; "image/webp"; "application/pdf"].

Global Instance t_eq_dec : EqDecision t.
Proof. solve_decision. Defined.

(** The content block [verifyWithClaude] builds for the file: a document
    block where [mediaType === 'application/pdf'], an image block
    otherwise. *)
Inductive Block :=
  | DocumentBlock
  | ImageBlock (media_type : t).

Definition contentBlock (mediaType : t) : Block :=
  if bool_decide (mediaType = Media "application/pdf") then DocumentBlock
  else ImageBlock mediaType.

(** The content type bears one of the image markers. *)
Definition imageMarked (contentType : string) : bool :=
  JS.includes contentType "jpeg" || JS.includes contentType "jpg" ||
  JS.includes contentType "png" || JS.includes contentType "gif" ||
  JS.includes contentType "webp".

End MediaType.

(** ** Student results *)

(** [getStudentResult(applnID)]; a stored result is an object, so
    [|| null] only turns a missing key into [null]. *)
Definition getStudentResult (applnID : string) (s : Scheduler)
    : option StudentResult.t :=
  studentResults s !! applnID.

(** ** Invariants of method bodies *)

(** [m] keeps [I]: started where [I] holds, it does not end, by a return or
    by a throw, where [I] does not. *)
Definition keeps {A} (I : Scheduler -> Prop) (m : Js A) : Prop :=
  forall s, I s ->
    match m s with
    | Returned _ s' | Raised _ s' => I s'
    | Diverged => True
    end.

(** A property that the steps of a method do not disturb: the passing of
    time, the recording of an event among those [allowed], a line written to
    the log and, where the operator of [env] asks for a stop, the
    assignments of [stopScheduler]. *)
Definition undisturbed (env : Env) (allowed : Effect -> Prop)
    (I : Scheduler -> Prop) : Prop :=
  (forall s, I s -> I (tick s)) /\
  (forall e s, allowed e -> I s -> I (record e s)) /\
  (forall lvl msg dat s, I s -> I (pushLog lvl msg dat s)) /\
  (forall t s, stopRequested env t = true -> I s ->
     I (set_cronJob false s) /\ I (set_shouldStop true s)).

(** The events of the worker pool: tasks, downloads, calls of the backend
    and the delays between attempts and between chunks. *)
Definition poolEvent (e : Effect) : Prop :=
  match e with
  | Called (CallDownloadDocument _) | Called (CallVerify _ _) => True
  | Called _ => False
  | Slept _ | TaskStarted _ | TaskSettled _ => True
  end.

(** The events of a retried call [c]: the call and the delays. *)
Definition retryEvent (c : Call) (e : Effect) : Prop :=
  e = Called c \/ exists ms, e = Slept ms.

(** The log buffer is within its capacity, which is at least 1. *)
Definition logBounded (s : Scheduler) : Prop :=
  1 <= maxLogs s /\ Z.of_nat (length (logs s)) <= maxLogs s.

(** Atlas drops the first request and refuses the token from the second
    on. *)
Definition revokedEnv : Env := {|
  getStudentList := fun attempt _ =>
    if attempt <? 2 then Rejected "socket hang up"
    else Rejected "Request failed with status code 401";
  getDocumentList := fun _ attempt _ =>
    if attempt <? 2 then Rejected "socket hang up"
    else Rejected "Request failed with status code 401";
  updateDocumentStatus := fun _ _ _ _ =>
    Rejected "Request failed with status code 401";
  downloadDocument := fun _ _ _ =>
    Rejected "Request failed with status code 401";
  verify := fun _ _ _ _ => Rejected "Request failed with status code 401";
  stopRequested := fun _ => false;
  completes := alternately
|}.

(** An uploaded document that Atlas holds as verified. *)
Definition docV : Doc.t := {|
  Doc.document_type_id := "5";
  Doc.document_type_name := "Academic";
  Doc.document_label := "V";
  Doc.document_description := "";
  Doc.document_is_required := "1";
  Doc.file_url := Some "https://s3/v.pdf";
  Doc.filename := Some "V.pdf";
  Doc.verify_status := "2";
  Doc.doc_upload_id := "5"
|}.

(** ** The steps of the worker pool *)

(** The events of a verification task: downloads of files that are there,
    calls of the backend and the delays between attempts. *)
Definition documentStep (e : Effect) : Prop :=
  match e with
  | Called (CallDownloadDocument url) => urlPresent url = true
  | Called (CallVerify _ _) | Slept _ => True
  | _ => False
  end.

(** [s'] has every property of [s] that the steps of a task and the calls of
    the operator do not disturb. *)
Definition quiet (env : Env) (s s' : Scheduler) : Prop :=
  forall I, undisturbed env documentStep I -> I s -> I s'.

(** Synchronous statements that, under the configuration [cfg], end in a
    state that is [quiet] from theirs. *)
Definition steady (env : Env) (cfg : Config) {B} (m : Js B) : Prop :=
  forall s, config s = cfg ->
    match m s with
    | Returned _ s' | Raised _ s' => quiet env s s'
    | Diverged => False
    end.

(** Under the configuration [cfg], the [async] function [f] awaits at most
    [n] times before it settles, and its statements are [steady]. *)
Inductive safe (env : Env) (cfg : Config) {A : Type}
    : nat -> Async.t A -> Prop :=
  | safe_Return n a : safe env cfg n (Async.Return a)
  | safe_Throw n e : safe env cfg n (Async.Throw e)
  | safe_Sync n (B : Type) (m : Js B) (k : B -> Async.t A) :
      steady env cfg m ->
      (forall s b s', config s = cfg -> m s = Returned b s' ->
         safe env cfg n (k b)) ->
      safe env cfg n (Async.Sync m k)
  | safe_Await n k : safe env cfg n k -> safe env cfg (S n) (Async.Await k).

(** The pending tasks of [tasks] settle within [n] turns of the event
    loop. *)
Inductive owed (env : Env) (cfg : Config) : list Task -> nat -> Prop :=
  | owed_nil : owed env cfg [] 0
  | owed_settled doc r tasks n :
      owed env cfg tasks n ->
      owed env cfg ((doc, Async.Settled r) :: tasks) n
  | owed_pending doc k tasks m n :
      safe env cfg m k -> owed env cfg tasks n ->
      owed env cfg ((doc, Async.Pending k) :: tasks) (S m + n).

(** [s'] comes from [s], where [n] tasks are in flight, by steps of tasks,
    made while at least one is in flight, and by the recording of the task
    events [evs], in this order. *)
Inductive reach (env : Env)
    : nat -> list Effect -> Scheduler -> Scheduler -> Prop :=
  | reach_refl n s : reach env n [] s s
  | reach_step n evs s s1 s' :
      (1 <= n)%nat -> quiet env s s1 -> reach env n evs s1 s' ->
      reach env n evs s s'
  | reach_record n e evs s s' :
      reach env (inFlight n [e]) evs (record e s) s' ->
      reach env n (e :: evs) s s'.

(** The documents of the pending tasks. *)
Definition pendingDocs (tasks : list Task) : list Doc.t :=
  fst <$> List.filter (fun task => Async.isPending (snd task)) tasks.

(** ** The result of a subject in detail *)

(** [doc.verify_status !== '2']. *)
Definition notVerified (doc : Doc.t) : bool :=
  negb (bool_decide (Doc.verify_status doc = "2")).

(** The documents of [allDocs] that [processStudent] verifies under
    [cfg]. *)
Definition candidates (cfg : Config) (allDocs : list Doc.t) : list Doc.t :=
  if skipAlreadyVerified cfg
  then List.filter notVerified (List.filter hasFile allDocs)
  else List.filter hasFile allDocs.

(** The [studentResult] once the document list [allDocs] is read. *)
Definition listed (cfg : Config) (applnID studentName : string)
    (allDocs : list Doc.t) : StudentResult.t :=
  StudentResult.set_totalDocs (length (candidates cfg allDocs))
    (StudentResult.set_uploaded (length (List.filter hasFile allDocs))
       (StudentResult.set_allDocuments (entryOf <$> allDocs)
          (newStudentResult applnID studentName))).

(** The [studentResult] with its final status and its end time. *)
Definition finalized (status : SubjectStatus) (sr : StudentResult.t)
    : StudentResult.t :=
  StudentResult.set_ended true (StudentResult.set_status status sr).

(** The counters of the outcomes that are written back to Atlas. *)
Definition reported (sr : StudentResult.t) : nat :=
  (StudentResult.approved sr + StudentResult.rejected sr +
   StudentResult.errors sr)%nat.

(** What [processStudent] returns under the configuration [cfg], with the
    events [new] it adds to the trace; [stop] is the stop flag at its end.
    Either the document list could not be had, or it is [allDocs]; then
    either nothing is left to verify, or the first [k] chunks were run,
    their outcomes merged and, possibly, written back as [statusUpdates]. *)
Definition subjectDetail (cfg : Config) (applnID studentName : string)
    (res : StudentResult.t) (new : list Effect) (stop : bool) : Prop :=
  let blank := newStudentResult applnID studentName in
  let fetching := retryEvent (CallGetDocumentList applnID) in
  (Forall fetching new /\
   (res = finalized failed blank \/ res = finalized skipped blank)) \/
  exists allDocs,
    (candidates cfg allDocs = [] /\ Forall fetching new /\
     res = finalized skipped (listed cfg applnID studentName allDocs)) \/
    (candidates cfg allDocs <> [] /\
     exists merged statusUpdates chunks k fetchEvents poolEvents updateEvents,
       chunkArray (candidates cfg allDocs) (concurrency cfg) = Some chunks /\
       (k <= length chunks)%nat /\
       advanced (concat (take k chunks))
         (listed cfg applnID studentName allDocs) merged /\
       length statusUpdates = reported merged /\
       res =
         finalized
           (if (0 <? StudentResult.errors merged)%nat then partial
            else completed) merged /\
       new = fetchEvents ++ poolEvents ++ updateEvents /\
       Forall fetching fetchEvents /\
       Forall poolEvent poolEvents /\
       chunkRuns (take k chunks) (taskEvents poolEvents) /\
       Forall (retryEvent (CallUpdateDocumentStatus applnID statusUpdates))
         updateEvents /\
       (updateEvents <> [] -> k = length chunks /\ statusUpdates <> []) /\
       (stop = false -> k = length chunks)).

(** How [processStudent] ends for the subject [applnID] when started in [s]
    where [I] holds: it has returned the result it has just stored under
    [applnID], or it has thrown, no attempt being allowed. *)
Definition subjectOutcome (I : Scheduler -> Prop) (s : Scheduler)
    (applnID studentName : string) (c : Completion StudentResult.t) : Prop :=
  match c with
  | Returned res s' =>
      1 <= retryAttempts (config s) /\
      exists s0 new,
        I s0 /\ frame s s0 /\
        s' = set_studentResults (<[applnID := res]> (studentResults s0)) s0 /\
        effects s0 = effects s ++ new /\
        subjectDetail (config s) applnID studentName res new (shouldStop s0)
  | Raised e s' =>
      s' = s /\ retryAttempts (config s) < 1 /\
      e = ThrownError "Cannot read properties of undefined (reading 'message')"
  | Diverged => concurrency (config s) < 1
  end.

(** A list of three students, the second without any id, each with the
    documents A (approved) and B (rejected). *)
Definition mkStudent (applnID first_name : option string) : Student := {|
  st_applnID := applnID;
  st_id := None;
  st_application_id := None;
  st_first_name := first_name;
  st_last_name := None;
  st_name := None
|}.

Definition campusEnv : Env := {|
  getStudentList := fun _ _ =>
    Resolved
      (StudentArray
         [mkStudent (Some "S1") (Some "Ann"); mkStudent None (Some "Bob");
          mkStudent (Some "S3") None]);
  getDocumentList := getDocumentList (steadyEnv [docA; docB]);
  updateDocumentStatus := updateDocumentStatus (steadyEnv [docA; docB]);
  downloadDocument := downloadDocument (steadyEnv [docA; docB]);
  verify := verify (steadyEnv [docA; docB]);
  stopRequested := fun _ => false;
  completes := alternately
|}.

(** ** Runs in detail *)

(** A property that the bookkeeping of a run does not disturb. *)
Definition unobserved (I : Scheduler -> Prop) : Prop :=
  (forall r s, I s -> I (set_currentRun r s)) /\
  (forall m s, I s -> I (set_studentResults m s)) /\
  (forall b s, I s -> I (set_isRunning b s)) /\
  (forall l s, I s -> I (set_runs l s)) /\
  (forall s, I s -> I (set_shouldStop false s)).

(** The three ways [runBatch] counts a result. *)
Definition isVerified (res : StudentResult.t) : bool :=
  match StudentResult.status res with
  | completed | partial => true
  | _ => false
  end.

Definition isSkipped (res : StudentResult.t) : bool :=
  match StudentResult.status res with skipped => true | _ => false end.

Definition isFailed (res : StudentResult.t) : bool :=
  negb (isVerified res) && negb (isSkipped res).

Definition counted (p : StudentResult.t -> bool)
    (results : list StudentResult.t) : nat :=
  length (List.filter p results).

(** The sum of a counter over the verified results. *)
Definition verifiedTotal (f : StudentResult.t -> nat)
    (results : list StudentResult.t) : nat :=
  sum_list (f <$> List.filter isVerified results).

(** The run [r'] is [r] with the [results] pushed and counted. *)
Definition tallied (results : list StudentResult.t) (r r' : Run.t) : Prop :=
  Run.id r' = Run.id r /\ Run.totalStudents r' = Run.totalStudents r /\
  (exists l, Run.students r = Some l /\ Run.students r' = Some (l ++ results)) /\
  Run.processed r' = (Run.processed r + length results)%nat /\
  Run.completed r' = (Run.completed r + counted isVerified results)%nat /\
  Run.skipped r' = (Run.skipped r + counted isSkipped results)%nat /\
  Run.errors r' = (Run.errors r + counted isFailed results)%nat /\
  Run.totalDocsVerified r' =
    (Run.totalDocsVerified r + verifiedTotal StudentResult.totalDocs results)%nat /\
  Run.totalApproved r' =
    (Run.totalApproved r + verifiedTotal StudentResult.approved results)%nat /\
  Run.totalRejected r' =
    (Run.totalRejected r + verifiedTotal StudentResult.rejected results)%nat.

(** A result as [processStudent] returns it: finalized, with no more
    verdicts than documents to verify, and with none to verify unless its
    status is [completed] or [partial]. *)
Definition settledResult (res : StudentResult.t) : Prop :=
  StudentResult.status res <> processing /\
  StudentResult.ended res = true /\
  (StudentResult.approved res + StudentResult.rejected res <=
     StudentResult.totalDocs res)%nat /\
  (isVerified res = false -> StudentResult.totalDocs res = 0%nat).

(** The store of results after [results] have been stored in turn, each
    under its subject's id. *)
Definition storeAll (results : list StudentResult.t)
    (store : gmap string StudentResult.t) : gmap string StudentResult.t :=
  foldl (fun m res => <[StudentResult.applnID res := res]> m) store results.

(** What a run leaves of the scheduler outside its own record. *)
Definition runFrame (s s' : Scheduler) : Prop :=
  config s' = config s /\ maxLogs s' = maxLogs s /\ maxRuns s' = maxRuns s /\
  isRunning s' = isRunning s /\ runs s' = runs s /\
  (shouldStop s = true -> shouldStop s' = true).

(** The history after [finishRun] has pushed the summary of [r]. *)
Definition archive (capacity : Z) (history : list Run.t) (r : Run.t)
    : list Run.t :=
  let pushed := history ++ [Run.set_students None r] in
  if capacity <? Z.of_nat (length pushed)
  then JS.sliceFrom pushed (- capacity)
  else pushed.

(** The student list a batch has worked on: some answer of Atlas. *)
Definition fetchedList (env : Env) (students : list Student) : Prop :=
  exists attempt t,
    getStudentList env attempt t = Resolved (StudentArray students) \/
    exists one,
      getStudentList env attempt t = Resolved (StudentObject one) /\
      students = [one].

(** No answer of Atlas is a student list. *)
Definition listFailure (env : Env) : Prop :=
  exists attempt t,
    getStudentList env attempt t = Resolved NoStudentData \/
    exists m, getStudentList env attempt t = Rejected m.

(** How a batch started in [s] has ended in [s'] with the run [run]. *)
Definition batchOutcome (env : Env) (s : Scheduler) (runId : Z) (run : Run.t)
    (s' : Scheduler) : Prop :=
  config s' = config s /\ maxLogs s' = maxLogs s /\ maxRuns s' = maxRuns s /\
  isRunning s' = false /\ currentRun s' = Some run /\
  runs s' = archive (maxRuns s) (runs s) run /\
  Run.ended run = true /\
  exists results,
    Forall settledResult results /\
    studentResults s' = storeAll results (studentResults s) /\
    ((Run.status run = run_error /\ listFailure env /\ results = [] /\
      tallied results (newRun runId 0) run /\
      exists new,
        effects s' = effects s ++ new /\
        Forall (retryEvent CallGetStudentList) new) \/
     exists students j,
       fetchedList env students /\
       tallied results (newRun runId (length students)) run /\
       StudentResult.applnID <$> results = omap applnIDOf (take j students) /\
       ((Run.status run = stopped /\ (j < length students)%nat /\
         shouldStop s' = true) \/
        (Run.status run = run_completed /\ j = length students))).

(** ** The cron scheduler and the configuration *)

(** The entries of [this.config] that no run reads, with the provider of
    the verification service; they are passed to the methods that read
    them, and [updateConfig] returns them with the [Config]. *)
Record Settings := {
  cronSchedule : string;
  autoStart : bool;
  provider : string
}.

(** The constructor's settings when no environment variable is set. *)
Definition defaultSettings : Settings := {|
  cronSchedule := "0 */2 * * *";
  autoStart := false;
  provider := "claude"
|}.

(** The argument of [updateConfig]: a key is [None] where [updates[key]] is
    [undefined]; values have the type of the entry they replace.
    [u_autoStart] is a key that is not in the list of allowed keys. *)
Record Updates := {
  u_cronSchedule : option string;
  u_concurrency : option Z;
  u_retryAttempts : option Z;
  u_retryDelayMs : option Z;
  u_delayBetweenStudentsMs : option Z;
  u_delayBetweenDocsMs : option Z;
  u_skipAlreadyVerified : option bool;
  u_autoStart : option bool
}.

(** [for (const key of allowed) if (updates[key] !== undefined)
    this.config[key] = updates[key]], on the two parts of the
    configuration. *)
Definition updatedConfig (updates : Updates) (cfg : Config) : Config := {|
  concurrency := default (concurrency cfg) (u_concurrency updates);
  retryAttempts := default (retryAttempts cfg) (u_retryAttempts updates);
  retryDelayMs := default (retryDelayMs cfg) (u_retryDelayMs updates);
  delayBetweenStudentsMs :=
    default (delayBetweenStudentsMs cfg) (u_delayBetweenStudentsMs updates);
  delayBetweenDocsMs :=
    default (delayBetweenDocsMs cfg) (u_delayBetweenDocsMs updates);
  skipAlreadyVerified :=
    default (skipAlreadyVerified cfg) (u_skipAlreadyVerified updates)
|}.

Definition updatedSettings (updates : Updates) (st : Settings) : Settings := {|
  cronSchedule := default (cronSchedule st) (u_cronSchedule updates);
  autoStart := autoStart st;
  provider := provider st
|}.

(** The [updates] object as logged, keys in the order of the record. *)
Definition renderBool (b : bool) : string := if b then "true" else "false".

Definition renderUpdates (updates : Updates) : list (string * string) :=
  omap id
    [ (fun v => ("cronSchedule", v)) <$> u_cronSchedule updates;
      (fun v => ("concurrency", pretty v)) <$> u_concurrency updates;
      (fun v => ("retryAttempts", pretty v)) <$> u_retryAttempts updates;
      (fun v => ("retryDelayMs", pretty v)) <$> u_retryDelayMs updates;
      (fun v => ("delayBetweenStudentsMs", pretty v)) <$>
        u_delayBetweenStudentsMs updates;
      (fun v => ("delayBetweenDocsMs", pretty v)) <$>
        u_delayBetweenDocsMs updates;
      (fun v => ("skipAlreadyVerified", renderBool v)) <$>
        u_skipAlreadyVerified updates;
      (fun v => ("autoStart", renderBool v)) <$> u_autoStart updates ].

Section WithCron.

(** [cron.validate] of node-cron. *)
Variable validate : string -> bool.

(** [startScheduler()]; [cronJob] is [true] where the source holds the task
    [cron.schedule] returns. *)
Definition startScheduler (st : Settings) : Js unit :=
  job ← gets cronJob;
  if job : bool then log warn "Scheduler already running" None
  else
    let schedule := cronSchedule st in
    if negb (validate schedule) then
      log error ("Invalid cron schedule: " +:+ schedule) None
    else
      modify (set_cronJob true) ;;
      log info ("Scheduler started with cron: " +:+ schedule) None.

(** [updateConfig(updates)]; it returns [this.config]. *)
Definition updateConfig (updates : Updates) (st : Settings)
    : Js (Settings * Config) :=
  let st' := updatedSettings updates st in
  modify (fun s => set_config (updatedConfig updates (config s)) s) ;;
  job ← gets cronJob;
  (if JS.truthy_opt (u_cronSchedule updates) && job
   then stopScheduler ;; startScheduler st'
   else mret tt) ;;
  log info "Configuration updated" (Some (renderUpdates updates)) ;;
  cfg ← gets config;
  mret (st', cfg).

End WithCron.

(** What [getStatus()] returns. *)
Module Status.
Record t := {
  active : bool;
  cronSchedule : string;
  autoStart : bool;
  isRunning : bool;
  provider : string;
  concurrency : Z;
  retryAttempts : Z;
  skipAlreadyVerified : bool;
  currentRun : option Run.t;
  recentRuns : list Run.t
}.
End Status.

(** [getStatus()]; the summary of the current run has no [students]. *)
Definition getStatus (st : Settings) (s : Scheduler) : Status.t := {|
  Status.active := cronJob s;
  Status.cronSchedule := cronSchedule st;
  Status.autoStart := autoStart st;
  Status.isRunning := isRunning s;
  Status.provider := provider st;
  Status.concurrency := concurrency (config s);
  Status.retryAttempts := retryAttempts (config s);
  Status.skipAlreadyVerified := skipAlreadyVerified (config s);
  Status.currentRun := Run.set_students None <$> currentRun s;
  Status.recentRuns := reverse (JS.sliceFrom (runs s) (- 10))
|}.

(** * Proofs *)

(** ** The monad and the frame *)

Lemma bind_unfold {A B} (m : Js A) (f : A -> Js B) s :
  (m ≫= f) s =
  match m s with
  | Returned a s' => f a s'
  | Raised e s' => Raised e s'
  | Diverged => Diverged
  end.
Proof. reflexivity. Qed.

(** Two computations that do the same step by step. *)
Lemma bind_cong {A B} (m m' : Js A) (f f' : A -> Js B) s :
  m s = m' s -> (forall a s1, f a s1 = f' a s1) -> (m ≫= f) s = (m' ≫= f') s.
Proof. intros Hm Hf. rewrite !bind_unfold, Hm. destruct (m' s); auto. Qed.

Ltac solve_frame :=
  unfold frame in *; simpl in *; intuition (auto; congruence).

Lemma frame_refl s : frame s s.
Proof. solve_frame. Qed.

Lemma frame_trans s1 s2 s3 : frame s1 s2 -> frame s2 s3 -> frame s1 s3.
Proof. unfold frame. intros (?&?&?&?&?&?&?) (?&?&?&?&?&?&?). repeat split; try congruence; auto. Qed.

Lemma extends_refl P s : extends P s s.
Proof. exists []. split; [by rewrite app_nil_r | constructor]. Qed.

Lemma extends_trans P s1 s2 s3 :
  extends P s1 s2 -> extends P s2 s3 -> extends P s1 s3.
Proof.
  intros (n1 & E1 & F1) (n2 & E2 & F2). exists (n1 ++ n2). split.
  - by rewrite E2, E1, app_assoc.
  - by apply Forall_app.
Qed.

Lemma evolves_refl P s : evolves P s s.
Proof. split; [apply frame_refl | apply extends_refl]. Qed.

Lemma evolves_trans P s1 s2 s3 :
  evolves P s1 s2 -> evolves P s2 s3 -> evolves P s1 s3.
Proof.
  intros [] []. split; [eapply frame_trans | eapply extends_trans]; eauto.
Qed.

(** A step that leaves the trace alone. *)
Lemma evolves_silent P s s' :
  frame s s' -> effects s' = effects s -> evolves P s s'.
Proof.
  intros ? E. split; [done|]. exists []. by rewrite E, app_nil_r.
Qed.

(** ** Logging *)

Lemma lastN_length {A} n (l : list A) : (length (lastN n l) <= n)%nat.
Proof. unfold lastN. rewrite length_drop. lia. Qed.

Lemma lastN_app_lastN {A} n (l r : list A) :
  lastN n (lastN n l ++ r) = lastN n (l ++ r).
Proof.
  unfold lastN.
  replace (drop (length l - n) l ++ r) with (drop (length l - n) (l ++ r)).
  - rewrite drop_drop. f_equal. rewrite length_drop, !length_app. lia.
  - rewrite drop_app. f_equal.
    replace (length l - n - length l)%nat with 0%nat by lia. done.
Qed.

Lemma sliceFrom_neg {A} (l : list A) (n : Z) :
  1 <= n -> JS.sliceFrom l (- n) = lastN (Z.to_nat n) l.
Proof.
  intros Hn. unfold JS.sliceFrom, JS.relativeIndex, lastN.
  destruct (Z.ltb_spec (- n) 0); [|lia]. f_equal. lia.
Qed.

(** What a bounded buffer keeps after pushing [x], for a capacity that is
    not negative: a suffix that ends with [x]. *)
Lemma pushed_history {A} (l : list A) (x : A) (n : Z) :
  0 <= n ->
  exists k,
    (if n <? Z.of_nat (length (l ++ [x]))
     then JS.sliceFrom (l ++ [x]) (- n) else l ++ [x]) = drop k l ++ [x].
Proof.
  intros Hn. destruct (Z.ltb_spec n (Z.of_nat (length (l ++ [x])))) as [Hlt|_];
    [|by exists 0%nat].
  rewrite length_app in Hlt. simpl in Hlt.
  destruct (Z.eq_dec n 0) as [->|Hne].
  - exists 0%nat. unfold JS.sliceFrom, JS.relativeIndex. simpl (- 0).
    destruct (Z.ltb_spec 0 0); [lia|].
    replace (Z.to_nat (Z.min 0 _)) with 0%nat by lia. done.
  - rewrite sliceFrom_neg by lia. unfold lastN.
    exists (length (l ++ [x]) - Z.to_nat n)%nat.
    rewrite drop_app, length_app. simpl. f_equal.
    replace (length l + 1 - Z.to_nat n - length l)%nat with 0%nat by lia. done.
Qed.

(** With a capacity of at least 1, [log] keeps the last [maxLogs] entries of
    the buffer extended by the new one. *)
Lemma log_logs lvl msg dat s :
  1 <= maxLogs s ->
  exists s', log lvl msg dat s = Returned tt s' /\
    maxLogs s' = maxLogs s /\
    logs s' =
      lastN (Z.to_nat (maxLogs s))
        (logs s ++ [ {| level := lvl; message := msg; data := dat |} ]).
Proof.
  intros Hn. eexists. split; [reflexivity|]. split; [reflexivity|]. simpl.
  destruct (Z.ltb_spec (maxLogs s)
              (Z.of_nat (length (logs s ++ [ {| level := lvl; message := msg; data := dat |} ])))).
  - by apply sliceFrom_neg.
  - unfold lastN.
    replace (_ - _)%nat with 0%nat by lia. done.
Qed.

Lemma logAll_logs entries : forall s,
  1 <= maxLogs s -> Z.of_nat (length (logs s)) <= maxLogs s ->
  exists s', logAll entries s = Returned tt s' /\
    maxLogs s' = maxLogs s /\
    logs s' = lastN (Z.to_nat (maxLogs s)) (logs s ++ entries).
Proof.
  induction entries as [|e rest IH]; intros s Hn Hl.
  - exists s. repeat split. rewrite app_nil_r. unfold lastN.
    replace (_ - _)%nat with 0%nat by lia. done.
  - destruct (log_logs (level e) (message e) (data e) s Hn) as (s1 & E1 & M1 & L1).
    destruct (IH s1) as (s' & E' & M' & L'); [lia | |].
    { rewrite L1, M1. pose proof (lastN_length (Z.to_nat (maxLogs s))
        (logs s ++ [ {| level := level e; message := message e; data := data e |} ])).
      lia. }
    exists s'. split; [|split; [congruence|]].
    + simpl. rewrite bind_unfold, E1. exact E'.
    + rewrite L', M1, L1. destruct e as [lv ms dt]; simpl.
      rewrite lastN_app_lastN, <- app_assoc. done.
Qed.

(** C9. For every capacity N = maxLogs of at least one entry and every N+1
    insertions into a buffer within its capacity, the buffer afterwards is
    exactly the N newest entries in insertion order, the oldest one is not in
    it (entries being told apart by their content), and after any number of
    these insertions the buffer holds at most N entries. *)
Theorem log_buffer_keeps_newest (N : Z) (s : Scheduler) (oldest : LogEntry)
    (newest : list LogEntry) :
  1 <= N -> maxLogs s = N -> Z.of_nat (length (logs s)) <= N ->
  Z.of_nat (length newest) = N ->
  (exists s', logAll (oldest :: newest) s = Returned tt s' /\
     logs s' = newest /\ (oldest ∉ newest -> oldest ∉ logs s')) /\
  (forall k, exists s', logAll (take k (oldest :: newest)) s = Returned tt s' /\
     Z.of_nat (length (logs s')) <= N).
Proof.
  intros HN HM Hl Hlen. split.
  - destruct (logAll_logs (oldest :: newest) s) as (s' & E & _ & L); [lia..|].
    exists s'. split; [done|].
    assert (logs s' = newest) as ->; [|done].
    rewrite L, HM. unfold lastN.
    rewrite length_app. simpl length.
    replace (_ - _)%nat with (length (logs s) + 1)%nat by lia.
    rewrite drop_app.
    rewrite drop_ge by lia.
    replace (_ - _)%nat with 1%nat by lia. done.
  - intros k.
    destruct (logAll_logs (take k (oldest :: newest)) s) as (s' & E & _ & L); [lia..|].
    exists s'. split; [done|]. rewrite L.
    pose proof (lastN_length (Z.to_nat (maxLogs s))
      (logs s ++ take k (oldest :: newest))).
    lia.
Qed.

(** A buffer of capacity 2 receiving three entries. *)
Lemma log_buffer_keeps_newest_example :
  let e := fun m => {| level := info; message := m; data := None |} in
  let s := schedulerWithMaxLogs 2 in
  (exists s', logAll [e "a"; e "b"; e "c"] s = Returned tt s' /\
     logs s' = [e "b"; e "c"] /\ (e "a" ∉ [e "b"; e "c"] -> e "a" ∉ logs s')) /\
  (forall k, exists s', logAll (take k [e "a"; e "b"; e "c"]) s = Returned tt s' /\
     Z.of_nat (length (logs s')) <= 2).
Proof.
  intros e s.
  apply (log_buffer_keeps_newest 2 s (e "a") [e "b"; e "c"]);
    simpl; lia || reflexivity.
Defined.

(** ** Running the primitives *)

Lemma ret_run {A} (a : A) s : mret (M := Js) a s = Returned a s.
Proof. reflexivity. Qed.

Lemma gets_run {A} (f : Scheduler -> A) s : gets f s = Returned (f s) s.
Proof. reflexivity. Qed.

Lemma modify_run f s : modify f s = Returned tt (f s).
Proof. reflexivity. Qed.

Lemma log_run lvl msg dat s :
  log lvl msg dat s = Returned tt (pushLog lvl msg dat s).
Proof. reflexivity. Qed.

Lemma throw_run {A} e s : throw (A := A) e s = Raised e s.
Proof. reflexivity. Qed.

Lemma tryCatch_run {A} (m : Js A) s :
  tryCatch m s =
  match m s with
  | Returned a s' => Returned (inl a) s'
  | Raised e s' => Returned (inr e) s'
  | Diverged => Diverged
  end.
Proof. reflexivity. Qed.

Ltac run :=
  repeat (rewrite ?bind_unfold, ?ret_run, ?gets_run, ?modify_run, ?log_run,
            ?throw_run, ?tryCatch_run; cbv beta iota).

Lemma pushLog_frame lvl msg dat s : frame s (pushLog lvl msg dat s).
Proof. solve_frame. Qed.

Lemma pushLog_effects lvl msg dat s :
  effects (pushLog lvl msg dat s) = effects s.
Proof. reflexivity. Qed.

Lemma pushLog_evolves P lvl msg dat s : evolves P s (pushLog lvl msg dat s).
Proof. apply evolves_silent; [apply pushLog_frame | reflexivity]. Qed.

(** ** Suspensions and remote calls *)

Lemma stopScheduler_returns s :
  exists s', stopScheduler s = Returned tt s' /\
    frame s s' /\ effects s' = effects s.
Proof.
  unfold stopScheduler. run.
  destruct (cronJob s), (isRunning s) eqn:Hr; run; simpl; rewrite ?Hr; run;
    eexists; (split; [reflexivity|]); (split; [solve_frame|reflexivity]).
Qed.

Section Steps.

Variable env : Env.

Lemma suspend_returns s :
  exists s', suspend env s = Returned tt s' /\
    frame s s' /\ effects s' = effects s.
Proof.
  unfold suspend. run.
  destruct (stopRequested env (clock s)).
  - destruct (stopScheduler_returns (tick s)) as (s' & E & F & Ef).
    exists s'. split; [exact E|]. split; [solve_frame|exact Ef].
  - run. eexists. split; [reflexivity|]. split; [solve_frame|reflexivity].
Qed.

Lemma sleep_returns ms s :
  exists s', sleep env ms s = Returned tt s' /\
    frame s s' /\ effects s' = effects s ++ [Slept ms].
Proof.
  unfold sleep. run.
  destruct (suspend_returns (record (Slept ms) s)) as (s' & E & F & Ef).
  exists s'. split; [exact E|]. split; [solve_frame|exact Ef].
Qed.

(** An awaited call resolves or rejects as the collaborator does at the
    instant of the call, and leaves exactly one [Called] in the trace. *)
Lemma await_spec {A} (c : Call) (answer : nat -> Outcome A) s :
  exists s', frame s s' /\ effects s' = effects s ++ [Called c] /\
    await env c answer s =
      match answer (clock s) with
      | Resolved a => Returned a s'
      | Rejected m => Raised (ThrownError m) s'
      end.
Proof.
  unfold await. run.
  destruct (suspend_returns (record (Called c) s)) as (s' & E & F & Ef).
  exists s'. split; [solve_frame|]. split; [exact Ef|].
  rewrite E. by destruct (answer (clock s)).
Qed.

End Steps.

(** ** Retry *)

(** Continuing after a prefix of the computation has run from [s] to [s2]. *)
Lemma settles_from {A} (R : Scheduler -> Scheduler -> Prop) (U U' : Prop)
    (m : Js A) s s2 :
  (forall a b c, R a b -> R b c -> R a c) ->
  R s s2 -> settles R U' m s2 -> (U' -> U) ->
  match m s2 with
  | Returned _ s' => R s s'
  | Raised (ThrownError _) s' => R s s'
  | Raised ThrownUndefined s' => R s s' /\ U
  | Diverged => False
  end.
Proof.
  unfold settles. intros HT H1 H2 HU.
  destruct (m s2) as [a s'|[|msg] s'|]; intuition eauto.
Qed.

Section Retry.

Variable env : Env.
Context {A : Type} (P : Effect -> Prop) (fn : Z -> Js A) (label : string).
Hypothesis fn_settles : forall attempt s, settles (evolves P) False (fn attempt) s.
Hypothesis P_slept : forall ms, P (Slept ms).

Lemma retryLoop_settles fuel : forall attempt lastError s,
  (Z.to_nat (retryAttempts (config s) + 1 - attempt) < fuel)%nat ->
  settles (evolves P)
    (lastError = ThrownUndefined /\ retryAttempts (config s) < attempt)
    (retryLoop env fn label fuel attempt lastError) s.
Proof.
  induction fuel as [|fuel IH]; intros attempt lastError s Hfuel; [lia|].
  unfold settles. simpl retryLoop. run.
  destruct (Z.leb_spec attempt (retryAttempts (config s))) as [Hle|Hgt].
  - run. pose proof (fn_settles attempt s) as Hfn. unfold settles in Hfn.
    destruct (fn attempt s) as [a s1|[|m] s1|]; run; try tauto.
    unfold messageOf. run.
    destruct (nonRetryable (JS.or_else m "")); run.
    + eapply evolves_trans; [exact Hfn | apply pushLog_evolves].
    + assert (Hc : config s1 = config s) by (destruct Hfn as [F _]; solve_frame).
      destruct (Z.ltb_spec attempt (retryAttempts (config s1))) as [Hlt|Hge]; run.
      * match goal with |- context [sleep env ?d ?st] =>
          destruct (sleep_returns env d st) as (s2 & E2 & F2 & Ef2) end.
        rewrite E2. 
        assert (Hev : evolves P s s2).
        { eapply evolves_trans; [exact Hfn|].
          eapply evolves_trans; [apply pushLog_evolves|].
          split; [exact F2|]. eexists. split; [exact Ef2|]. repeat constructor. apply P_slept. }
        eapply settles_from; [apply evolves_trans | exact Hev | apply IH | intros [? _]; discriminate].
        destruct Hev as [F _]. replace (config s2) with (config s) by (symmetry; solve_frame). lia.
      * eapply settles_from; [apply evolves_trans | exact Hfn | apply IH | intros [? _]; discriminate].
        rewrite Hc. lia.
  - run. destruct lastError; [split; [apply evolves_refl | split; [done | lia]] | apply evolves_refl].
Qed.

Lemma withRetry_settles s :
  settles (evolves P) (retryAttempts (config s) < 1)
    (withRetry env fn label) s.
Proof.
  unfold settles, withRetry. run.
  eapply settles_from; [apply evolves_trans | apply evolves_refl | apply retryLoop_settles | tauto].
  lia.
Qed.

End Retry.

Lemma or_else_empty m : JS.or_else m "" = m.
Proof.
  unfold JS.or_else, JS.truthy. by case_bool_decide.
Qed.

(** A thunk whose first invocation throws an [Error] that is not retried:
    [withRetry] logs it and rethrows it, and does nothing else. *)
Lemma withRetry_non_retryable env {A} (fn : Z -> Js A) label s s1 m :
  1 <= retryAttempts (config s) ->
  fn 1 s = Raised (ThrownError m) s1 ->
  nonRetryable m = true ->
  withRetry env fn label s =
    Raised (ThrownError m)
      (pushLog error (label +:+ " failed with non-retryable error: " +:+ m)
         None s1).
Proof.
  intros Hn Hfn Hm. unfold withRetry. run. simpl retryLoop. run.
  destruct (Z.leb_spec 1 (retryAttempts (config s))); [|lia].
  run. rewrite Hfn. unfold messageOf. run. rewrite or_else_empty, Hm. by run.
Qed.

Section Exhaustion.

Variable env : Env.
Context {A : Type} (c : Call) (answer : Z -> nat -> Outcome A) (label : string).
Hypothesis always_fails : forall attempt t,
  exists m, answer attempt t = Rejected m /\ nonRetryable m = false.

Lemma retryLoop_exhausts k : forall attempt lastError s fuel,
  attempt + Z.of_nat k = retryAttempts (config s) ->
  (S k < fuel)%nat ->
  exists m t s',
    retryLoop env (fun a => await env c (answer a)) label fuel attempt
      lastError s = Raised (ThrownError m) s' /\
    answer (retryAttempts (config s)) t = Rejected m /\
    frame s s' /\
    effects s' =
      effects s ++
      exhaustedTrace c (retryDelayMs (config s)) (retryAttempts (config s))
        attempt (S k).
Proof.
  induction k as [|k IH]; intros attempt lastError s fuel Hk Hfuel.
  - destruct fuel as [|[|fuel]]; [lia..|].
    simpl retryLoop. run.
    destruct (Z.leb_spec attempt (retryAttempts (config s))); [|lia]. run.
    destruct (await_spec env c (answer attempt) s) as (s1 & F1 & E1 & R1).
    destruct (always_fails attempt (clock s)) as (m & Hm & Hr).
    rewrite R1, Hm. unfold messageOf. run. rewrite or_else_empty, Hr. run.
    assert (Hc : config s1 = config s) by solve_frame. rewrite !Hc.
    destruct (Z.ltb_spec attempt (retryAttempts (config s))); [lia|]. run.
    rewrite Hc.
    destruct (Z.leb_spec (attempt + 1) (retryAttempts (config s))); [lia|]. run.
    exists m, (clock s), s1. split; [done|]. split; [by rewrite <- Hk, Z.add_0_r|].
    split; [done|]. rewrite E1. simpl.
    destruct (Z.ltb_spec attempt (retryAttempts (config s))); [lia|]. done.
  - destruct fuel as [|fuel]; [lia|].
    simpl retryLoop. run.
    destruct (Z.leb_spec attempt (retryAttempts (config s))); [|lia]. run.
    destruct (await_spec env c (answer attempt) s) as (s1 & F1 & E1 & R1).
    destruct (always_fails attempt (clock s)) as (m & Hm & Hr).
    rewrite R1, Hm. unfold messageOf. run. rewrite or_else_empty, Hr. run.
    assert (Hc : config s1 = config s) by solve_frame. rewrite !Hc.
    destruct (Z.ltb_spec attempt (retryAttempts (config s))); [|lia]. run.
    match goal with |- context [sleep env ?d ?st] =>
      destruct (sleep_returns env d st) as (s2 & E2 & F2 & Ef2) end.
    rewrite E2.
    assert (Hc2 : config s2 = config s).
    { pose proof (pushLog_frame warn "" None s1). solve_frame. }
    destruct (IH (attempt + 1) (ThrownError m) s2 fuel) as (m' & t & s' & R & Hlast & F & Ef).
    { rewrite Hc2. lia. }
    { lia. }
    exists m', t, s'. split; [exact R|]. split; [by rewrite <- Hc2|].
    split.
    { eapply frame_trans; [exact F1|]. eapply frame_trans; [|exact F].
      eapply frame_trans; [|exact F2]. apply pushLog_frame. }
    rewrite Ef, Ef2, pushLog_effects, E1, Hc2.
    change (exhaustedTrace c (retryDelayMs (config s)) (retryAttempts (config s))
              attempt (S (S k)))
      with (Called c ::
            (if attempt <? retryAttempts (config s)
             then [Slept (retryDelayMs (config s) * 2 ^ (attempt - 1))] else []) ++
            exhaustedTrace c (retryDelayMs (config s)) (retryAttempts (config s))
              (attempt + 1) (S k)).
    destruct (Z.ltb_spec attempt (retryAttempts (config s))); [|lia].
    by rewrite <- !app_assoc.
Qed.

End Exhaustion.

Lemma attemptsMade_exhaustedTrace c base final k : forall attempt,
  attemptsMade (exhaustedTrace c base final attempt k) = k.
Proof.
  unfold attemptsMade.
  induction k as [|k IH]; intros attempt; [done|]. simpl.
  destruct (attempt <? final); simpl; by rewrite IH.
Qed.

Lemma delaysOf_exhaustedTrace c base final k : forall attempt,
  attempt + Z.of_nat k = final + 1 ->
  delaysOf (exhaustedTrace c base final attempt k) =
  (fun j => base * 2 ^ (j - 1)) <$> seqZ attempt (Z.of_nat k - 1).
Proof.
  unfold delaysOf.
  induction k as [|k IH]; intros attempt Hk; [done|]. simpl exhaustedTrace.
  destruct (Z.ltb_spec attempt final).
  - simpl. rewrite IH by lia.
    rewrite (seqZ_cons attempt) by lia. simpl. do 3 f_equal; lia.
  - assert (k = 0%nat) as -> by lia. done.
Qed.

(** C5. An operation (a remote call) every invocation of which throws a
    retryable error, under [retryAttempts >= 1]: [withRetry] throws the error
    of the last invocation, after exactly [retryAttempts] invocations, having
    slept [retryDelayMs * 2^(attempt-1)] after each failed attempt but the
    last. *)
Theorem withRetry_exhausts_attempts env {A} (c : Call)
    (answer : Z -> nat -> Outcome A) (label : string) (s : Scheduler) :
  1 <= retryAttempts (config s) ->
  (forall attempt t,
     exists m, answer attempt t = Rejected m /\ nonRetryable m = false) ->
  exists m t s' new,
    withRetry env (fun attempt => await env c (answer attempt)) label s =
      Raised (ThrownError m) s' /\
    answer (retryAttempts (config s)) t = Rejected m /\
    effects s' = effects s ++ new /\
    new = exhaustedTrace c (retryDelayMs (config s)) (retryAttempts (config s))
            1 (Z.to_nat (retryAttempts (config s))) /\
    Z.of_nat (attemptsMade new) = retryAttempts (config s) /\
    delaysOf new =
      (fun attempt => retryDelayMs (config s) * 2 ^ (attempt - 1)) <$>
      seqZ 1 (retryAttempts (config s) - 1).
Proof.
  intros Hn Hfail. unfold withRetry. run.
  destruct (retryLoop_exhausts env c answer label Hfail
              (Z.to_nat (retryAttempts (config s)) - 1) 1 ThrownUndefined s
              (S (Z.to_nat (retryAttempts (config s)))))
    as (m & t & s' & R & Hlast & F & Ef); [lia..|].
  replace (S (Z.to_nat (retryAttempts (config s)) - 1))
    with (Z.to_nat (retryAttempts (config s))) in Ef by lia.
  eexists m, t, s', _. split; [exact R|]. split; [exact Hlast|].
  split; [exact Ef|]. split; [reflexivity|]. split.
  - rewrite attemptsMade_exhaustedTrace. lia.
  - rewrite delaysOf_exhaustedTrace by lia. f_equal. f_equal. lia.
Qed.

(** Fetching from an unreachable Atlas, three attempts allowed. *)
Lemma withRetry_exhausts_attempts_example :
  let env := unreachableEnv "socket hang up" in
  let s := newScheduler in
  exists m t s' new,
    withRetry env
      (fun attempt =>
         await env (CallGetDocumentList "S1") (getDocumentList env "S1" attempt))
      "Fetch docs for S1" s = Raised (ThrownError m) s' /\
    getDocumentList env "S1" (retryAttempts (config s)) t = Rejected m /\
    effects s' = effects s ++ new /\
    new = exhaustedTrace (CallGetDocumentList "S1") (retryDelayMs (config s))
            (retryAttempts (config s)) 1 (Z.to_nat (retryAttempts (config s))) /\
    Z.of_nat (attemptsMade new) = retryAttempts (config s) /\
    delaysOf new =
      (fun attempt => retryDelayMs (config s) * 2 ^ (attempt - 1)) <$>
      seqZ 1 (retryAttempts (config s) - 1).
Proof.
  intros env s.
  apply (withRetry_exhausts_attempts env (CallGetDocumentList "S1")
           (getDocumentList env "S1") "Fetch docs for S1" s).
  - simpl. lia.
  - intros attempt t. eexists. split; [reflexivity | vm_compute; reflexivity].
Defined.

(** C6. An operation (a remote call) whose first invocation throws an error
    with an authentication, quota or rate-limit signature, under
    [retryAttempts >= 1]: [withRetry] rethrows that error after this one
    invocation, without sleeping, after one [log] at error level, which is
    then the newest entry of the log buffer. *)
Theorem withRetry_fails_fast env {A} (c : Call)
    (answer : Z -> nat -> Outcome A) (label : string) (s : Scheduler)
    (m : string) :
  1 <= retryAttempts (config s) ->
  answer 1 (clock s) = Rejected m ->
  nonRetryable m = true ->
  exists s1 s' new,
    await env c (answer 1) s = Raised (ThrownError m) s1 /\
    log error (label +:+ " failed with non-retryable error: " +:+ m) None s1 =
      Returned tt s' /\
    withRetry env (fun attempt => await env c (answer attempt)) label s =
      Raised (ThrownError m) s' /\
    effects s' = effects s ++ new /\
    new = [Called c] /\ attemptsMade new = 1%nat /\ delaysOf new = [] /\
    (0 <= maxLogs s ->
     last (logs s') =
       Some {| level := error;
               message := label +:+ " failed with non-retryable error: " +:+ m;
               data := None |}).
Proof.
  intros Hn Hfirst Hm.
  destruct (await_spec env c (answer 1) s) as (s1 & F1 & E1 & R1).
  rewrite Hfirst in R1.
  eexists s1, _, [Called c]. split; [exact R1|]. split; [apply log_run|].
  split; [by apply withRetry_non_retryable|].
  rewrite pushLog_effects. do 4 (split; [done|]).
  intros Hcap. unfold pushLog. simpl.
  assert (maxLogs s1 = maxLogs s) as -> by solve_frame.
  match goal with |- last (if _ <? Z.of_nat (length (?l ++ [?x])) then _ else _) = _ =>
    destruct (pushed_history l x (maxLogs s) Hcap) as (k & ->) end.
  apply last_snoc.
Qed.

(** Fetching with a token Atlas refuses. *)
Lemma withRetry_fails_fast_example :
  let env := unreachableEnv "Request failed with status code 401" in
  let s := newScheduler in
  let m := "Request failed with status code 401" in
  exists s1 s' new,
    await env (CallGetDocumentList "S1") (getDocumentList env "S1" 1) s =
      Raised (ThrownError m) s1 /\
    log error ("Fetch docs for S1" +:+ " failed with non-retryable error: " +:+ m)
      None s1 = Returned tt s' /\
    withRetry env
      (fun attempt =>
         await env (CallGetDocumentList "S1") (getDocumentList env "S1" attempt))
      "Fetch docs for S1" s = Raised (ThrownError m) s' /\
    effects s' = effects s ++ new /\
    new = [Called (CallGetDocumentList "S1")] /\
    attemptsMade new = 1%nat /\ delaysOf new = [] /\
    (0 <= maxLogs s ->
     last (logs s') =
       Some {| level := error;
               message :=
                 "Fetch docs for S1" +:+ " failed with non-retryable error: "
                 +:+ m;
               data := None |}).
Proof.
  intros env s m.
  apply (withRetry_fails_fast env (CallGetDocumentList "S1")
           (getDocumentList env "S1") "Fetch docs for S1" s m).
  - simpl. lia.
  - reflexivity.
  - vm_compute. reflexivity.
Defined.

(** ** Chunking *)

Lemma slice_chunk {A} (arr : list A) (k : nat) (size : Z) :
  (k < length arr)%nat -> 1 <= size ->
  JS.slice arr (Z.of_nat k) (Z.of_nat k + size) =
  take (Z.to_nat size) (drop k arr).
Proof.
  intros Hk Hs. unfold JS.slice, JS.relativeIndex.
  destruct (Z.ltb_spec (Z.of_nat k) 0); [lia|].
  destruct (Z.ltb_spec (Z.of_nat k + size) 0); [lia|].
  replace (Z.to_nat (Z.min (Z.of_nat k) (Z.of_nat (length arr)))) with k by lia.
  destruct (Z.le_gt_cases (Z.of_nat k + size) (Z.of_nat (length arr))).
  - f_equal. lia.
  - rewrite !take_ge; [done | rewrite length_drop; lia..].
Qed.

Lemma chunkLoop_spec {A} (arr : list A) (size : Z) (Hs : 1 <= size) fuel :
  forall (k : nat) (acc : list (list A)),
  (length arr - k < fuel)%nat ->
  exists rest,
    chunkLoop fuel arr size (Z.of_nat k) acc = Some (acc ++ rest) /\
    concat rest = drop k arr /\
    Forall (fun c => (1 <= length c)%nat /\ Z.of_nat (length c) <= size) rest.
Proof.
  induction fuel as [|fuel IH]; intros k acc Hfuel; [lia|].
  simpl. destruct (Z.ltb_spec (Z.of_nat k) (Z.of_nat (length arr))) as [Hlt|Hge].
  - rewrite slice_chunk by lia.
    replace (Z.of_nat k + size) with (Z.of_nat (k + Z.to_nat size)) by lia.
    destruct (IH (k + Z.to_nat size)%nat
                (acc ++ [take (Z.to_nat size) (drop k arr)]))
      as (rest & E & Hc & Hf); [lia|].
    exists (take (Z.to_nat size) (drop k arr) :: rest).
    split; [by rewrite E, <- app_assoc|]. split.
    + simpl. rewrite Hc, <- drop_drop. apply take_drop.
    + constructor; [|done]. rewrite length_take, length_drop. lia.
  - exists []. rewrite app_nil_r. split; [done|]. split; [|constructor].
    rewrite drop_ge by lia. done.
Qed.

(** For a size of at least 1, [chunkArray] returns consecutive non-empty
    chunks of at most [size] elements whose concatenation is the array. *)
Lemma chunkArray_spec {A} (arr : list A) (size : Z) :
  1 <= size ->
  exists chunks,
    chunkArray arr size = Some chunks /\
    concat chunks = arr /\
    Forall (fun c => (1 <= length c)%nat /\ Z.of_nat (length c) <= size) chunks.
Proof.
  intros Hs. unfold chunkArray.
  destruct (chunkLoop_spec arr size Hs (S (length arr)) 0 []) as (rest & E & Hc & Hf);
    [lia|].
  exists rest. split; [exact E|]. by rewrite Hc.
Qed.

(** With a size below 1 the loop of [chunkArray] never leaves a non-empty
    array: whatever the number of iterations granted, it has not ended. *)
Lemma chunkLoop_diverges {A} (arr : list A) (size : Z) fuel :
  size <= 0 -> arr <> [] ->
  forall i acc, i <= 0 -> chunkLoop fuel arr size i acc = None.
Proof.
  intros Hs Harr. induction fuel as [|fuel IH]; intros i acc Hi; [done|].
  simpl. destruct (Z.ltb_spec i (Z.of_nat (length arr))) as [_|Hge].
  - apply IH. lia.
  - destruct arr; [done|]. simpl in Hge. lia.
Qed.

(** Whatever [chunkArray] returns partitions the array. *)
Lemma chunkArray_concat {A} (arr : list A) (size : Z) chunks :
  chunkArray arr size = Some chunks -> concat chunks = arr.
Proof.
  intros E. destruct (Z.le_gt_cases 1 size) as [Hs|Hs].
  - destruct (chunkArray_spec arr size Hs) as (c & E' & Hc & _). congruence.
  - destruct arr as [|a arr]; [by inversion E|].
    unfold chunkArray in E. rewrite chunkLoop_diverges in E; [done|lia|done|lia].
Qed.

(** ** One document *)

Lemma truthy_spec s : JS.truthy s = negb (bool_decide (s = "")).
Proof. reflexivity. Qed.

(** The guard of [verifyDocument] is the negation of the filter of
    [uploadedDocs]. *)
Lemma noFile_hasFile doc : noFile doc = negb (hasFile doc).
Proof.
  unfold noFile, hasFile. rewrite truthy_spec.
  destruct (JS.truthy_opt (Doc.file_url doc)); simpl; [|done].
  by rewrite negb_involutive.
Qed.

Lemma hasFile_url doc :
  hasFile doc = true ->
  urlPresent (default "" (Doc.file_url doc)) = true.
Proof.
  unfold hasFile, urlPresent, trimmed.
  destruct (Doc.file_url doc) as [u|]; simpl; [done|]. intros. discriminate.
Qed.

Section Subject.

Variable env : Env.

Lemma downloadAndVerify_settles doc attempt s :
  hasFile doc = true ->
  settles (evolves taskStep) False (downloadAndVerify env doc attempt) s.
Proof.
  intros Hf. unfold settles, downloadAndVerify. run.
  match goal with |- context [await env ?c ?a s] =>
    destruct (await_spec env c a s) as (s1 & F1 & E1 & R1) end.
  assert (H1 : evolves taskStep s s1).
  { split; [done|]. eexists. split; [exact E1|]. repeat constructor.
    simpl. by apply hasFile_url. }
  rewrite R1. destruct (downloadDocument env _ attempt (clock s)) as [d|m]; [|exact H1].
  match goal with |- context [await env ?c ?a s1] =>
    destruct (await_spec env c a s1) as (s2 & F2 & E2 & R2) end.
  assert (H2 : evolves taskStep s s2).
  { eapply evolves_trans; [exact H1|]. split; [done|]. eexists. split; [exact E2|].
    by repeat constructor. }
  rewrite R2. by destruct (verify env _ _ attempt (clock s1)).
Qed.

Lemma verifyDocument_settles doc s :
  settles (evolves taskStep) (retryAttempts (config s) < 1)
    (verifyDocument env doc) s.
Proof.
  unfold verifyDocument. rewrite noFile_hasFile.
  destruct (hasFile doc) eqn:Hf; simpl negb; cbv iota.
  - apply withRetry_settles.
    + intros. by apply downloadAndVerify_settles.
    + intros. by split.
  - unfold settles. run. apply pushLog_evolves.
Qed.

(** A document without a file is answered by [verifyDocument] itself, with
    the skip verdict and without any remote call. *)
Lemma verifyDocument_noFile doc s :
  hasFile doc = false ->
  exists s', verifyDocument env doc s = Returned skipVerification s' /\
    effects s' = effects s /\ frame s s'.
Proof.
  intros Hf. unfold verifyDocument. rewrite noFile_hasFile, Hf. simpl negb.
  cbv iota. run. eexists. split; [reflexivity|].
  split; [reflexivity | apply pushLog_frame].
Qed.

End Subject.

(** ** Invariants *)

Lemma keeps_ret {A} I (a : A) : keeps I (mret a).
Proof. by intros s Hs. Qed.

Lemma keeps_bind {A B} I (m : Js A) (f : A -> Js B) :
  keeps I m -> (forall a, keeps I (f a)) -> keeps I (m ≫= f).
Proof.
  intros Hm Hf s Hs. rewrite bind_unfold. specialize (Hm s Hs).
  destruct (m s) as [a s1|e s1|]; [by apply Hf | done..].
Qed.

Lemma keeps_gets {A} I (f : Scheduler -> A) : keeps I (gets f).
Proof. by intros s Hs. Qed.

Lemma keeps_throw {A} I e : keeps I (throw (A := A) e).
Proof. by intros s Hs. Qed.

Lemma keeps_diverge {A} I : keeps I (diverge (A := A)).
Proof. by intros s Hs. Qed.

Lemma keeps_modify I f : (forall s, I s -> I (f s)) -> keeps I (modify f).
Proof. intros Hf s Hs. by apply Hf. Qed.

Lemma keeps_tryCatch {A} I (m : Js A) : keeps I m -> keeps I (tryCatch m).
Proof.
  intros Hm s Hs. rewrite tryCatch_run. specialize (Hm s Hs).
  by destruct (m s).
Qed.

Lemma keeps_messageOf I err : keeps I (messageOf err).
Proof. destruct err; [apply keeps_throw | apply keeps_ret]. Qed.

Section Undisturbed.

Variable env : Env.
Variable allowed : Effect -> Prop.
Variable I : Scheduler -> Prop.
Hypothesis HI : undisturbed env allowed I.

Lemma keeps_log lvl msg dat : keeps I (log lvl msg dat).
Proof. apply keeps_modify. intros s. apply HI. Qed.

Lemma keeps_record e : allowed e -> keeps I (modify (record e)).
Proof. intros He. apply keeps_modify. intros s. by apply HI. Qed.

Lemma keeps_stopScheduler t :
  stopRequested env t = true -> keeps I stopScheduler.
Proof.
  intros Ht. unfold stopScheduler.
  apply keeps_bind; [apply keeps_gets|]. intros job. apply keeps_bind.
  - destruct job; [|apply keeps_ret].
    apply keeps_bind; [|intros; apply keeps_log].
    apply keeps_modify. intros s Hs. by eapply HI.
  - intros _. apply keeps_bind; [apply keeps_gets|]. intros active.
    destruct active; [|apply keeps_ret].
    apply keeps_bind; [|intros; apply keeps_log].
    apply keeps_modify. intros s Hs. by eapply HI.
Qed.

Lemma keeps_suspend : keeps I (suspend env).
Proof.
  unfold suspend. apply keeps_bind; [apply keeps_gets|]. intros t.
  apply keeps_bind; [apply keeps_modify; intros s; apply HI|]. intros _.
  destruct (stopRequested env t) eqn:Ht; [|apply keeps_ret].
  by apply (keeps_stopScheduler t).
Qed.

Lemma keeps_sleep ms : allowed (Slept ms) -> keeps I (sleep env ms).
Proof.
  intros Ha. unfold sleep. apply keeps_bind; [by apply keeps_record|].
  intros _. apply keeps_suspend.
Qed.

Lemma keeps_await {A} c (answer : nat -> Outcome A) :
  allowed (Called c) -> keeps I (await env c answer).
Proof.
  intros Ha. unfold await. apply keeps_bind; [apply keeps_gets|]. intros t.
  apply keeps_bind; [by apply keeps_record|]. intros _.
  apply keeps_bind; [apply keeps_suspend|]. intros _.
  destruct (answer t); [apply keeps_ret | apply keeps_throw].
Qed.

Section Slept.

Hypothesis slept_allowed : forall ms, allowed (Slept ms).

Lemma keeps_retryLoop {A} (fn : Z -> Js A) label fuel :
  (forall attempt, keeps I (fn attempt)) ->
  forall attempt lastError, keeps I (retryLoop env fn label fuel attempt lastError).
Proof.
  intros Hfn. induction fuel as [|fuel IH]; intros attempt lastError;
    [apply keeps_diverge|].
  simpl retryLoop. apply keeps_bind; [apply keeps_gets|]. intros cfg.
  destruct (attempt <=? retryAttempts cfg); [|apply keeps_throw].
  apply keeps_bind; [apply keeps_tryCatch, Hfn|]. intros [v|err];
    [apply keeps_ret|].
  apply keeps_bind; [apply keeps_messageOf|]. intros m.
  destruct (nonRetryable (JS.or_else m "")).
  - apply keeps_bind; [apply keeps_log | intros; apply keeps_throw].
  - apply keeps_bind; [apply keeps_gets|]. intros cfg'.
    apply keeps_bind; [|intros; apply IH].
    destruct (attempt <? retryAttempts cfg'); [|apply keeps_ret].
    apply keeps_bind; [apply keeps_log | intros; by apply keeps_sleep].
Qed.

Lemma keeps_withRetry {A} (fn : Z -> Js A) label :
  (forall attempt, keeps I (fn attempt)) -> keeps I (withRetry env fn label).
Proof.
  intros Hfn. unfold withRetry. apply keeps_bind; [apply keeps_gets|].
  intros cfg. by apply keeps_retryLoop.
Qed.

Lemma keeps_retried {A} c (answer : Z -> nat -> Outcome A) label :
  allowed (Called c) ->
  keeps I (withRetry env (fun attempt => await env c (answer attempt)) label).
Proof. intros Ha. apply keeps_withRetry. intros. by apply keeps_await. Qed.

End Slept.

End Undisturbed.

(** ** Instances *)

Lemma undisturbed_and env A (I J : Scheduler -> Prop) :
  undisturbed env A I -> undisturbed env A J ->
  undisturbed env A (fun s => I s /\ J s).
Proof.
  intros (I1 & I2 & I3 & I4) (J1 & J2 & J3 & J4).
  split; [intros s []; eauto|]. split; [intros e s ? []; eauto|].
  split; [intros l m d s []; eauto|].
  intros t s Ht [Hi Hj].
  destruct (I4 t s Ht Hi), (J4 t s Ht Hj). eauto.
Qed.

(** The trace grows from [base] by allowed events only. *)
Lemma undisturbed_trace env (P : Effect -> Prop) base :
  undisturbed env P (fun s => exists new, effects s = base ++ new /\ Forall P new).
Proof.
  split; [done|]. split; [|split; [done|]].
  - intros e s He (new & E & F). exists (new ++ [e]). simpl.
    rewrite E, <- app_assoc. split; [done|]. apply Forall_app. by repeat constructor.
  - intros t s _ H. by split.
Qed.

Lemma undisturbed_logBounded env : undisturbed env (fun _ => True) logBounded.
Proof.
  split; [done|]. split; [done|]. split; [|done].
  intros lvl msg dat s [Hcap Hlen]. unfold logBounded.
  destruct (log_logs lvl msg dat s Hcap) as (s' & E & M & L).
  rewrite log_run in E. injection E as <-. rewrite M, L. split; [done|].
  pose proof (lastN_length (Z.to_nat (maxLogs s))
    (logs s ++ [ {| level := lvl; message := msg; data := dat |} ])). lia.
Qed.

Lemma undisturbed_results env (m : gmap string StudentResult.t) :
  undisturbed env (fun _ => True) (fun s => studentResults s = m).
Proof. by repeat split. Qed.

Lemma undisturbed_weaken env (P Q : Effect -> Prop) I :
  (forall e, P e -> Q e) -> undisturbed env Q I -> undisturbed env P I.
Proof.
  intros HPQ (H1 & H2 & H3 & H4). split; [done|]. split; [|by split].
  intros e s He. apply H2. by apply HPQ.
Qed.

Lemma undisturbed_config env P cfg :
  undisturbed env P (fun s => config s = cfg).
Proof. by repeat split. Qed.

Lemma undisturbed_frame env P s0 : undisturbed env P (frame s0).
Proof.
  split; [intros s; solve_frame|]. split; [intros e s _; solve_frame|].
  split; [intros lvl msg dat s; solve_frame|].
  intros t s _ H. split; solve_frame.
Qed.

(** ** Promises *)

Section Quiet.

Variable env : Env.

Lemma quiet_refl s : quiet env s s.
Proof. by intros I _ H. Qed.

Lemma quiet_trans s1 s2 s3 :
  quiet env s1 s2 -> quiet env s2 s3 -> quiet env s1 s3.
Proof. intros H1 H2 I HI Hs. by apply H2, H1. Qed.

Lemma quiet_config s s' : quiet env s s' -> config s' = config s.
Proof. intros H. by apply (H _ (undisturbed_config env _ (config s))). Qed.

Lemma quiet_frame s s' : quiet env s s' -> frame s s'.
Proof. intros H. apply (H _ (undisturbed_frame env _ s)), frame_refl. Qed.

Lemma quiet_effects s s' :
  quiet env s s' ->
  exists new, effects s' = effects s ++ new /\ Forall documentStep new.
Proof.
  intros H. apply (H _ (undisturbed_trace env documentStep (effects s))).
  exists []. by rewrite app_nil_r.
Qed.

(** A property that the events of the pool do not disturb is kept. *)
Lemma quiet_keeps (allowed : Effect -> Prop) I s s' :
  undisturbed env allowed I -> (forall e, documentStep e -> allowed e) ->
  quiet env s s' -> I s -> I s'.
Proof. intros HI Ha H. apply H. by eapply undisturbed_weaken. Qed.

Lemma quiet_of_keeps {A} (m : Js A) s :
  (forall I, undisturbed env documentStep I -> keeps I m) ->
  match m s with
  | Returned _ s' | Raised _ s' => quiet env s s'
  | Diverged => True
  end.
Proof.
  intros H. destruct (m s) as [a s'|e s'|] eqn:E; [| |done];
    intros I HI Hs; specialize (H I HI s Hs); by rewrite E in H.
Qed.

Lemma suspend_quiet s :
  exists s', suspend env s = Returned tt s' /\ quiet env s s'.
Proof.
  destruct (suspend_returns env s) as (s' & E & _). exists s'. split; [done|].
  pose proof (quiet_of_keeps (suspend env) s) as H. rewrite E in H.
  apply H. intros I HI. by eapply keeps_suspend.
Qed.

(** *** Steady statements *)

Variable cfg : Config.

Lemma steady_keeps {B} (m : Js B) :
  (forall s, m s <> Diverged) ->
  (forall I, undisturbed env documentStep I -> keeps I m) ->
  steady env cfg m.
Proof.
  intros Hend Hk s _. pose proof (quiet_of_keeps m s Hk) as H.
  specialize (Hend s). by destruct (m s).
Qed.

Lemma steady_gets {B} (f : Scheduler -> B) : steady env cfg (gets f).
Proof. apply steady_keeps; [done|]. intros. apply keeps_gets. Qed.

Lemma steady_log lvl msg dat : steady env cfg (log lvl msg dat).
Proof. apply steady_keeps; [done|]. intros. by eapply keeps_log. Qed.

Lemma steady_record e :
  documentStep e -> steady env cfg (modify (record e)).
Proof. intros He. apply steady_keeps; [done|]. intros. by eapply keeps_record. Qed.

Lemma steady_messageOf err : steady env cfg (messageOf err).
Proof.
  apply steady_keeps; [by destruct err|]. intros. apply keeps_messageOf.
Qed.

Lemma steady_tryCatch {B} (m : Js B) :
  steady env cfg m -> steady env cfg (tryCatch m).
Proof.
  intros H s Hs. specialize (H s Hs). rewrite tryCatch_run. by destruct (m s).
Qed.

(** *** Safe functions *)

Lemma safe_mono {A} n n' (f : Async.t A) :
  (n <= n')%nat -> safe env cfg n f -> safe env cfg n' f.
Proof.
  intros Hle H. revert n' Hle.
  induction H as [n a|n e|n B m k Hm Hk IH|n k Hk IH]; intros n' Hle.
  - constructor.
  - constructor.
  - constructor; [done|]. intros s b s' Hs E. by eapply IH.
  - destruct n' as [|n']; [lia|]. constructor. apply IH. lia.
Qed.

Lemma safe_bind {A B} n n' (m : Async.t A) (f : A -> Async.t B) :
  safe env cfg n m -> (forall a, safe env cfg n' (f a)) ->
  safe env cfg (n + n') (m ≫= f).
Proof.
  intros H Hf.
  induction H as [n a|n e|n C m k Hm Hk IH|n k Hk IH].
  - apply (safe_mono n'); [lia|]. apply Hf.
  - constructor.
  - apply safe_Sync; [done|]. intros s b s' Hs E. by eapply IH.
  - apply (safe_Await env cfg (n + n')). exact IH.
Qed.

Lemma safe_catch {A} n (m : Async.t A) :
  safe env cfg n m -> safe env cfg n (Async.catch m).
Proof.
  induction 1 as [n a|n e|n C m k Hm Hk IH|n k Hk IH].
  - constructor.
  - constructor.
  - apply safe_Sync; [by apply steady_tryCatch|].
    intros s r s' Hs E. rewrite tryCatch_run in E.
    destruct (m s) as [b s1|e s1|] eqn:Em; [| |done].
    + injection E as <- <-. by eapply IH.
    + injection E as <- <-. constructor.
  - by constructor.
Qed.

(** Synchronous statements followed by [f]. *)
Lemma safe_lift {A B} n (m : Js B) (f : B -> Async.t A) :
  steady env cfg m ->
  (forall s b s', config s = cfg -> m s = Returned b s' ->
     safe env cfg n (f b)) ->
  safe env cfg n (Async.lift m ≫= f).
Proof. intros Hm Hf. by apply safe_Sync. Qed.

Lemma safe_yield {A} n (f : Async.t A) :
  safe env cfg n f -> safe env cfg (S n) (Async.yield ;; f).
Proof. intros H. by apply safe_Await. Qed.

Lemma awaitTask_safe {A} c (answer : nat -> Outcome A) :
  documentStep (Called c) -> safe env cfg 1 (awaitTask c answer).
Proof.
  intros Hc. unfold awaitTask.
  apply safe_lift; [apply steady_gets|]. intros s t s' _ _.
  apply safe_lift; [by apply steady_record|]. intros _ _ _ _ _.
  apply safe_yield. destruct (answer t); constructor.
Qed.

Lemma sleepTask_safe ms : safe env cfg 1 (sleepTask ms).
Proof.
  unfold sleepTask. apply safe_lift; [by apply steady_record|].
  intros _ _ _ _ _. apply (safe_Await env cfg 0). constructor.
Qed.

Lemma retryLoopTask_safe {A} (fn : Z -> Async.t A) label fuel :
  (forall attempt, safe env cfg 2 (fn attempt)) ->
  forall attempt lastError,
  (Z.to_nat (retryAttempts cfg + 1 - attempt) < fuel)%nat ->
  safe env cfg (3 * Z.to_nat (retryAttempts cfg + 1 - attempt))
    (retryLoopTask fn label fuel attempt lastError).
Proof.
  intros Hfn. induction fuel as [|fuel IH]; intros attempt lastError Hfuel; [lia|].
  cbn [retryLoopTask].
  apply safe_lift; [apply steady_gets|]. intros s c s' Hs E.
  rewrite gets_run in E. injection E as <- <-. rewrite Hs.
  destruct (Z.leb_spec attempt (retryAttempts cfg)) as [Hle|Hgt]; [|constructor].
  replace (3 * Z.to_nat (retryAttempts cfg + 1 - attempt))%nat
    with (2 + (1 + 3 * Z.to_nat (retryAttempts cfg + 1 - (attempt + 1))))%nat by lia.
  apply safe_bind; [apply safe_catch, Hfn|]. intros [v|err]; [constructor|].
  apply safe_lift; [apply steady_messageOf|]. intros s1 m s1' _ _.
  destruct (nonRetryable (JS.or_else m "")).
  { apply safe_lift; [apply steady_log|]. intros. constructor. }
  apply safe_lift; [apply steady_gets|]. intros s2 c2 s2' Hs2 E2.
  rewrite gets_run in E2. injection E2 as <- <-. rewrite Hs2.
  apply safe_bind; [|intros _; apply IH; lia].
  destruct (attempt <? retryAttempts cfg); [|constructor].
  apply safe_lift; [apply steady_log|]. intros. apply sleepTask_safe.
Qed.

Lemma withRetryTask_safe {A} (fn : Z -> Async.t A) label :
  (forall attempt, safe env cfg 2 (fn attempt)) ->
  safe env cfg (3 * Z.to_nat (retryAttempts cfg)) (withRetryTask fn label).
Proof.
  intros Hfn. unfold withRetryTask.
  apply safe_lift; [apply steady_gets|]. intros s c s' Hs E.
  rewrite gets_run in E. injection E as <- <-. rewrite Hs.
  replace (Z.to_nat (retryAttempts cfg))
    with (Z.to_nat (retryAttempts cfg + 1 - 1)) at 1 by lia.
  apply retryLoopTask_safe; [done|]. lia.
Qed.

Lemma verifyDocumentTask_safe doc :
  safe env cfg (3 * Z.to_nat (retryAttempts cfg)) (verifyDocumentTask env doc).
Proof.
  unfold verifyDocumentTask. rewrite noFile_hasFile.
  destruct (hasFile doc) eqn:Hf; simpl negb; cbv iota.
  - apply withRetryTask_safe. intros attempt. unfold downloadAndVerifyTask.
    apply (safe_bind 1 1).
    + apply awaitTask_safe. simpl. by apply hasFile_url.
    + intros d. by apply awaitTask_safe.
  - apply safe_lift; [apply steady_log|]. intros. constructor.
Qed.

(** Running a safe function until it awaits or settles. *)
Lemma advance_safe {A} n (f : Async.t A) :
  safe env cfg n f ->
  forall s, config s = cfg ->
  exists p s',
    Async.advance f s = Returned p s' /\ quiet env s s' /\
    match p with
    | Async.Pending k => exists n', n = S n' /\ safe env cfg n' k
    | Async.Settled _ => True
    end.
Proof.
  induction 1 as [n a|n e|n B m k Hm Hk IH|n k Hk IH]; intros s Hs.
  - eexists _, s. split; [reflexivity|]. split; [apply quiet_refl|done].
  - eexists _, s. split; [reflexivity|]. split; [apply quiet_refl|done].
  - cbn [Async.advance]. run. specialize (Hm s Hs).
    destruct (m s) as [b s1|e s1|] eqn:Em; [| |done]; run.
    + destruct (IH s b s1 Hs Em s1) as (p & s' & E & Hq & Hp).
      { rewrite <- Hs. by apply quiet_config. }
      exists p, s'. split; [done|]. split; [by eapply quiet_trans|done].
    + eexists _, s1. split; [reflexivity|]. by split.
  - eexists _, s. split; [reflexivity|]. split; [apply quiet_refl|]. eauto.
Qed.

End Quiet.

(** *** A task on its own *)

(** Awaited by a caller that does nothing else, the methods in their task
    form are the methods themselves. *)
Section Alone.

Variable env : Env.

Lemma awaited_bind {A B} (m : Async.t A) (f : A -> Async.t B) : forall s,
  awaited env (m ≫= f) s = (awaited env m ≫= fun a => awaited env (f a)) s.
Proof.
  induction m as [a|e|C m k IH|k IH]; intros s; try reflexivity.
  - change (awaited env (Async.Sync m k ≫= f))
      with (m ≫= fun b => awaited env (k b ≫= f)).
    change (awaited env (Async.Sync m k)) with (m ≫= fun b => awaited env (k b)).
    rewrite !bind_unfold. destruct (m s) as [b s1|e s1|]; [apply IH|done..].
  - change (awaited env (Async.Await k ≫= f))
      with (suspend env ≫= fun _ => awaited env (k ≫= f)).
    change (awaited env (Async.Await k)) with (suspend env ≫= fun _ => awaited env k).
    rewrite !bind_unfold. destruct (suspend env s) as [b s1|e s1|]; [apply IH|done..].
Qed.

Lemma awaited_catch {A} (m : Async.t A) : forall s,
  awaited env (Async.catch m) s = tryCatch (awaited env m) s.
Proof.
  induction m as [a|e|C m k IH|k IH]; intros s; try reflexivity.
  - change (awaited env (Async.catch (Async.Sync m k)))
      with (tryCatch m ≫= fun r =>
              awaited env match r with
                          | inl b => Async.catch (k b)
                          | inr e => Async.Return (inr e)
                          end).
    change (awaited env (Async.Sync m k)) with (m ≫= fun b => awaited env (k b)).
    rewrite tryCatch_run, !bind_unfold, tryCatch_run.
    destruct (m s) as [b s1|e s1|]; [|done..].
    rewrite IH. by rewrite tryCatch_run.
  - change (awaited env (Async.catch (Async.Await k)))
      with (suspend env ≫= fun _ => awaited env (Async.catch k)).
    change (awaited env (Async.Await k)) with (suspend env ≫= fun _ => awaited env k).
    rewrite tryCatch_run, !bind_unfold.
    destruct (suspend_returns env s) as (s1 & -> & _).
    rewrite IH. by rewrite tryCatch_run.
Qed.

Lemma awaited_await {A} c (answer : nat -> Outcome A) s :
  awaited env (awaitTask c answer) s = await env c answer s.
Proof.
  unfold awaitTask, await.
  apply bind_cong; [reflexivity|]. intros t s1.
  apply bind_cong; [reflexivity|]. intros _ s2.
  apply bind_cong; [reflexivity|]. intros _ s3. by destruct (answer t).
Qed.

Lemma awaited_sleep ms s : awaited env (sleepTask ms) s = sleep env ms s.
Proof.
  unfold sleepTask, sleep. apply bind_cong; [reflexivity|]. intros _ s1.
  unfold Async.yield. cbn [awaited]. run.
  by destruct (suspend env s1) as [[] ?| |].
Qed.

Lemma awaited_retryLoop {A} (task : Z -> Async.t A) (fn : Z -> Js A) label fuel :
  (forall attempt s, awaited env (task attempt) s = fn attempt s) ->
  forall attempt lastError s,
    awaited env (retryLoopTask task label fuel attempt lastError) s =
    retryLoop env fn label fuel attempt lastError s.
Proof.
  intros Hfn. induction fuel as [|fuel IH]; intros attempt lastError s;
    [reflexivity|].
  cbn [retryLoopTask retryLoop].
  apply bind_cong; [reflexivity|]. intros cfg s1.
  destruct (attempt <=? retryAttempts cfg); [|reflexivity].
  rewrite awaited_bind. apply bind_cong.
  { rewrite awaited_catch, !tryCatch_run. by rewrite Hfn. }
  intros [v|err] s2; [reflexivity|].
  apply bind_cong; [reflexivity|]. intros m s3.
  destruct (nonRetryable (JS.or_else m "")); [reflexivity|].
  apply bind_cong; [reflexivity|]. intros cfg' s4.
  rewrite awaited_bind. apply bind_cong; [|intros; apply IH].
  destruct (attempt <? retryAttempts cfg'); [|reflexivity].
  apply bind_cong; [reflexivity|]. intros _ s5. apply awaited_sleep.
Qed.

Lemma awaited_withRetry {A} (task : Z -> Async.t A) (fn : Z -> Js A) label s :
  (forall attempt s, awaited env (task attempt) s = fn attempt s) ->
  awaited env (withRetryTask task label) s = withRetry env fn label s.
Proof.
  intros Hfn. unfold withRetryTask, withRetry.
  apply bind_cong; [reflexivity|]. intros cfg s1. by apply awaited_retryLoop.
Qed.

(** A verification task that no other task runs beside is the method
    [verifyDocument] awaited by its caller. *)
Lemma awaited_verifyDocument doc s :
  awaited env (verifyDocumentTask env doc) s = verifyDocument env doc s.
Proof.
  unfold verifyDocumentTask, verifyDocument. destruct (noFile doc); [reflexivity|].
  apply awaited_withRetry. intros attempt s1.
  unfold downloadAndVerifyTask, downloadAndVerify.
  rewrite awaited_bind. apply bind_cong; [apply awaited_await|].
  intros d s2. apply awaited_await.
Qed.

End Alone.

(** ** The worker pool at work *)

Lemma taskEvents_app a b : taskEvents (a ++ b) = taskEvents a ++ taskEvents b.
Proof. unfold taskEvents. apply List.filter_app. Qed.

Lemma taskEvents_documentStep new :
  Forall documentStep new -> taskEvents new = [].
Proof.
  induction 1 as [|e l He _ IH]; [done|].
  unfold taskEvents in *. simpl. by destruct e.
Qed.

Lemma taskEvents_taskStep new : Forall taskStep new -> taskEvents new = [].
Proof.
  induction 1 as [|e l [He _] _ IH]; [done|].
  unfold taskEvents in *. simpl. unfold noTask in He. by rewrite He.
Qed.

Lemma documentStep_taskStep e : documentStep e -> taskStep e.
Proof. destruct e as [[]| | |]; by split. Qed.

Lemma documentStep_poolEvent e : documentStep e -> poolEvent e.
Proof. by destruct e as [[]| | |]. Qed.

Lemma startedDocs_app a b : startedDocs (a ++ b) = startedDocs a ++ startedDocs b.
Proof. apply omap_app. Qed.

Lemma settledDocs_app a b : settledDocs (a ++ b) = settledDocs a ++ settledDocs b.
Proof. apply omap_app. Qed.

Lemma inFlight_app a : forall n b, inFlight n (a ++ b) = inFlight (inFlight n a) b.
Proof. induction a as [|[] a IH]; intros n b; simpl; auto. Qed.

Lemma startedDocs_cons e evs :
  startedDocs (e :: evs) =
  match e with TaskStarted d => d :: startedDocs evs | _ => startedDocs evs end.
Proof. by destruct e. Qed.

Lemma settledDocs_cons e evs :
  settledDocs (e :: evs) =
  match e with TaskSettled d => d :: settledDocs evs | _ => settledDocs evs end.
Proof. by destruct e. Qed.

Lemma inFlight_cons n e evs :
  inFlight n (e :: evs) =
  match e with
  | TaskStarted _ => inFlight (S n) evs
  | TaskSettled _ => inFlight (pred n) evs
  | _ => inFlight n evs
  end.
Proof. by destruct e. Qed.

Lemma startedDocs_settled docs : startedDocs (TaskSettled <$> docs) = [].
Proof. by induction docs. Qed.

Lemma settledDocs_settled docs : settledDocs (TaskSettled <$> docs) = docs.
Proof.
  induction docs as [|d l IH]; [done|].
  change (settledDocs (TaskSettled <$> d :: l))
    with (d :: settledDocs (TaskSettled <$> l)).
  by rewrite IH.
Qed.

Lemma inFlight_settled docs : forall n,
  inFlight n (TaskSettled <$> docs) = (n - length docs)%nat.
Proof.
  induction docs as [|d l IH]; intros n; simpl; [lia|].
  rewrite IH. lia.
Qed.

Lemma pendingCount_docs tasks : length (pendingDocs tasks) = pendingCount tasks.
Proof. unfold pendingDocs, pendingCount. by rewrite length_fmap. Qed.

Lemma pendingDocs_nil tasks : pendingCount tasks = 0%nat -> pendingDocs tasks = [].
Proof. intros H. apply nil_length_inv. by rewrite pendingCount_docs. Qed.

Lemma pendingCount_cons (task : Task) tasks :
  pendingCount (task :: tasks) =
  if Async.isPending (snd task) then S (pendingCount tasks)
  else pendingCount tasks.
Proof. unfold pendingCount. simpl. by destruct (Async.isPending (snd task)). Qed.

Lemma pendingDocs_cons (task : Task) tasks :
  pendingDocs (task :: tasks) =
  if Async.isPending (snd task) then fst task :: pendingDocs tasks
  else pendingDocs tasks.
Proof. unfold pendingDocs. simpl. by destruct (Async.isPending (snd task)). Qed.

Section Reach.

Variable env : Env.

Lemma reach_app n evs1 evs2 s1 s2 s3 :
  reach env n evs1 s1 s2 -> reach env (inFlight n evs1) evs2 s2 s3 ->
  reach env n (evs1 ++ evs2) s1 s3.
Proof.
  intros H. revert s3.
  induction H as [n s|n evs s s1' s' Hn Hq H IH|n e evs s s' H IH]; intros s3 H2.
  - exact H2.
  - eapply reach_step; [done|exact Hq|]. by apply IH.
  - simpl. apply reach_record. apply IH.
    change (e :: evs) with ([e] ++ evs) in H2. by rewrite inFlight_app in H2.
Qed.

(** A step of a task in flight. *)
Lemma reach_quiet n s s' : (1 <= n)%nat -> quiet env s s' -> reach env n [] s s'.
Proof. intros Hn Hq. eapply reach_step; [done|exact Hq|constructor]. Qed.

(** The recording of a task event. *)
Lemma reach_event n e s : reach env n [e] s (record e s).
Proof. apply reach_record. constructor. Qed.

Lemma reach_config n evs s s' : reach env n evs s s' -> config s' = config s.
Proof.
  induction 1 as [n s|n evs s s1 s' Hn Hq H IH|n e evs s s' H IH]; [done|..].
  - rewrite IH. by eapply quiet_config.
  - by rewrite IH.
Qed.

Lemma reach_frame n evs s s' : reach env n evs s s' -> frame s s'.
Proof.
  induction 1 as [n s|n evs s s1 s' Hn Hq H IH|n e evs s s' H IH].
  - apply frame_refl.
  - apply quiet_frame in Hq. solve_frame.
  - solve_frame.
Qed.

Lemma callsInFlight_app a : forall n b,
  callsInFlight n (a ++ b) <->
  callsInFlight n a /\ callsInFlight (inFlight n a) b.
Proof.
  induction a as [|e a IH]; intros n b; [simpl; tauto|].
  destruct e as [[]| | |]; simpl; rewrite IH; tauto.
Qed.

Lemma inFlight_documentStep new : forall n,
  Forall documentStep new -> inFlight n new = n.
Proof.
  intros n H. revert n. induction H as [|e l He _ IH]; intros n; [done|].
  destruct e; try done; apply IH.
Qed.

Lemma callsInFlight_documentStep new n :
  (1 <= n)%nat -> Forall documentStep new -> callsInFlight n new.
Proof.
  intros Hn. induction 1 as [|e l He _ IH]; [done|].
  destruct e as [[]| | |]; try done; simpl; auto.
Qed.

(** What the pool adds to the trace: the events [evs] among steps of
    tasks, each remote call of which is made with a task in flight. *)
Lemma reach_effects n evs s s' :
  Forall (fun e => isTaskEvent e = true) evs ->
  reach env n evs s s' ->
  exists new,
    effects s' = effects s ++ new /\ taskEvents new = evs /\
    Forall (fun e => documentStep e \/ e ∈ evs) new /\
    callsInFlight n new /\ inFlight n new = inFlight n evs.
Proof.
  intros Hev H.
  induction H as [n s|n evs s s1 s' Hn Hq H IH|n e evs s s' H IH].
  - exists []. by rewrite app_nil_r.
  - destruct (quiet_effects env _ _ Hq) as (n1 & E1 & F1).
    destruct (IH Hev) as (n2 & E2 & T2 & F2 & C2 & I2).
    exists (n1 ++ n2). split; [by rewrite E2, E1, app_assoc|].
    split; [by rewrite taskEvents_app, (taskEvents_documentStep n1 F1)|].
    split.
    { apply Forall_app. split; [|done].
      eapply Forall_impl; [exact F1|]. by left. }
    rewrite callsInFlight_app, inFlight_app, (inFlight_documentStep n1) by done.
    split; [|done]. split; [by apply callsInFlight_documentStep|done].
  - inversion Hev as [|? ? He Hev']; subst.
    destruct (IH Hev') as (n2 & E2 & T2 & F2 & C2 & I2).
    exists (e :: n2). split; [by rewrite E2; simpl; rewrite <- app_assoc|].
    split. { unfold taskEvents in *. simpl. by rewrite He, T2. }
    split.
    { constructor; [right; by left|].
      eapply Forall_impl; [exact F2|]. intros x [?|?]; [by left|right; by right]. }
    destruct e; try done; simpl in *; by split.
Qed.

(** A property that the events of the pool do not disturb is kept. *)
Lemma reach_keeps (allowed : Effect -> Prop) (I : Scheduler -> Prop) n evs s s' :
  undisturbed env allowed I -> (forall e, documentStep e -> allowed e) ->
  Forall allowed evs -> reach env n evs s s' -> I s -> I s'.
Proof.
  intros HI Ha Hev H.
  induction H as [n s|n evs s s1 s' Hn Hq H IH|n e evs s s' H IH]; intros Hs.
  - done.
  - apply IH; [done|]. by eapply quiet_keeps.
  - inversion Hev; subst. apply IH; [done|]. by apply HI.
Qed.

Variable cfg : Config.

Lemma owed_pendingCount tasks n :
  owed env cfg tasks n -> (pendingCount tasks <= n)%nat.
Proof.
  induction 1 as [|doc r tasks n H IH|doc k tasks m n Hk H IH];
    rewrite ?pendingCount_cons; simpl; [done|lia..].
Qed.

Lemma noteSettled_run doc p s :
  noteSettled doc p s =
  Returned tt
    (match p with
     | Async.Settled _ => record (TaskSettled doc) s
     | Async.Pending _ => s
     end).
Proof. by destruct p. Qed.

(** The tasks of a chunk, started: [evs] are the task events. *)
Lemma startTasks_spec chunk : forall s,
  config s = cfg ->
  exists tasks s' evs n,
    startTasks env chunk s = Returned tasks s' /\
    fst <$> tasks = chunk /\
    (forall i, reach env i evs s s') /\
    Forall (fun e => isTaskEvent e = true) evs /\
    startedDocs evs = chunk /\
    settledDocs evs ++ pendingDocs tasks ≡ₚ chunk /\
    (forall i, inFlight i evs = (i + pendingCount tasks)%nat) /\
    owed env cfg tasks n /\
    (n <= length chunk * (3 * Z.to_nat (retryAttempts cfg)))%nat.
Proof.
  induction chunk as [|doc rest IH]; intros s Hs.
  - exists [], s, [], 0%nat. simpl. split; [done|]. split; [done|].
    split; [intros; apply reach_refl|]. split; [constructor|].
    split; [done|]. split; [done|]. split; [intros; unfold pendingCount; simpl; lia|].
    split; [constructor|lia].
  - cbn [startTasks]. run.
    destruct (advance_safe env cfg _ _ (verifyDocumentTask_safe env cfg doc)
                (record (TaskStarted doc) s) Hs) as (p & s1 & E1 & Q1 & Hp).
    rewrite E1. run. rewrite noteSettled_run. run.
    set (s2 := match p with
               | Async.Settled _ => record (TaskSettled doc) s1
               | Async.Pending _ => s1
               end).
    assert (Hs2 : config s2 = cfg).
    { apply quiet_config in Q1. simpl in Q1. subst s2.
      destruct p; simpl; congruence. }
    destruct (IH s2 Hs2) as (tasks & s' & evs & n & E & Hd & R & Hev & Hst & Hse & Hin & Ho & Hn).
    rewrite E. run.
    destruct p as [k|r].
    + (* the task awaits *)
      destruct Hp as (n' & Hn' & Hk).
      exists ((doc, Async.Pending k) :: tasks), s', (TaskStarted doc :: evs), (S n' + n)%nat.
      split; [done|]. split; [by rewrite fmap_cons, Hd|].
      split. { intros i. apply reach_record.
               eapply reach_step; [simpl; lia|exact Q1|apply R]. }
      split; [by constructor|]. split; [by rewrite startedDocs_cons, Hst|].
      split. { rewrite settledDocs_cons, pendingDocs_cons. simpl.
               rewrite <- Permutation_middle. by rewrite Hse. }
      split. { intros i. rewrite inFlight_cons, Hin, pendingCount_cons. simpl. lia. }
      split; [by constructor|]. simpl length. lia.
    + (* the task settles at once *)
      exists ((doc, Async.Settled r) :: tasks), s', (TaskStarted doc :: TaskSettled doc :: evs), n.
      split; [done|]. split; [by rewrite fmap_cons, Hd|].
      split. { intros i. apply reach_record.
               eapply reach_step; [simpl; lia|exact Q1|].
               apply reach_record, R. }
      split; [by repeat constructor|].
      split; [by rewrite !startedDocs_cons, Hst|].
      split. { rewrite !settledDocs_cons, pendingDocs_cons. simpl. by rewrite Hse. }
      split. { intros i. rewrite !inFlight_cons, Hin, pendingCount_cons. simpl. lia. }
      split; [by constructor|]. simpl length. lia.
Qed.

(** One turn of the event loop, when a task is pending: a task has run,
    and either it awaits again or it is settled. *)
Lemma resumeTask_spec tasks : forall n total s,
  owed env cfg tasks total -> pendingCount tasks <> 0%nat -> config s = cfg ->
  exists tasks' s' total' evs settledNow,
    resumeTask n tasks s = Returned tasks' s' /\
    length tasks' = length tasks /\
    (total' < total)%nat /\ owed env cfg tasks' total' /\
    (forall c, (1 <= c)%nat -> reach env c evs s s') /\
    evs = TaskSettled <$> settledNow /\
    pendingDocs tasks ≡ₚ settledNow ++ pendingDocs tasks'.
Proof.
  induction tasks as [|[doc p] rest IH]; intros n total s Ho Hp Hs; [done|].
  assert (Hhere : forall k m rest_total,
    safe env cfg m k -> owed env cfg rest rest_total ->
    exists tasks' s' total' evs settledNow,
      (p ← Async.advance k;
       noteSettled doc p ;; mret ((doc, p) :: rest)) s = Returned tasks' s' /\
      length tasks' = S (length rest) /\
      (total' < S m + rest_total)%nat /\ owed env cfg tasks' total' /\
      (forall c, (1 <= c)%nat -> reach env c evs s s') /\
      evs = TaskSettled <$> settledNow /\
      doc :: pendingDocs rest ≡ₚ settledNow ++ pendingDocs tasks').
  { intros k m rest_total Hk Hrest. run.
    destruct (advance_safe env cfg _ _ Hk s Hs) as (p' & s1 & E1 & Q1 & Hp').
    rewrite E1. run. rewrite noteSettled_run. run.
    destruct p' as [k'|r].
    - destruct Hp' as (m' & -> & Hk').
      exists ((doc, Async.Pending k') :: rest), s1, (S m' + rest_total)%nat, [], [].
      split; [done|]. split; [done|]. split; [lia|].
      split; [by constructor|]. split; [intros; by apply reach_quiet|].
      split; [done|]. by rewrite pendingDocs_cons.
    - exists ((doc, Async.Settled r) :: rest), (record (TaskSettled doc) s1),
        rest_total, [TaskSettled doc], [doc].
      split; [done|]. split; [done|]. split; [lia|].
      split; [by constructor|].
      split. { intros c Hc. eapply reach_step; [done|exact Q1|].
               apply reach_event. }
      split; [done|]. by rewrite pendingDocs_cons. }
  revert Hs.
  inversion Ho as [|d r tasks0 n0 Hrest|d k tasks0 m n0 Hk Hrest]; subst;
    intros Hs.
  - (* a settled task: the pending one is further on *)
    cbn [resumeTask]. run.
    rewrite pendingCount_cons in Hp. simpl in Hp.
    destruct (IH n total s Hrest Hp Hs)
      as (rest' & s' & total' & evs & now & E & Hl & Hlt & Ho' & R & Hev & Hperm).
    rewrite E. run.
    exists ((doc, Async.Settled r) :: rest'), s', total', evs, now.
    split; [done|]. split; [simpl; by rewrite Hl|]. split; [done|].
    split; [by constructor|]. split; [done|]. split; [done|].
    by rewrite !pendingDocs_cons.
  - cbn [resumeTask]. rewrite pendingDocs_cons. simpl fst. simpl snd. cbv iota.
    destruct (pendingCount rest) as [|c] eqn:Hc.
    { destruct (Hhere k m n0 Hk Hrest)
        as (tasks' & s' & total' & evs & now & E & Hl & Hlt & Ho' & R & Hev & Hperm).
      exists tasks', s', total', evs, now. by repeat split. }
    destruct n as [|n'].
    { destruct (Hhere k m n0 Hk Hrest)
        as (tasks' & s' & total' & evs & now & E & Hl & Hlt & Ho' & R & Hev & Hperm).
      exists tasks', s', total', evs, now. by repeat split. }
    run.
    destruct (IH n' n0 s Hrest ltac:(lia) Hs)
      as (rest' & s' & total' & evs & now & E & Hl & Hlt & Ho' & R & Hev & Hperm).
    rewrite E. run.
    exists ((doc, Async.Pending k) :: rest'), s', (S m + total')%nat, evs, now.
    split; [done|]. split; [simpl; by rewrite Hl|]. split; [lia|].
    split; [by constructor|]. split; [done|]. split; [done|].
    rewrite pendingDocs_cons. simpl. rewrite Hperm. by rewrite Permutation_middle.
Qed.

Lemma settlements_length tasks :
  pendingCount tasks = 0%nat -> length (settlements tasks) = length tasks.
Proof.
  induction tasks as [|[doc [k|r]] rest IH]; [done|..];
    rewrite pendingCount_cons; simpl; [done|].
  intros H. unfold settlements in *. cbn. by rewrite IH.
Qed.

(** With enough turns, the event loop settles every task. *)
Lemma settleTasks_spec turns : forall tasks total s,
  owed env cfg tasks total -> (total <= turns)%nat -> config s = cfg ->
  exists rs s' order,
    settleTasks env turns tasks s = Returned rs s' /\
    length rs = length tasks /\
    reach env (pendingCount tasks) (TaskSettled <$> order) s s' /\
    order ≡ₚ pendingDocs tasks.
Proof.
  induction turns as [|turns IH]; intros tasks total s Ho Hle Hs.
  - pose proof (owed_pendingCount _ _ Ho) as Hp.
    assert (Hz : pendingCount tasks = 0%nat) by lia.
    exists (settlements tasks), s, []. cbn [settleTasks]. rewrite Hz.
    split; [done|]. split; [by apply settlements_length|].
    split; [apply reach_refl|].
    by rewrite pendingDocs_nil.
  - cbn [settleTasks]. destruct (pendingCount tasks) as [|c] eqn:Hc.
    { exists (settlements tasks), s, []. split; [done|].
      split; [by apply settlements_length|]. split; [apply reach_refl|].
      by rewrite pendingDocs_nil. }
    run. destruct (suspend_quiet env s) as (s1 & E1 & Q1). rewrite E1. run.
    assert (Hs1 : config s1 = cfg) by (rewrite <- Hs; by eapply quiet_config).
    destruct (resumeTask_spec tasks (completes env (clock s)) total s1 Ho ltac:(lia) Hs1)
      as (tasks' & s2 & total' & evs & now & E2 & Hl & Hlt & Ho' & R & Hev & Hperm).
    rewrite E2. run.
    assert (Hs2 : config s2 = cfg).
    { rewrite <- Hs1. eapply reach_config, (R 1%nat). lia. }
    destruct (IH tasks' total' s2 Ho' ltac:(lia) Hs2) as (rs & s' & order & E & Hlr & R' & Hp').
    exists rs, s', (now ++ order). split; [done|]. split; [congruence|].
    split; [|by rewrite Hperm, Hp'].
    rewrite fmap_app. eapply reach_step; [lia|exact Q1|].
    eapply reach_app; [subst evs; apply R; lia|].
    assert (Hcount : pendingCount tasks' = inFlight (S c) (TaskSettled <$> now)).
    { rewrite inFlight_settled. apply Permutation_length in Hperm.
      rewrite length_app, !pendingCount_docs in Hperm. lia. }
    by rewrite <- Hcount.
Qed.

End Reach.

Section Chunk.

Variable env : Env.

(** The chunk is run: every task is started, in order, and settled; the
    results are as many as the documents. *)
Lemma allSettled_reaches chunk s :
  exists rs s' evs,
    allSettled env chunk s = Returned rs s' /\
    length rs = length chunk /\
    reach env 0 evs s s' /\
    Forall (fun e => isTaskEvent e = true) evs /\
    chunkRun chunk evs.
Proof.
  unfold allSettled. run.
  destruct (startTasks_spec env (config s) chunk s eq_refl)
    as (tasks & s1 & evs1 & n & E1 & Hd & R1 & Hev1 & Hst & Hse & Hin & Ho & Hn).
  rewrite E1. run.
  assert (Hs1 : config s1 = config s) by (eapply reach_config, (R1 0%nat)).
  destruct (settleTasks_spec env (config s) (turnsOf (config s1) chunk) tasks n s1 Ho)
    as (rs & s' & order & E & Hl & R & Hp); [unfold turnsOf; by rewrite Hs1|done|].
  rewrite E. exists rs, s', (evs1 ++ (TaskSettled <$> order)).
  split; [done|]. split; [by rewrite Hl, <- Hd, !length_fmap|].
  split; [eapply reach_app; [apply R1|]; by rewrite Hin|].
  split. { apply Forall_app. split; [done|]. apply Forall_fmap. by apply Forall_true. }
  split; [|split].
  - by rewrite startedDocs_app, startedDocs_settled, app_nil_r.
  - by rewrite settledDocs_app, settledDocs_settled, Hp.
  - rewrite inFlight_app, Hin, inFlight_settled. simpl.
    rewrite Hp, pendingCount_docs. lia.
Qed.

Lemma chunkRun_elem chunk run e :
  chunkRun chunk run -> e ∈ run -> isTaskEvent e = true ->
  exists d, d ∈ chunk /\ (e = TaskStarted d \/ e = TaskSettled d).
Proof.
  intros (Hst & Hse & _) He Ht.
  destruct e as [c|ms|d|d]; try done; exists d; (split; [|auto]).
  - rewrite <- Hst. unfold startedDocs. apply list_elem_of_omap.
    by exists (TaskStarted d).
  - rewrite <- Hse. unfold settledDocs. apply list_elem_of_omap.
    by exists (TaskSettled d).
Qed.

(** The remote calls of a chunk are made while its tasks are in flight. *)
Lemma allSettled_calls chunk s :
  exists rs s' new,
    allSettled env chunk s = Returned rs s' /\
    effects s' = effects s ++ new /\
    callsInFlight 0 new /\ inFlight 0 new = 0%nat.
Proof.
  destruct (allSettled_reaches chunk s) as (rs & s' & evs & E & _ & R & Hev & Hrun).
  destruct (reach_effects env 0 evs s s' Hev R) as (new & Ef & _ & _ & C & Hn).
  exists rs, s', new. split; [done|]. split; [done|]. split; [done|].
  rewrite Hn. apply Hrun.
Qed.

Lemma chunkRuns_nil : chunkRuns [] [].
Proof. exists []. by split; [|constructor]. Qed.

Lemma chunkRuns_cons chunk chunks run evs :
  chunkRun chunk run -> chunkRuns chunks evs ->
  chunkRuns (chunk :: chunks) (run ++ evs).
Proof.
  intros Hrun (runs & -> & Hruns). exists (run :: runs).
  split; [done|]. by constructor.
Qed.

Lemma allSettled_returns chunk s :
  exists rs s' new,
    allSettled env chunk s = Returned rs s' /\
    length rs = length chunk /\
    frame s s' /\ effects s' = effects s ++ new /\
    chunkRun chunk (taskEvents new) /\
    (Forall (fun d => hasFile d = true) chunk -> Forall withFile new).
Proof.
  destruct (allSettled_reaches chunk s) as (rs & s' & evs & E & Hl & R & Hev & Hrun).
  destruct (reach_effects env 0 evs s s' Hev R) as (new & Ef & T & F & _).
  exists rs, s', new. split; [done|]. split; [done|].
  split; [by eapply reach_frame|]. split; [done|]. split; [by rewrite T|].
  intros Hall. rewrite Forall_forall in Hall.
  eapply Forall_impl; [exact F|]. intros e [He|He].
  - by apply documentStep_taskStep in He as [_ ?].
  - rewrite Forall_forall in Hev.
    destruct (chunkRun_elem chunk evs e Hrun He (Hev e He)) as (d & Hd & [->| ->]);
      simpl; by apply Hall.
Qed.

End Chunk.

(** ** Merging outcomes *)

Lemma updateFound_keys {A K} (key : A -> K) (p : A -> bool) (f : A -> A) l :
  (forall x, key (f x) = key x) ->
  key <$> JS.updateFound p f l = key <$> l.
Proof.
  intros Hf. induction l as [|x l IH]; [done|]. simpl.
  destruct (p x); rewrite !fmap_cons; [by rewrite Hf | by rewrite IH].
Qed.

Lemma updateFound_elem {A} (p : A -> bool) (f : A -> A) l e :
  e ∈ JS.updateFound p f l -> e ∈ l \/ exists x, p x = true /\ e = f x.
Proof.
  induction l as [|x l IH]; [by left|]. simpl.
  destruct (p x) eqn:Hp.
  - intros [->|He]%elem_of_cons; [right; eauto | left; by right].
  - intros [->|He]%elem_of_cons; [left; by left|].
    destruct (IH He) as [?|?]; [left; by right | by right].
Qed.

Lemma advanced_refl sr : advanced [] sr sr.
Proof.
  unfold advanced. split; [simpl; lia|]. repeat split; auto.
  exists []. by rewrite app_nil_r.
Qed.

Lemma advanced_trans d1 d2 a b c :
  advanced d1 a b -> advanced d2 b c -> advanced (d1 ++ d2) a c.
Proof.
  intros (O1 & T1 & U1 & S1 & I1 & (ds1 & D1 & L1) & K1 & M1)
         (O2 & T2 & U2 & S2 & I2 & (ds2 & D2 & L2) & K2 & M2).
  unfold advanced. rewrite length_app.
  split; [lia|]. do 4 (split; [congruence|]). split.
  { exists (ds1 ++ ds2). split; [by rewrite D2, D1, app_assoc|].
    by rewrite !fmap_app, L1, L2. }
  split; [congruence|].
  intros e He. rewrite fmap_app, elem_of_app.
  destruct (M2 e He) as [Hb|?]; [|tauto].
  destruct (M1 e Hb); tauto.
Qed.

(** The entries of [allDocuments] after the assignments to the entry found
    for [doc]. *)
Lemma updateFound_entries doc (f : Entry.t -> Entry.t) l :
  (forall e, entryKey (f e) = entryKey e) ->
  entryKey <$>
    JS.updateFound
      (fun d => bool_decide (Entry.document_type_id d = Doc.document_type_id doc))
      f l = entryKey <$> l /\
  (forall e,
     e ∈ JS.updateFound
           (fun d => bool_decide
              (Entry.document_type_id d = Doc.document_type_id doc)) f l ->
     e ∈ l \/ Entry.document_type_id e ∈ (Doc.document_type_id <$> [doc])).
Proof.
  intros Hf. split; [by apply updateFound_keys|].
  intros e [?|(x & Hp & ->)]%updateFound_elem; [by left|]. right.
  apply bool_decide_eq_true in Hp.
  assert (Entry.document_type_id (f x) = Entry.document_type_id x) as ->.
  { specialize (Hf x). unfold entryKey in Hf. congruence. }
  rewrite Hp. simpl. by apply list_elem_of_singleton.
Qed.

Ltac merged :=
  do 3 eexists; (split; [reflexivity|]); (split; [apply pushLog_frame|]);
  (split; [reflexivity|]); unfold advanced, outcomes; simpl;
  (split; [lia|]); do 4 (split; [reflexivity|]);
  (split; [eexists; split; reflexivity|]);
  apply updateFound_entries; by intros [].

Lemma mergeResult_returns applnID doc result sr ups s :
  exists sr' ups' s',
    mergeResult applnID doc result (sr, ups) s = Returned (sr', ups') s' /\
    frame s s' /\ effects s' = effects s /\ advanced [doc] sr sr'.
Proof.
  unfold mergeResult. destruct result as [v|reason].
  - case_bool_decide; [run; merged|].
    case_bool_decide; run; merged.
  - run. merged.
Qed.

Lemma mergeResults_cons applnID doc result rest acc :
  mergeResults applnID ((doc, result) :: rest) acc =
  (mergeResult applnID doc result acc ≫= mergeResults applnID rest).
Proof. reflexivity. Qed.

Lemma mergeResults_returns applnID settled : forall acc s,
  exists acc' s',
    mergeResults applnID settled acc s = Returned acc' s' /\
    frame s s' /\ effects s' = effects s /\
    advanced (settled.*1) (acc.1) (acc'.1).
Proof.
  induction settled as [|[doc result] rest IH]; intros [sr ups] s.
  - exists (sr, ups), s. repeat split; auto using frame_refl, advanced_refl.
    apply advanced_refl.
  - rewrite mergeResults_cons. run.
    destruct (mergeResult_returns applnID doc result sr ups s)
      as (sr1 & ups1 & s1 & E1 & F1 & Ef1 & A1).
    rewrite E1. run.
    destruct (IH (sr1, ups1) s1) as (acc' & s' & E & F & Ef & A).
    exists acc', s'. split; [exact E|]. split; [eapply frame_trans; eauto|].
    split; [congruence|]. 
    change (((doc, result) :: rest).*1) with ([doc] ++ rest.*1).
    eapply advanced_trans; eauto.
Qed.

(** ** The chunk loop *)

Section Chunks.

Variable env : Env.

Lemma processChunks_cons applnID chunk rest acc :
  processChunks env applnID (chunk :: rest) acc =
  (stop ← gets shouldStop;
   if stop : bool then
     log info ("Stopping mid-student " +:+ applnID) None ;;
     mret acc
   else
     results ← allSettled env chunk;
     acc' ← mergeResults applnID (zip chunk results) acc;
     (match rest with
      | [] => mret tt
      | _ :: _ =>
          cfg ← gets config;
          sleep env (delayBetweenDocsMs cfg)
      end) ;;
     processChunks env applnID rest acc').
Proof. reflexivity. Qed.

(** The loop returns after some number [k] of chunks: all of them unless the
    stop flag was found raised. *)
Lemma processChunks_returns applnID chunks : forall acc s,
  exists acc' s' k new,
    processChunks env applnID chunks acc s = Returned acc' s' /\
    frame s s' /\ (k <= length chunks)%nat /\
    advanced (concat (take k chunks)) (acc.1) (acc'.1) /\
    effects s' = effects s ++ new /\
    chunkRuns (take k chunks) (taskEvents new) /\
    (Forall (Forall (fun d => hasFile d = true)) chunks -> Forall withFile new) /\
    (shouldStop s' = false -> k = length chunks).
Proof.
  induction chunks as [|chunk rest IH]; intros acc s.
  - exists acc, s, 0%nat, []. simpl. rewrite app_nil_r.
    split; [done|]. split; [apply frame_refl|]. split; [done|].
    split; [apply advanced_refl|]. split; [done|].
    split; [apply chunkRuns_nil|]. by split.
  - rewrite processChunks_cons. run. destruct (shouldStop s) eqn:Hstop.
    + run. eexists acc, _, 0%nat, []. split; [reflexivity|].
      split; [apply pushLog_frame|]. split; [simpl; lia|].
      split; [apply advanced_refl|]. simpl. rewrite app_nil_r.
      split; [done|]. split; [apply chunkRuns_nil|]. split; [done|]. congruence.
    + run. destruct (allSettled_returns env chunk s)
        as (rs & s1 & n1 & E1 & Hl & F1 & Ef1 & T1 & W1).
      rewrite E1. run.
      destruct (mergeResults_returns applnID (zip chunk rs) acc s1)
        as (acc1 & s2 & E2 & F2 & Ef2 & A2).
      rewrite E2. run. rewrite fst_zip in A2 by lia.
      assert (exists s3 n3,
        (match rest with
         | [] => mret ()
         | _ :: _ => gets config ≫= λ cfg, sleep env (delayBetweenDocsMs cfg)
         end) s2 = Returned tt s3 /\ frame s2 s3 /\
        effects s3 = effects s2 ++ n3 /\ Forall taskStep n3)
        as (s3 & n3 & -> & F3 & Ef3 & T3).
      { destruct rest.
        - exists s2, []. rewrite app_nil_r. repeat split; auto using frame_refl.
        - run. destruct (sleep_returns env (delayBetweenDocsMs (config s2)) s2)
            as (s3 & E3 & F3 & Ef3).
          exists s3, [Slept (delayBetweenDocsMs (config s2))].
          split; [exact E3|]. split; [exact F3|]. split; [exact Ef3|].
          by repeat constructor. }
      run. destruct (IH acc1 s3) as (acc' & s' & k & n4 & E & F & Hk & A & Ef & T & W & Hall).
      exists acc', s', (S k), (n1 ++ n3 ++ n4). split; [exact E|].
      split; [eauto using frame_trans|]. split; [simpl; lia|].
      split; [simpl; eapply advanced_trans; eauto|].
      split; [by rewrite Ef, Ef3, Ef2, Ef1, <- !app_assoc|].
      split.
      { rewrite !taskEvents_app, (taskEvents_taskStep n3 T3). simpl.
        by apply chunkRuns_cons. }
      split.
      { intros Hf. inversion Hf; subst. apply Forall_app. split; [auto|].
        apply Forall_app. split; [|auto].
        eapply Forall_impl; [exact T3|]. by intros ? [_ ?]. }
      intros Hs. by rewrite (Hall Hs).
Qed.

(** Every download and every call of the backend that the loop makes is
    made while a task is in flight, and the loop leaves none in flight. *)
Lemma processChunks_calls applnID chunks : forall acc s,
  exists acc' s' new,
    processChunks env applnID chunks acc s = Returned acc' s' /\
    effects s' = effects s ++ new /\
    callsInFlight 0 new /\ inFlight 0 new = 0%nat.
Proof.
  induction chunks as [|chunk rest IH]; intros acc s.
  - exists acc, s, []. by rewrite app_nil_r.
  - rewrite processChunks_cons. run. destruct (shouldStop s).
    { run. eexists acc, _, []. split; [reflexivity|]. simpl.
      by rewrite app_nil_r. }
    run. destruct (allSettled_calls env chunk s)
      as (rs & s1 & n1 & E1 & Ef1 & C1 & I1).
    rewrite E1. run.
    destruct (mergeResults_returns applnID (zip chunk rs) acc s1)
      as (acc1 & s2 & E2 & _ & Ef2 & _).
    rewrite E2. run.
    assert (exists s3 n3,
      (match rest with
       | [] => mret ()
       | _ :: _ => gets config ≫= λ cfg, sleep env (delayBetweenDocsMs cfg)
       end) s2 = Returned tt s3 /\
      effects s3 = effects s2 ++ n3 /\
      callsInFlight 0 n3 /\ inFlight 0 n3 = 0%nat)
      as (s3 & n3 & -> & Ef3 & C3 & I3).
    { destruct rest.
      - exists s2, []. by rewrite app_nil_r.
      - run. destruct (sleep_returns env (delayBetweenDocsMs (config s2)) s2)
          as (s3 & E3 & _ & Ef3).
        by exists s3, [Slept (delayBetweenDocsMs (config s2))]. }
    run. destruct (IH acc1 s3) as (acc' & s' & n4 & E & Ef & C4 & I4).
    exists acc', s', (n1 ++ n3 ++ n4). split; [exact E|].
    split; [by rewrite Ef, Ef3, Ef2, Ef1, <- !app_assoc|].
    rewrite !callsInFlight_app, !inFlight_app, I1, I3. by repeat split.
Qed.

End Chunks.

(** ** One subject *)

Lemma withRetry_unconfigured env {A} (fn : Z -> Js A) label s :
  retryAttempts (config s) < 1 ->
  withRetry env fn label s = Raised ThrownUndefined s.
Proof.
  intros Hn. unfold withRetry. run. simpl retryLoop. run.
  destruct (Z.leb_spec 1 (retryAttempts (config s))); [lia|]. by run.
Qed.

Lemma storeResult_run sr s :
  storeResult sr s =
  Returned (StudentResult.set_ended true sr)
    (set_studentResults
       (<[StudentResult.applnID sr := StudentResult.set_ended true sr]>
          (studentResults s)) s).
Proof. reflexivity. Qed.

Lemma filter_Forall {A} (p : A -> bool) l :
  Forall (fun x => p x = true) (List.filter p l).
Proof.
  apply List.Forall_forall. intros x Hx. by apply List.filter_In in Hx as [_ ?].
Qed.

Lemma filter_Forall_keep {A} (p q : A -> bool) l :
  Forall (fun x => p x = true) l -> Forall (fun x => p x = true) (List.filter q l).
Proof.
  rewrite !List.Forall_forall. intros H x Hx. apply H.
  by apply List.filter_In in Hx as [? _].
Qed.

Lemma taskStep_withFile new : Forall taskStep new -> Forall withFile new.
Proof. intros H. eapply Forall_impl; [exact H|]. by intros ? [_ ?]. Qed.

Section OneSubject.

Variable env : Env.

(** A subject without anything to verify. *)
Lemma subjectPost_idle allDocs s s1 s' res new :
  frame s s1 -> effects s1 = effects s ++ new -> Forall taskStep new ->
  frame s1 s' -> effects s' = effects s1 ->
  StudentResult.status res <> processing ->
  StudentResult.totalDocs res = 0%nat -> outcomes res = 0%nat ->
  StudentResult.documents res = [] ->
  StudentResult.allDocuments res = entryOf <$> allDocs ->
  subjectPost s res s'.
Proof.
  intros F1 E1 T1 F2 E2 Hst Htot Hout Hdocs Hall.
  split; [eapply frame_trans; eauto|]. split; [done|].
  exists allDocs, [], [], 0%nat, new. simpl.
  split; [done|]. split; [constructor|].
  split; [by intros ? ?%elem_of_nil|]. split; [done|]. split; [lia|].
  split; [done|]. split; [by rewrite Hdocs|]. split; [by rewrite Hall|].
  split; [rewrite Hall; by left|]. split; [congruence|].
  split; [rewrite taskEvents_taskStep by done; apply chunkRuns_nil|].
  split; [by apply taskStep_withFile|done].
Qed.

Lemma filter_elem {A} (p : A -> bool) l x : x ∈ List.filter p l -> x ∈ l.
Proof.
  rewrite !list_elem_of_In. intros H. by apply List.filter_In in H as [? _].
Qed.

Lemma fetch_settles applnID s :
  settles (evolves taskStep) (retryAttempts (config s) < 1)
    (withRetry env
       (fun attempt =>
          await env (CallGetDocumentList applnID)
            (getDocumentList env applnID attempt))
       ("Fetch docs for " +:+ applnID)) s.
Proof.
  apply withRetry_settles; [|by split].
  intros attempt s0. unfold settles.
  destruct (await_spec env (CallGetDocumentList applnID)
              (getDocumentList env applnID attempt) s0) as (s1 & F & E & R).
  rewrite R.
  assert (evolves taskStep s0 s1).
  { split; [done|]. eexists. split; [exact E|]. by repeat constructor. }
  by destruct (getDocumentList env applnID attempt (clock s0)).
Qed.

Lemma update_settles applnID ups s :
  settles (evolves taskStep) (retryAttempts (config s) < 1)
    (withRetry env
       (fun attempt =>
          await env (CallUpdateDocumentStatus applnID ups)
            (updateDocumentStatus env applnID ups attempt))
       ("Update status for " +:+ applnID)) s.
Proof.
  apply withRetry_settles; [|by split].
  intros attempt s0. unfold settles.
  destruct (await_spec env (CallUpdateDocumentStatus applnID ups)
              (updateDocumentStatus env applnID ups attempt) s0) as (s1 & F & E & R).
  rewrite R.
  assert (evolves taskStep s0 s1).
  { split; [done|]. eexists. split; [exact E|]. by repeat constructor. }
  by destruct (updateDocumentStatus env applnID ups attempt (clock s0)).
Qed.

End OneSubject.

Section ProcessStudent.

Variable env : Env.

Lemma processStudent_spec applnID studentName s :
  match processStudent env applnID studentName s with
  | Returned res s' => 1 <= retryAttempts (config s) /\ subjectPost s res s'
  | Raised _ _ => retryAttempts (config s) < 1
  | Diverged => concurrency (config s) < 1
  end.
Proof.
  unfold processStudent. run.
  destruct (Z.le_gt_cases 1 (retryAttempts (config s))) as [Hn|Hn]; cycle 1.
  { rewrite withRetry_unconfigured by lia. unfold processingFailed, messageOf. by run. }
  pose proof (fetch_settles env applnID s) as Hfetch. unfold settles in Hfetch.
  match type of Hfetch with match ?w with _ => _ end => 
    destruct w as [resp s1|[|m] s1|] end; [| lia | |done].
  2:{ (* the fetch failed *)
    unfold processingFailed, messageOf. run. rewrite storeResult_run.
    split; [done|]. destruct Hfetch as [F1 (n1 & E1 & T1)].
    eapply (subjectPost_idle [] s s1 _ _ n1); eauto; done. }
  destruct Hfetch as [F1 (n1 & E1 & T1)]. 
  destruct (if bool_decide (dl_status resp = 1) then dl_document_status resp else None)
    as [allDocs|]; cycle 1.
  { run. rewrite storeResult_run. split; [done|].
    eapply (subjectPost_idle [] s s1 _ _ n1); eauto; done. }
  run.
  set (cands := if skipAlreadyVerified (config s1) then _ else _).
  assert (Hcands : Forall (fun d => hasFile d = true) cands).
  { subst cands. destruct (skipAlreadyVerified (config s1));
      [apply filter_Forall_keep|]; apply filter_Forall. }
  assert (Hsub : forall d, d ∈ cands -> d ∈ allDocs).
  { subst cands. destruct (skipAlreadyVerified (config s1)); intros d Hd;
      [apply filter_elem in Hd|]; by apply filter_elem in Hd. }
  destruct cands as [|c0 cands'] eqn:Ecands.
  { run. rewrite storeResult_run. split; [done|].
    eapply (subjectPost_idle allDocs s s1 _ _ n1); eauto; done. }
  rewrite <- Ecands in *. run.
  assert (Hc1 : config s1 = config s) by solve_frame.
  destruct (chunkArray cands (concurrency (config s1))) as [chunks|] eqn:Echunks; cycle 1.
  { unfold diverge. destruct (Z.le_gt_cases 1 (concurrency (config s))) as [Hc|Hc]; [|lia].
    destruct (chunkArray_spec cands (concurrency (config s1))) as (? & ? & _); [by rewrite Hc1|].
    congruence. }
  run.
  match goal with |- context [processChunks env applnID chunks ?acc s1] =>
    destruct (processChunks_returns env applnID chunks acc s1)
      as ([sr2 ups2] & s2 & k & n2 & E2 & F2 & Hk & A2 & Ef2 & T2 & W2 & Hall2) end.
  rewrite E2. run. simpl in A2.
  destruct A2 as (O2 & Tot2 & U2 & St2 & I2 & (ds & D2 & L2) & K2 & M2).
  unfold outcomes in O2. simpl in O2, Tot2, D2, I2, K2, M2.
  assert (Hconclude : forall s3 n3,
    frame s2 s3 -> effects s3 = effects s2 ++ n3 -> Forall taskStep n3 ->
    match storeResult
            (StudentResult.set_status
               (if (0 <? StudentResult.errors sr2)%nat then partial else completed)
               sr2) s3
    with
    | Returned res s' => 1 <= retryAttempts (config s) /\ subjectPost s res s'
    | Raised _ _ => retryAttempts (config s) < 1
    | Diverged => concurrency (config s) < 1
    end).
  { intros s3 n3 F3 E3 T3. rewrite storeResult_run. split; [done|].
    split; [solve_frame|]. split; [simpl; by destruct (0 <? _)%nat|].
    exists allDocs, cands, chunks, k, (n1 ++ n2 ++ n3).
    split; [by rewrite <- Hc1|]. split; [done|]. split; [done|].
    split; [simpl; by rewrite Tot2|]. split; [done|].
    split; [unfold outcomes; simpl; lia|].
    split; [simpl; by rewrite D2|].
    split; [exact K2|]. split; [exact M2|].
    split; [simpl; by rewrite E3, Ef2, E1, <- !app_assoc|].
    split.
    { by rewrite !taskEvents_app, (taskEvents_taskStep n1 T1),
        (taskEvents_taskStep n3 T3), app_nil_r. }
    split.
    { apply Forall_app. split; [by apply taskStep_withFile|].
      apply Forall_app. split; [|by apply taskStep_withFile].
      apply W2. apply chunkArray_concat in Echunks. rewrite <- Echunks in Hcands.
      clear -Hcands. induction chunks as [|c cs IH]; [constructor|].
      simpl in Hcands. apply Forall_app in Hcands as [? ?]. constructor; auto. }
    simpl. intros Hs. apply Hall2.
    destruct (shouldStop s2) eqn:Hs2; [|done].
    destruct F3 as (_ & _ & _ & _ & _ & _ & Hmono). rewrite Hmono in Hs; done. }
  destruct ((0 <? length ups2)%nat && negb (shouldStop s2)); cycle 1.
  { apply (Hconclude s2 []); [apply frame_refl | by rewrite app_nil_r | constructor]. }
  run.
  pose proof (update_settles env applnID ups2 s2) as Hupd. unfold settles in Hupd.
  assert (Hc2 : config s2 = config s) by solve_frame.
  match type of Hupd with match ?w with _ => _ end => 
    destruct w as [[] s3|[|m] s3|] end; [| rewrite Hc2 in Hupd; lia | |done].
  - run. destruct Hupd as [F3 (n3 & E3 & T3)].
    apply (Hconclude _ n3); [|done..].
    pose proof (pushLog_frame error "" None s3). solve_frame.
  - unfold messageOf. run. destruct Hupd as [F3 (n3 & E3 & T3)].
    apply (Hconclude _ n3); [|done..].
    pose proof (pushLog_frame error "" None s3). solve_frame.
Qed.

End ProcessStudent.

(** ** The result of one subject *)

Lemma concat_take_length {A} (chunks : list (list A)) k :
  (length (concat (take k chunks)) <= length (concat chunks))%nat.
Proof.
  rewrite <- (take_drop k chunks) at 2. rewrite concat_app, length_app. lia.
Qed.

(** C2, amended. The outcome counters of a finalized subject add up to the
    number of items that were run, which is the number of entries of
    [documents] and never more than [totalDocs]; they add up to [totalDocs]
    whenever the stop flag is still clear when the subject is finalized. *)
Theorem outcomes_add_up_unless_stopped env applnID studentName s res s' :
  processStudent env applnID studentName s = Returned res s' ->
  StudentResult.status res <> processing /\
  outcomes res = length (StudentResult.documents res) /\
  (outcomes res <= StudentResult.totalDocs res)%nat /\
  (shouldStop s' = false -> outcomes res = StudentResult.totalDocs res).
Proof.
  intros Hrun. pose proof (processStudent_spec env applnID studentName s) as H.
  rewrite Hrun in H.
  destruct H as (_ & _ & Hst & allDocs & cands & chunks & k & new & Hch & _ & _ &
                 Htot & _ & Hout & Hdocs & _ & _ & _ & _ & _ & Hall).
  apply chunkArray_concat in Hch.
  split; [done|]. split.
  { rewrite Hout. apply (f_equal length) in Hdocs.
    by rewrite !length_fmap in Hdocs. }
  split.
  { rewrite Hout, Htot, <- Hch. apply concat_take_length. }
  intros Hs. rewrite Hout, Htot, <- Hch, (Hall Hs), firstn_all. done.
Qed.

Lemma outcomes_add_up_unless_stopped_example :
  exists res s',
    processStudent scenarioEnv "S1" "Ann" newScheduler = Returned res s' /\
    StudentResult.status res <> processing /\
    outcomes res = length (StudentResult.documents res) /\
    (outcomes res <= StudentResult.totalDocs res)%nat /\
    (shouldStop s' = false -> outcomes res = StudentResult.totalDocs res).
Proof.
  eexists _, _. split; [vm_compute; reflexivity|].
  apply (outcomes_add_up_unless_stopped scenarioEnv "S1" "Ann" newScheduler).
  vm_compute. reflexivity.
Defined.

(** C2 as stated fails: a stop request arriving during the first of two
    chunks leaves a finalized subject (status [completed]) with
    [totalDocs = 3] and outcome counters that add up to 2. *)
Lemma stopped_subject_does_not_add_up :
  exists run res s',
    verifySingleStudent stoppingEnv 1 "S1" newScheduler =
      Returned (Some run) s' /\
    Run.students run = Some [res] /\
    StudentResult.status res = completed /\
    StudentResult.ended res = true /\
    StudentResult.totalDocs res = 3%nat /\
    (StudentResult.approved res + StudentResult.rejected res +
     StudentResult.errors res + StudentResult.skipped res)%nat = 2%nat /\
    (StudentResult.approved res + StudentResult.rejected res +
     StudentResult.errors res + StudentResult.skipped res)%nat <>
      StudentResult.totalDocs res.
Proof.
  eexists _, _, _. split; [vm_compute; reflexivity|].
  split; [reflexivity|]. vm_compute. repeat split; congruence.
Qed.

(** The order of completion matters only through the instants at which it
    is asked. *)
Section Order.
Variable env : Env.
Variables o o' : nat -> nat.
Hypothesis same : forall t, o t = o' t.

Lemma settleTasks_order turns : forall tasks s,
  settleTasks (reordered o env) turns tasks s =
  settleTasks (reordered o' env) turns tasks s.
Proof.
  induction turns as [|turns IH]; intros tasks s; cbn [settleTasks];
    destruct (pendingCount tasks); try reflexivity.
  apply bind_cong; [reflexivity|]. intros t s1.
  apply bind_cong; [reflexivity|]. intros _ s2.
  apply bind_cong; [simpl; by rewrite same|]. intros tasks' s3. apply IH.
Qed.

Lemma allSettled_order chunk s :
  allSettled (reordered o env) chunk s = allSettled (reordered o' env) chunk s.
Proof.
  unfold allSettled. apply bind_cong; [reflexivity|]. intros tasks s1.
  apply bind_cong; [reflexivity|]. intros cfg s2. apply settleTasks_order.
Qed.

Lemma processChunks_order applnID chunks : forall acc s,
  processChunks (reordered o env) applnID chunks acc s =
  processChunks (reordered o' env) applnID chunks acc s.
Proof.
  induction chunks as [|chunk rest IH]; intros acc s; [reflexivity|].
  rewrite !processChunks_cons. apply bind_cong; [reflexivity|].
  intros [|] s1; [reflexivity|].
  apply bind_cong; [apply allSettled_order|]. intros results s2.
  apply bind_cong; [reflexivity|]. intros acc' s3.
  apply bind_cong; [reflexivity|]. intros _ s4. apply IH.
Qed.

Lemma processStudent_order applnID studentName s :
  processStudent (reordered o env) applnID studentName s =
  processStudent (reordered o' env) applnID studentName s.
Proof.
  unfold processStudent. apply bind_cong; [reflexivity|].
  intros [resp|err] s1; [|reflexivity].
  destruct (if bool_decide (dl_status resp = 1) then dl_document_status resp else None)
    as [allDocs|]; [|reflexivity].
  apply bind_cong; [reflexivity|]. intros cfg s2.
  destruct (if skipAlreadyVerified cfg then _ else _) as [|d ds]; [reflexivity|].
  apply bind_cong; [reflexivity|]. intros cfg' s3.
  destruct (chunkArray _ _) as [chunks|]; [|reflexivity].
  apply bind_cong; [apply processChunks_order|]. intros [sr ups] s4. reflexivity.
Qed.
End Order.

(** C1 as stated fails: in the scenario the item C is filtered out before
    the pool and counted nowhere, so [skipped] is 0, not 1. *)
Lemma scenario_skipped_is_not_one :
  ~ exists res s',
      processStudent scenarioEnv "S1" "Ann" newScheduler = Returned res s' /\
      StudentResult.totalDocs res = 2%nat /\
      StudentResult.approved res = 1%nat /\
      StudentResult.rejected res = 1%nat /\
      StudentResult.skipped res = 1%nat /\
      StudentResult.errors res = 0%nat /\
      StudentResult.status res = completed.
Proof.
  intros (res & s' & Hrun & _ & _ & _ & Hsk & _).
  vm_compute in Hrun. inversion Hrun; subst. discriminate Hsk.
Qed.

Lemma scenarioHolds_sound (c : Completion StudentResult.t) :
  scenarioHolds c = true ->
  exists res s',
    c = Returned res s' /\
    StudentResult.totalDocs res = 2%nat /\
    StudentResult.approved res = 1%nat /\
    StudentResult.rejected res = 1%nat /\
    StudentResult.skipped res = 0%nat /\
    StudentResult.errors res = 0%nat /\
    StudentResult.status res = completed /\
    StudentResult.ended res = true /\
    (DocResult.document_label <$> StudentResult.documents res) = ["A"; "B"] /\
    delaysOf (effects s') = [2000; 4000] /\
    downloadsOf (effects s') =
      ["https://s3/a.pdf"; "https://s3/b.pdf"; "https://s3/a.pdf";
       "https://s3/a.pdf"].
Proof.
  destruct c as [res s'| |]; [|done..]. unfold scenarioHolds.
  rewrite !andb_true_iff, !bool_decide_eq_true.
  intros [[[[[[[[[? ?] ?] ?] ?] Hst] ?] ?] ?] ?].
  exists res, s'. repeat split; try done.
  by destruct (StudentResult.status res).
Qed.

(** The scenario holds whatever the first seven answers of the order of
    completion are; by then at most one task is pending. *)
Lemma scenario_any_order (order : nat -> nat) :
  scenarioHolds
    (processStudent (reordered order scenarioEnv) "S1" "Ann" newScheduler) = true.
Proof.
  rewrite (processStudent_order scenarioEnv order
    (fun t => match t with
              | 1 => order 1 | 2 => order 2 | 3 => order 3 | 4 => order 4
              | 5 => order 5 | 6 => order 6 | 7 => order 7 | _ => order t
              end)%nat).
  2:{ intros t. do 8 (destruct t as [|t]; [reflexivity|]). reflexivity. }
  generalize (order 1%nat) (order 2%nat) (order 3%nat) (order 4%nat)
             (order 5%nat) (order 6%nat) (order 7%nat).
  intros o1 o2 o3 o4 o5 o6 o7.
  destruct o1, o2, o3, o4, o5, o6, o7; vm_compute; reflexivity.
Qed.

(** C1, amended. In the scenario (concurrency 2, retryAttempts 3; A fails
    twice then is approved, B is rejected at once, C has no file), and
    whatever the order in which the remote operations of the two concurrent
    tasks complete, the finalized result has total = 2, approved = 1,
    rejected = 1, skipped = 0, errors = 0 and status completed, with the
    documents in the order of the list; A took three attempts, after delays
    of 2000 and 4000 ms, and the downloads were requested in the order A,
    B, A, A: both tasks are started before any answer comes. *)
Theorem scenario_result (order : nat -> nat) :
  concurrency (config newScheduler) = 2 /\
  retryAttempts (config newScheduler) = 3 /\
  exists res s',
    processStudent (reordered order scenarioEnv) "S1" "Ann" newScheduler =
      Returned res s' /\
    StudentResult.totalDocs res = 2%nat /\
    StudentResult.approved res = 1%nat /\
    StudentResult.rejected res = 1%nat /\
    StudentResult.skipped res = 0%nat /\
    StudentResult.errors res = 0%nat /\
    StudentResult.status res = completed /\
    StudentResult.ended res = true /\
    (DocResult.document_label <$> StudentResult.documents res) = ["A"; "B"] /\
    delaysOf (effects s') = [2000; 4000] /\
    downloadsOf (effects s') =
      ["https://s3/a.pdf"; "https://s3/b.pdf"; "https://s3/a.pdf";
       "https://s3/a.pdf"].
Proof.
  split; [reflexivity|]. split; [reflexivity|].
  apply scenarioHolds_sound, scenario_any_order.
Qed.

(** With the operations completing alternately, B is settled while A waits
    for its second attempt; with those of the first pending task always
    completing first, A is settled before B. *)
Lemma scenario_settling_orders :
  (exists res s',
     processStudent scenarioEnv "S1" "Ann" newScheduler = Returned res s' /\
     taskEvents (effects s') =
       [TaskStarted docA; TaskStarted docB; TaskSettled docB; TaskSettled docA]) /\
  (exists res s',
     processStudent (reordered (fun _ => 0%nat) scenarioEnv) "S1" "Ann"
       newScheduler = Returned res s' /\
     taskEvents (effects s') =
       [TaskStarted docA; TaskStarted docB; TaskSettled docA; TaskSettled docB]).
Proof.
  split; eexists _, _; (split; [vm_compute; reflexivity|]); reflexivity.
Qed.

Lemma entryOf_is_uploaded d : Entry.is_uploaded (entryOf d) = hasFile d.
Proof. reflexivity. Qed.

Lemma elem_of_concat_take {A} (chunks : list (list A)) k x :
  x ∈ concat (take k chunks) -> x ∈ concat chunks.
Proof.
  intros H. rewrite <- (take_drop k chunks), concat_app, elem_of_app. by left.
Qed.

(** C4, amended. An item lacking a content reference (its [file_url] is
    missing, empty or blank) is never passed to the backend:
    [verifyDocument] answers it with the skip verdict without any remote
    call, and [processStudent] starts no task and makes no download for it.
    No outcome is recorded for it: no entry of [documents] carries its
    [file_url], and an entry of [allDocuments] that is not uploaded keeps
    [ai_status = null] as long as no uploaded entry has its
    [document_type_id]. *)
Theorem no_file_is_never_verified env (doc : Doc.t) applnID studentName s :
  hasFile doc = false ->
  (exists s1, verifyDocument env doc s = Returned skipVerification s1 /\
     effects s1 = effects s) /\
  forall res s',
    processStudent env applnID studentName s = Returned res s' ->
    (exists new, effects s' = effects s ++ new /\
       (TaskStarted doc ∉ new) /\ (TaskSettled doc ∉ new) /\
       forall url, Doc.file_url doc = Some url ->
         Called (CallDownloadDocument url) ∉ new) /\
    (Doc.file_url doc ∉ (DocResult.file_url <$> StudentResult.documents res)) /\
    forall e, e ∈ StudentResult.allDocuments res ->
      Entry.is_uploaded e = false ->
      (forall e', e' ∈ StudentResult.allDocuments res ->
         Entry.is_uploaded e' = true ->
         Entry.document_type_id e' <> Entry.document_type_id e) ->
      Entry.ai_status e = None.
Proof.
  intros Hno. split.
  { destruct (verifyDocument_noFile env doc s Hno) as (s1 & E & Ef & _). eauto. }
  intros res s' Hrun.
  pose proof (processStudent_spec env applnID studentName s) as H.
  rewrite Hrun in H.
  destruct H as (_ & _ & _ & allDocs & cands & chunks & k & new & Hch & Hcands &
                 Hsub & _ & _ & _ & Hdocs & Hkeys & Hmem & Hef & _ & Hwith & _).
  apply chunkArray_concat in Hch. subst cands.
  rewrite Forall_forall in Hcands. rewrite Forall_forall in Hwith.
  split; [|split].
  - exists new. split; [done|]. repeat split.
    + intros Hin. apply Hwith in Hin. simpl in Hin. congruence.
    + intros Hin. apply Hwith in Hin. simpl in Hin. congruence.
    + intros url Hurl Hin. apply Hwith in Hin. simpl in Hin.
      unfold hasFile in Hno. rewrite Hurl in Hno. unfold urlPresent in Hin.
      simpl in Hno. congruence.
  - rewrite Hdocs. intros (d & Hurl & Hd)%list_elem_of_fmap.
    apply elem_of_concat_take, Hcands in Hd.
    unfold hasFile in Hd, Hno. rewrite <- Hurl in Hd. congruence.
  - intros e He Hup Huniq. destruct (Hmem e He) as [Hinit|Hid].
    + apply list_elem_of_fmap in Hinit as (d & -> & _). done.
    + apply list_elem_of_fmap in Hid as (d & Hid & Hd).
      apply elem_of_concat_take in Hd.
      assert (entryKey (entryOf d) ∈ entryKey <$> StudentResult.allDocuments res)
        as (e' & Hk & He')%list_elem_of_fmap.
      { rewrite Hkeys. apply list_elem_of_fmap_2, list_elem_of_fmap_2, Hsub, Hd. }
      unfold entryKey in Hk. rewrite entryOf_is_uploaded, (Hcands d Hd) in Hk.
      simpl in Hk. inversion Hk as [[Hid' Hup']].
      exfalso. apply (Huniq e' He'); [done|]. congruence.
Qed.

Lemma no_file_is_never_verified_example :
  (exists s1, verifyDocument scenarioEnv docC newScheduler =
                Returned skipVerification s1 /\
     effects s1 = effects newScheduler) /\
  forall res s',
    processStudent scenarioEnv "S1" "Ann" newScheduler = Returned res s' ->
    (exists new, effects s' = effects newScheduler ++ new /\
       (TaskStarted docC ∉ new) /\ (TaskSettled docC ∉ new) /\
       forall url, Doc.file_url docC = Some url ->
         Called (CallDownloadDocument url) ∉ new) /\
    (Doc.file_url docC ∉ (DocResult.file_url <$> StudentResult.documents res)) /\
    forall e, e ∈ StudentResult.allDocuments res ->
      Entry.is_uploaded e = false ->
      (forall e', e' ∈ StudentResult.allDocuments res ->
         Entry.is_uploaded e' = true ->
         Entry.document_type_id e' <> Entry.document_type_id e) ->
      Entry.ai_status e = None.
Proof.
  apply (no_file_is_never_verified scenarioEnv docC "S1" "Ann" newScheduler).
  reflexivity.
Defined.

(** C4 as stated fails: in the scenario the item C, which has no file, is
    not recorded as skipped. Its entry in the item list has no outcome
    ([ai_status] null), [documents] has no entry for it and the [skipped]
    counter is 0. *)
Lemma no_file_is_not_recorded_as_skipped :
  hasFile docC = false /\
  exists res s',
    processStudent scenarioEnv "S1" "Ann" newScheduler = Returned res s' /\
    List.filter
      (fun e => bool_decide (Entry.document_type_id e = Doc.document_type_id docC))
      (StudentResult.allDocuments res) = [entryOf docC] /\
    Entry.ai_status (entryOf docC) = None /\
    Entry.ai_status (entryOf docC) <> Some ai_skipped /\
    List.filter
      (fun d => bool_decide (DocResult.document_type_id d = Doc.document_type_id docC))
      (StudentResult.documents res) = [] /\
    StudentResult.skipped res = 0%nat.
Proof.
  split; [reflexivity|]. eexists _, _. split; [vm_compute; reflexivity|].
  vm_compute. repeat split; congruence.
Qed.

(** ** The worker pool *)

Lemma peakInFlight_ge n evs : (n <= peakInFlight n evs)%nat.
Proof.
  revert n. induction evs as [|e evs IH]; intros n; simpl; [lia|].
  destruct e; first [apply Nat.le_max_l | apply IH].
Qed.

Lemma peakInFlight_taskEvents n evs :
  peakInFlight n evs = peakInFlight n (taskEvents evs).
Proof.
  revert n. unfold taskEvents.
  induction evs as [|e evs IH]; intros n; [done|].
  destruct e; simpl; by rewrite ?IH.
Qed.

Lemma peakInFlight_app a : forall n b,
  peakInFlight n (a ++ b) =
  Nat.max (peakInFlight n a) (peakInFlight (inFlight n a) b).
Proof.
  induction a as [|e a IH]; intros n b.
  - simpl. pose proof (peakInFlight_ge n b). lia.
  - destruct e; simpl; rewrite IH; lia.
Qed.

(** No more tasks are in flight than were in flight or were started. *)
Lemma peakInFlight_started evs : forall n,
  (peakInFlight n evs <= n + length (startedDocs evs))%nat.
Proof.
  induction evs as [|e evs IH]; intros n; [simpl; lia|].
  rewrite startedDocs_cons.
  destruct e; simpl; try apply IH.
  - specialize (IH (S n)). lia.
  - specialize (IH (pred n)). lia.
Qed.

(** Chunks run one after another never have more tasks in flight than the
    largest of them has documents, and leave none in flight. *)
Lemma peakInFlight_runs (limit : nat) chunks runs :
  Forall2 chunkRun chunks runs ->
  Forall (fun c : list Doc.t => (length c <= limit)%nat) chunks ->
  (peakInFlight 0 (concat runs) <= limit)%nat /\ inFlight 0 (concat runs) = 0%nat.
Proof.
  induction 1 as [|chunk run chunks runs Hrun _ IH]; intros Hlen;
    [simpl; lia|].
  destruct Hrun as (Hst & _ & Hend).
  apply Forall_cons in Hlen as [Hc Hcs].
  destruct (IH Hcs) as [IHp IHe]. simpl concat.
  rewrite peakInFlight_app, inFlight_app, Hend. split; [|done].
  pose proof (peakInFlight_started run 0) as Hp. rewrite Hst in Hp. lia.
Qed.

(** C8. For a concurrency limit C >= 1: [chunkArray] cuts the documents
    into consecutive non-empty chunks of at most C elements whose
    concatenation is the list; the chunk loop always returns, after having
    run the first [k] chunks (all of them unless the stop flag is raised),
    whatever the order in which the remote operations of the concurrent
    tasks complete; the task events of its trace are those of these chunks
    one after another: for each chunk the start of every task, in the
    order of the chunk, and the settling of every task, in the order the
    event loop brings, with no task in flight left when the next chunk
    starts; every download and every call of the backend is made while a
    task is in flight; and at most C tasks are ever in flight, in the loop
    and in the whole processing of a subject under the limit C. *)
Theorem pool_runs_bounded_chunks env applnID (docs : list Doc.t) (C : Z) acc s :
  1 <= C ->
  (exists chunks,
     chunkArray docs C = Some chunks /\
     concat chunks = docs /\
     Forall (fun c => (1 <= length c)%nat /\ Z.of_nat (length c) <= C) chunks /\
     exists acc' s' k new,
       processChunks env applnID chunks acc s = Returned acc' s' /\
       effects s' = effects s ++ new /\
       (k <= length chunks)%nat /\
       (shouldStop s' = false -> k = length chunks) /\
       chunkRuns (take k chunks) (taskEvents new) /\
       callsInFlight 0 new /\
       Z.of_nat (peakInFlight 0 new) <= C) /\
  (forall studentName res s',
     concurrency (config s) = C ->
     processStudent env applnID studentName s = Returned res s' ->
     exists new,
       effects s' = effects s ++ new /\ Z.of_nat (peakInFlight 0 new) <= C).
Proof.
  intros HC.
  assert (Hpeak : forall (chunks : list (list Doc.t)) k new,
    Forall (fun c => (1 <= length c)%nat /\ Z.of_nat (length c) <= C) chunks ->
    chunkRuns (take k chunks) (taskEvents new) ->
    Z.of_nat (peakInFlight 0 new) <= C).
  { intros chunks k new Hlen (runs & T & Hruns).
    rewrite peakInFlight_taskEvents, T.
    destruct (peakInFlight_runs (Z.to_nat C) _ _ Hruns) as [Hp _]; [|lia].
    apply Forall_take.
    eapply Forall_impl; [exact Hlen|]. simpl. intros c [_ ?]. lia. }
  split.
  - destruct (chunkArray_spec docs C HC) as (chunks & E & Hcat & Hlen).
    exists chunks. split; [done|]. split; [done|]. split; [done|].
    destruct (processChunks_returns env applnID chunks acc s)
      as (acc' & s' & k & new & R & _ & Hk & _ & Ef & T & _ & Hall).
    exists acc', s', k, new. split; [done|]. split; [done|]. split; [done|].
    split; [done|]. split; [done|]. split; [|by eapply Hpeak].
    destruct (processChunks_calls env applnID chunks acc s)
      as (acc2 & s2 & new2 & R2 & Ef2 & Hcalls & _).
    rewrite R in R2. injection R2 as <- <-. rewrite Ef in Ef2.
    by apply app_inv_head in Ef2 as <-.
  - intros studentName res s' HCs Hrun.
    pose proof (processStudent_spec env applnID studentName s) as H.
    rewrite Hrun in H.
    destruct H as (_ & _ & _ & allDocs & cands & chunks & k & new & Hch & _ & _ &
                   _ & _ & _ & _ & _ & _ & Hef & T & _ & _).
    rewrite HCs in Hch.
    destruct (chunkArray_spec cands C HC) as (chunks' & E & _ & Hlen).
    assert (chunks' = chunks) as -> by congruence.
    exists new. split; [done|]. by eapply Hpeak.
Qed.

(** Three uploaded documents under the default limit of 2. *)
Lemma pool_runs_bounded_chunks_example :
  (exists chunks,
     chunkArray [docA; docB; docD] 2 = Some chunks /\
     concat chunks = [docA; docB; docD] /\
     Forall (fun c => (1 <= length c)%nat /\ Z.of_nat (length c) <= 2) chunks /\
     exists acc' s' k new,
       processChunks (steadyEnv [docA; docB; docD]) "S1" chunks
         (newStudentResult "S1" "Ann", []) newScheduler = Returned acc' s' /\
       effects s' = effects newScheduler ++ new /\
       (k <= length chunks)%nat /\
       (shouldStop s' = false -> k = length chunks) /\
       chunkRuns (take k chunks) (taskEvents new) /\
       callsInFlight 0 new /\
       Z.of_nat (peakInFlight 0 new) <= 2) /\
  (forall studentName res s',
     concurrency (config newScheduler) = 2 ->
     processStudent (steadyEnv [docA; docB; docD]) "S1" studentName
       newScheduler = Returned res s' ->
     exists new,
       effects s' = effects newScheduler ++ new /\
       Z.of_nat (peakInFlight 0 new) <= 2).
Proof.
  apply (pool_runs_bounded_chunks (steadyEnv [docA; docB; docD]) "S1"
           [docA; docB; docD] 2 (newStudentResult "S1" "Ann", []) newScheduler).
  lia.
Defined.

(** The chunks of that example, and the peak it reaches. *)
Lemma three_documents_two_chunks :
  chunkArray [docA; docB; docD] 2 = Some [[docA; docB]; [docD]] /\
  exists res s',
    processStudent (steadyEnv [docA; docB; docD]) "S1" "Ann" newScheduler =
      Returned res s' /\
    taskEvents (effects s') =
      [TaskStarted docA; TaskStarted docB; TaskSettled docB; TaskSettled docA;
       TaskStarted docD; TaskSettled docD] /\
    downloadsOf (effects s') =
      ["https://s3/a.pdf"; "https://s3/b.pdf"; "https://s3/d.pdf"] /\
    peakInFlight 0 (effects s') = 2%nat.
Proof.
  split; [reflexivity|]. eexists _, _. split; [vm_compute; reflexivity|].
  repeat split; reflexivity.
Qed.

(** A limit below 1 is outside the pool's domain: the loop of [chunkArray]
    does not end on a non-empty list, and [processStudent] with it. *)
Lemma no_limit_no_chunks :
  chunkArray [docA; docB] 0 = None /\
  processStudent (steadyEnv [docA; docB]) "S1" "Ann"
    (set_config
       {| concurrency := 0; retryAttempts := 3; retryDelayMs := 2000;
          delayBetweenStudentsMs := 1000; delayBetweenDocsMs := 500;
          skipAlreadyVerified := true |} newScheduler) = Diverged.
Proof. split; vm_compute; reflexivity. Qed.

(** ** Runs *)

Lemma find_last_only {A} (p : A -> bool) (l : list A) (x : A) :
  (forall y, y ∈ l -> p y = false) -> p x = true ->
  JS.find p (l ++ [x]) = Some x.
Proof.
  intros Hl Hx. induction l as [|y l IH]; simpl; [by rewrite Hx|].
  rewrite (Hl y) by (by left). apply IH. intros z Hz. apply Hl. by right.
Qed.

Lemma finishRun_run s r :
  currentRun s = Some r ->
  finishRun s =
  Returned tt
    (set_runs
       (if maxRuns s <? Z.of_nat (length (runs s ++ [Run.set_students None r]))
        then JS.sliceFrom (runs s ++ [Run.set_students None r]) (- maxRuns s)
        else runs s ++ [Run.set_students None r])
       (set_isRunning false s)).
Proof. intros Hr. unfold finishRun. run. simpl. rewrite Hr. by run. Qed.

(** C3, amended. [getRunDetail] yields the full per-subject detail of the
    scheduler's current run, while it is active and also after it has
    finalized, since [finishRun] does not clear [currentRun]; finalize pushes
    only the summary (with [students] stripped) into history, and that
    summary is what [getRunDetail] yields once a later run has become the
    current one. *)
Theorem run_detail_full_until_replaced (s : Scheduler) (r : Run.t) :
  currentRun s = Some r -> 0 <= maxRuns s ->
  getRunDetail (Run.id r) s = Some r /\
  exists s',
    finishRun s = Returned tt s' /\
    isRunning s' = false /\
    last (runs s') = Some (Run.set_students None r) /\
    Run.students (Run.set_students None r) = None /\
    getRunDetail (Run.id r) s' = Some r /\
    forall s'' r',
      runs s'' = runs s' -> currentRun s'' = Some r' ->
      Run.id r' <> Run.id r ->
      (forall old, old ∈ runs s -> Run.id old <> Run.id r) ->
      getRunDetail (Run.id r) s'' = Some (Run.set_students None r).
Proof.
  intros Hr Hm.
  assert (Hfull : forall s0, currentRun s0 = Some r ->
            getRunDetail (Run.id r) s0 = Some r).
  { intros s0 H0. unfold getRunDetail. rewrite H0. by rewrite bool_decide_eq_true_2. }
  split; [by apply Hfull|].
  eexists. split; [by apply finishRun_run|].
  destruct (pushed_history (runs s) (Run.set_students None r) (maxRuns s) Hm)
    as (k & Hk).
  split; [done|]. split; [simpl; rewrite Hk; apply last_snoc|].
  split; [done|]. split; [by apply Hfull|].
  intros s'' r' Hruns Hcur Hid Hold. unfold getRunDetail.
  rewrite Hcur, bool_decide_eq_false_2 by done.
  rewrite Hruns. simpl. rewrite Hk. apply find_last_only.
  - intros y Hy. apply bool_decide_eq_false_2, Hold.
    rewrite <- (take_drop k (runs s)), elem_of_app. by right.
  - by apply bool_decide_eq_true_2.
Qed.

(** A scheduler in the middle of a run. *)
Lemma run_detail_full_until_replaced_example :
  let r := Run.set_students (Some [newStudentResult "S1" "Ann"]) (newRun 7 1) in
  let s := set_currentRun (Some r) (set_isRunning true newScheduler) in
  getRunDetail (Run.id r) s = Some r /\
  exists s',
    finishRun s = Returned tt s' /\
    isRunning s' = false /\
    last (runs s') = Some (Run.set_students None r) /\
    Run.students (Run.set_students None r) = None /\
    getRunDetail (Run.id r) s' = Some r /\
    forall s'' r',
      runs s'' = runs s' -> currentRun s'' = Some r' ->
      Run.id r' <> Run.id r ->
      (forall old, old ∈ runs s -> Run.id old <> Run.id r) ->
      getRunDetail (Run.id r) s'' = Some (Run.set_students None r).
Proof.
  intros r s. apply (run_detail_full_until_replaced s r); [reflexivity|].
  simpl. lia.
Defined.

(** C3 as stated fails: once the on-demand run of the scenario has
    finalized (the flag is released, the summary is in history),
    [getRunDetail] still yields the run with its per-subject detail, not the
    summary. *)
Lemma finalized_run_keeps_detail :
  exists run res s',
    verifySingleStudent scenarioEnv 7 "S1" newScheduler =
      Returned (Some run) s' /\
    isRunning s' = false /\
    Run.status run = run_completed /\
    runs s' = [Run.set_students None run] /\
    getRunDetail 7 s' = Some run /\
    Run.students run = Some [res] /\
    getRunDetail 7 s' <> Some (Run.set_students None run).
Proof.
  eexists _, _, _. split; [vm_compute; reflexivity|].
  do 5 (split; [reflexivity|]). intros H. inversion H.
Qed.

(** C7. While a run is active, [runBatch] returns [null] and
    [verifySingleStudent] throws the busy error; neither changes the run,
    the history, the flags, the results, the configuration or the trace
    ([runBatch] writes one warning to the log). *)
Theorem start_is_rejected_while_running env runId applnID (s : Scheduler) :
  isRunning s = true ->
  (exists s',
     runBatch env runId s = Returned None s' /\
     currentRun s' = currentRun s /\ runs s' = runs s /\
     isRunning s' = isRunning s /\ shouldStop s' = shouldStop s /\
     studentResults s' = studentResults s /\ config s' = config s /\
     effects s' = effects s /\
     logs s' = logs (pushLog warn "Batch already running, skipping" None s)) /\
  verifySingleStudent env runId applnID s = Raised busy s.
Proof.
  intros Hr. split.
  - eexists. unfold runBatch. run. rewrite Hr. run.
    split; [reflexivity|]. by repeat split.
  - unfold verifySingleStudent. run. rewrite Hr. by run.
Qed.

Lemma start_is_rejected_while_running_example :
  let s := set_currentRun (Some (newRun 7 1)) (set_isRunning true newScheduler) in
  (exists s',
     runBatch scenarioEnv 8 s = Returned None s' /\
     currentRun s' = currentRun s /\ runs s' = runs s /\
     isRunning s' = isRunning s /\ shouldStop s' = shouldStop s /\
     studentResults s' = studentResults s /\ config s' = config s /\
     effects s' = effects s /\
     logs s' = logs (pushLog warn "Batch already running, skipping" None s)) /\
  verifySingleStudent scenarioEnv 8 "S1" s = Raised busy s.
Proof.
  intros s. apply (start_is_rejected_while_running scenarioEnv 8 "S1" s).
  reflexivity.
Defined.

Lemma updateRun_run f s r :
  currentRun s = Some r ->
  updateRun f s = Returned tt (set_currentRun (Some (f r)) s).
Proof. intros Hr. unfold updateRun, theRun. run. rewrite Hr. by run. Qed.

Lemma pushStudent_run result s r l :
  currentRun s = Some r -> Run.students r = Some l ->
  pushStudent result s =
  Returned tt
    (set_currentRun (Some (Run.set_students (Some (l ++ [result])) r)) s).
Proof.
  intros Hr Hl. unfold pushStudent, theRun. run. rewrite Hr. run.
  rewrite Hl. by run.
Qed.

(** C10, amended. With at least one retry attempt and a concurrency of at
    least 1, an on-demand run that starts returns a finalized run whose
    status is [completed] whatever the status of its subject, which shows
    only in the counters [completed], [skipped] and [errors] of the run. *)
Theorem single_run_always_completes env runId applnID (s : Scheduler) :
  isRunning s = false ->
  1 <= retryAttempts (config s) -> 1 <= concurrency (config s) ->
  exists res run s',
    verifySingleStudent env runId applnID s = Returned (Some run) s' /\
    Run.status run = run_completed /\ Run.ended run = true /\
    isRunning s' = false /\ currentRun s' = Some run /\
    Run.students run = Some [res] /\ Run.processed run = 1%nat /\
    StudentResult.status res <> processing /\
    Run.completed run =
      match StudentResult.status res with
      | completed | partial => 1%nat
      | _ => 0%nat
      end /\
    Run.skipped run =
      match StudentResult.status res with skipped => 1%nat | _ => 0%nat end /\
    Run.errors run =
      match StudentResult.status res with failed => 1%nat | _ => 0%nat end /\
    (0 <= maxRuns s -> last (runs s') = Some (Run.set_students None run)).
Proof.
  intros Hidle Hn Hc. unfold verifySingleStudent. run. rewrite Hidle. run.
  match goal with |- context [processStudent env applnID applnID ?s0] =>
    pose proof (processStudent_spec env applnID applnID s0) as Hsp;
    destruct (processStudent env applnID applnID s0) as [res s1| |]
  end; [|simpl in Hsp; lia..].
  destruct Hsp as (_ & F & Hst & _).
  assert (Hcur : currentRun s1 = Some (newRun runId 1)) by solve_frame.
  assert (Hmax : maxRuns s1 = maxRuns s) by solve_frame.
  assert (Hruns : runs s1 = runs s) by solve_frame.
  run. erewrite pushStudent_run by (exact Hcur || reflexivity). run.
  do 4 (erewrite updateRun_run by reflexivity; run).
  erewrite finishRun_run by reflexivity. run.
  eexists res, _, _. split; [reflexivity|].
  assert (Hlast : forall x : Run.t, 0 <= maxRuns s ->
    last (if maxRuns s1 <? Z.of_nat (length (runs s1 ++ [x]))
          then JS.sliceFrom (runs s1 ++ [x]) (- maxRuns s1)
          else runs s1 ++ [x]) = Some x).
  { intros x Hm. rewrite Hmax.
    destruct (pushed_history (runs s1) x (maxRuns s) Hm) as (k & ->).
    apply last_snoc. }
  unfold tallySingle.
  destruct (StudentResult.status res); try done; simpl;
    (do 6 (split; [reflexivity|])); (split; [done|]);
    (do 3 (split; [reflexivity|])); apply Hlast.
Qed.

(** The subject whose document list cannot be fetched fails; its run
    completes. *)
Lemma single_run_always_completes_example :
  exists res run s',
    verifySingleStudent (unreachableEnv "socket hang up") 7 "S1" newScheduler =
      Returned (Some run) s' /\
    Run.status run = run_completed /\ Run.ended run = true /\
    isRunning s' = false /\ currentRun s' = Some run /\
    Run.students run = Some [res] /\ Run.processed run = 1%nat /\
    StudentResult.status res <> processing /\
    Run.completed run =
      match StudentResult.status res with
      | completed | partial => 1%nat
      | _ => 0%nat
      end /\
    Run.skipped run =
      match StudentResult.status res with skipped => 1%nat | _ => 0%nat end /\
    Run.errors run =
      match StudentResult.status res with failed => 1%nat | _ => 0%nat end /\
    (0 <= maxRuns newScheduler ->
     last (runs s') = Some (Run.set_students None run)).
Proof.
  apply (single_run_always_completes (unreachableEnv "socket hang up") 7 "S1"
           newScheduler); [reflexivity | simpl; lia | simpl; lia].
Defined.

(** That subject's status is [failed], and the run counts one error. *)
Lemma failed_subject_completed_run :
  exists res run s',
    verifySingleStudent (unreachableEnv "socket hang up") 7 "S1" newScheduler =
      Returned (Some run) s' /\
    Run.students run = Some [res] /\
    StudentResult.status res = failed /\
    Run.status run = run_completed /\ Run.errors run = 1%nat.
Proof.
  eexists _, _, _. split; [vm_compute; reflexivity|]. by repeat split.
Qed.

(** A subject without any document is skipped; its run completes too. *)
Lemma skipped_subject_completed_run :
  exists res run s',
    verifySingleStudent (steadyEnv []) 7 "S1" newScheduler =
      Returned (Some run) s' /\
    Run.students run = Some [res] /\
    StudentResult.status res = skipped /\
    Run.status run = run_completed /\ Run.skipped run = 1%nat /\
    Run.errors run = 0%nat.
Proof.
  eexists _, _, _. split; [vm_compute; reflexivity|]. by repeat split.
Qed.

(** C10 as stated fails: an on-demand run that has started need not
    finalize.  Without a single attempt allowed nothing is invoked:
    [withRetry] throws [undefined], the [catch] of [processStudent] fails on
    [err.message] and [verifySingleStudent] throws before it reaches
    [finishRun]; the scheduler stays busy, the run stays [running] and is
    not in the history.  With a concurrency of 0 the loop of [chunkArray]
    does not end, and the run with it. *)
Lemma started_run_need_not_finalize :
  (let s :=
     set_config
       {| concurrency := 2; retryAttempts := 0; retryDelayMs := 2000;
          delayBetweenStudentsMs := 1000; delayBetweenDocsMs := 500;
          skipAlreadyVerified := true |} newScheduler in
   isRunning s = false /\
   exists e s',
     verifySingleStudent scenarioEnv 7 "S1" s = Raised e s' /\
     effects s' = [] /\ isRunning s' = true /\
     (Run.status <$> currentRun s') = Some running /\ runs s' = []) /\
  (let s :=
     set_config
       {| concurrency := 0; retryAttempts := 3; retryDelayMs := 2000;
          delayBetweenStudentsMs := 1000; delayBetweenDocsMs := 500;
          skipAlreadyVerified := true |} newScheduler in
   isRunning s = false /\
   verifySingleStudent scenarioEnv 7 "S1" s = Diverged).
Proof.
  split; intros s; (split; [reflexivity|]).
  - eexists _, _. split; [vm_compute; reflexivity|]. by repeat split.
  - vm_compute. reflexivity.
Qed.

(** A log buffer of capacity 0 keeps everything, [slice(-0)] being the whole
    array. *)
Lemma no_capacity_keeps_all :
  exists s',
    logAll [ {| level := info; message := "a"; data := None |};
             {| level := info; message := "b"; data := None |} ]
      (schedulerWithMaxLogs 0) = Returned tt s' /\
    length (logs s') = 2%nat.
Proof. eexists. split; [vm_compute; reflexivity|]. reflexivity. Qed.

(** * Further properties *)

(** ** The media type of a document *)

Lemma toLowerCaseChar_lower c : MediaType.isUpper (MediaType.toLowerCaseChar c) = false.
Proof. by destruct c as [[] [] [] [] [] [] [] []]. Qed.

Lemma toLowerCaseChar_idem c :
  MediaType.toLowerCaseChar (MediaType.toLowerCaseChar c) = MediaType.toLowerCaseChar c.
Proof. by destruct c as [[] [] [] [] [] [] [] []]. Qed.

Lemma toLowerCaseChar_dot c :
  bool_decide (MediaType.toLowerCaseChar c = "."%char) = bool_decide (c = "."%char).
Proof. by destruct c as [[] [] [] [] [] [] [] []]. Qed.

Lemma toLowerCase_noUpper s : MediaType.noUpper (MediaType.toLowerCase s) = true.
Proof.
  induction s as [|c s IH]; [done|]. simpl.
  by rewrite toLowerCaseChar_lower, IH.
Qed.

Lemma toLowerCase_idem s :
  MediaType.toLowerCase (MediaType.toLowerCase s) = MediaType.toLowerCase s.
Proof.
  induction s as [|c s IH]; [done|]. simpl.
  by rewrite toLowerCaseChar_idem, IH.
Qed.

Lemma afterLastDot_toLowerCase s :
  MediaType.afterLastDot (MediaType.toLowerCase s) =
  MediaType.toLowerCase <$> MediaType.afterLastDot s.
Proof.
  induction s as [|c s IH]; [done|]. simpl. rewrite IH.
  destruct (MediaType.afterLastDot s); [done|]. simpl.
  rewrite toLowerCaseChar_dot. by case_bool_decide.
Qed.

Lemma lastPiece_toLowerCase s :
  MediaType.lastPiece (MediaType.toLowerCase s) =
  MediaType.toLowerCase (MediaType.lastPiece s).
Proof.
  unfold MediaType.lastPiece. rewrite afterLastDot_toLowerCase.
  by destruct (MediaType.afterLastDot s).
Qed.

Ltac in_list := apply list_elem_of_In; simpl; tauto.

(** A lower-case extension that [extMap] inherits is [constructor] or
    [__proto__]; the other members of [Object.prototype] have a capital. *)
Lemma extMap_lower ext :
  MediaType.noUpper ext = true ->
  match MediaType.extMap ext with
  | Some (MediaType.Media m) => m ∈ MediaType.supported
  | Some (MediaType.Inherited p) =>
      p = ext /\ (ext = "constructor" \/ ext = "__proto__")
  | None => True
  end.
Proof.
  intros Hlow. unfold MediaType.extMap.
  do 6 (match goal with |- context [if bool_decide ?P then _ else _] =>
          destruct (bool_decide P); [in_list|] end).
  destruct (bool_decide (ext ∈ MediaType.objectPrototype)) eqn:Hin; [|done].
  apply bool_decide_eq_true, list_elem_of_In in Hin. split; [done|].
  simpl in Hin.
  repeat (destruct Hin as [<-|Hin]; [first [by auto | by vm_compute in Hlow]|]).
  done.
Qed.

(** X1. [getMediaType] throws exactly when the file name is missing, even
    if the content type would have decided. Otherwise it returns one of the
    five supported media types, unless the content type decides nothing and
    the extension is [constructor] or [__proto__]: then it returns what the
    object literal [extMap] inherits under that name, which is no string. *)
Theorem getMediaType_range (filename : option string) (contentType : string) :
  match MediaType.getMediaType filename contentType with
  | inr _ => filename = None
  | inl (MediaType.Media m) => filename <> None /\ m ∈ MediaType.supported
  | inl (MediaType.Inherited p) =>
      exists f, filename = Some f /\
        p = MediaType.toLowerCase (MediaType.lastPiece f) /\
        (p = "constructor" \/ p = "__proto__") /\
        MediaType.contentTypeDecides contentType = false
  end.
Proof.
  destruct filename as [f|]; [|done].
  unfold MediaType.getMediaType, MediaType.contentTypeDecides.
  pose proof (extMap_lower (MediaType.toLowerCase (MediaType.lastPiece f))
                (toLowerCase_noUpper _)) as Hext.
  assert (Hfrom :
    forall undecided : Prop, undecided ->
    match
      inl (default (MediaType.Media "image/jpeg")
             (MediaType.extMap (MediaType.toLowerCase (MediaType.lastPiece f))))
      : MediaType.t + Thrown
    with
    | inr _ => Some f = None
    | inl (MediaType.Media m) => Some f <> None /\ m ∈ MediaType.supported
    | inl (MediaType.Inherited p) =>
        exists f0, Some f = Some f0 /\
          p = MediaType.toLowerCase (MediaType.lastPiece f0) /\
          (p = "constructor" \/ p = "__proto__") /\ undecided
    end).
  { intros undecided Hun.
    destruct (MediaType.extMap _) as [[m|p]|]; simpl.
    - by split.
    - destruct Hext as [-> Hp]. by exists f.
    - split; [done|]. in_list. }
  destruct (JS.truthy contentType &&
            negb (bool_decide (contentType = "application/octet-stream")));
    [|by apply Hfrom].
  destruct (JS.includes contentType "jpeg"); [split; [done|]; in_list|].
  destruct (JS.includes contentType "jpg"); [split; [done|]; in_list|].
  destruct (JS.includes contentType "png"); [split; [done|]; in_list|].
  destruct (JS.includes contentType "gif"); [split; [done|]; in_list|].
  destruct (JS.includes contentType "webp"); [split; [done|]; in_list|].
  destruct (JS.includes contentType "pdf"); [split; [done|]; in_list|].
  by apply Hfrom.
Qed.

(** X2. [getMediaType] does not depend on the case of the file name. *)
Theorem getMediaType_ignores_case (filename contentType : string) :
  MediaType.getMediaType (Some (MediaType.toLowerCase filename)) contentType =
  MediaType.getMediaType (Some filename) contentType.
Proof.
  unfold MediaType.getMediaType.
  by rewrite lastPiece_toLowerCase, toLowerCase_idem.
Qed.

Lemma extMap_pdf ext :
  MediaType.extMap ext = Some (MediaType.Media "application/pdf") <-> ext = "pdf".
Proof.
  unfold MediaType.extMap. split.
  - destruct (bool_decide (ext = "jpg")); [by intros [=]|].
    destruct (bool_decide (ext = "jpeg")); [by intros [=]|].
    destruct (bool_decide (ext = "png")); [by intros [=]|].
    destruct (bool_decide (ext = "gif")); [by intros [=]|].
    destruct (bool_decide (ext = "webp")); [by intros [=]|].
    destruct (bool_decide (ext = "pdf")) eqn:Hpdf;
      [intros _; by apply bool_decide_eq_true in Hpdf|].
    by destruct (bool_decide (ext ∈ MediaType.objectPrototype)).
  - intros ->. done.
Qed.

(** X3. [verifyWithClaude] sends the file as a document block exactly in
    two cases: the content type is given, is not
    [application/octet-stream], contains [pdf] and none of [jpeg], [jpg],
    [png], [gif], [webp]; or the content type settles nothing and the
    lower-cased extension of the file name is [pdf]. In every other case
    the file is sent as an image, a PDF served under an image content type
    included. *)
Theorem pdf_is_sent_as_document (filename contentType : string) :
  (exists m,
     MediaType.getMediaType (Some filename) contentType = inl m /\
     MediaType.contentBlock m = MediaType.DocumentBlock) <->
  (JS.truthy contentType = true /\ contentType <> "application/octet-stream" /\
   JS.includes contentType "pdf" = true /\
   MediaType.imageMarked contentType = false) \/
  (MediaType.contentTypeDecides contentType = false /\
   MediaType.toLowerCase (MediaType.lastPiece filename) = "pdf").
Proof.
  unfold MediaType.getMediaType, MediaType.contentTypeDecides,
    MediaType.imageMarked, MediaType.contentBlock.
  assert (Hext : forall m,
    default (MediaType.Media "image/jpeg")
      (MediaType.extMap (MediaType.toLowerCase (MediaType.lastPiece filename))) = m ->
    m = MediaType.Media "application/pdf" ->
    MediaType.toLowerCase (MediaType.lastPiece filename) = "pdf").
  { intros m <- H. apply extMap_pdf.
    destruct (MediaType.extMap _) as [x|]; simpl in H; [by subst | done]. }
  destruct (JS.truthy contentType) eqn:Ht; cbn [andb]; cycle 1.
  { split.
    - intros (m & [= Hm] & Hb). right. split; [done|].
      case_bool_decide; [|done]. by eapply Hext.
    - intros [(? & _)|(_ & He)]; [done|]. rewrite He. by eexists. }
  case_bool_decide as Ho; cbn [negb andb].
  { split.
    - intros (m & [= Hm] & Hb). right. split; [done|].
      case_bool_decide; [|done]. by eapply Hext.
    - intros [(_ & ? & _)|(_ & He)]; [done|]. rewrite He. by eexists. }
  destruct (JS.includes contentType "jpeg"); cbn [orb].
  { split; [by intros (m & [= <-] & Hb) | intros [(_ & _ & _ & ?)|(? & _)]; done]. }
  destruct (JS.includes contentType "jpg"); cbn [orb].
  { split; [by intros (m & [= <-] & Hb) | intros [(_ & _ & _ & ?)|(? & _)]; done]. }
  destruct (JS.includes contentType "png"); cbn [orb].
  { split; [by intros (m & [= <-] & Hb) | intros [(_ & _ & _ & ?)|(? & _)]; done]. }
  destruct (JS.includes contentType "gif"); cbn [orb].
  { split; [by intros (m & [= <-] & Hb) | intros [(_ & _ & _ & ?)|(? & _)]; done]. }
  destruct (JS.includes contentType "webp"); cbn [orb].
  { split; [by intros (m & [= <-] & Hb) | intros [(_ & _ & _ & ?)|(? & _)]; done]. }
  destruct (JS.includes contentType "pdf"); cbn [orb].
  { split; [intros _; by left | intros _; by eexists]. }
  split.
  - intros (m & [= Hm] & Hb). right. split; [done|].
    case_bool_decide; [|done]. by eapply Hext.
  - intros [(_ & _ & ? & _)|(_ & He)]; [done|]. rewrite He. by eexists.
Qed.

(** ** Reading the log buffer *)

(** X4. For a limit of at least 1, [getLogs] returns the newest entries of
    the buffer, in the order of the buffer: as many as the limit, or all of
    them when the buffer holds fewer. *)
Theorem getLogs_newest (limit : Z) (s : Scheduler) :
  1 <= limit ->
  (exists older, logs s = older ++ getLogs limit s) /\
  length (getLogs limit s) = Nat.min (Z.to_nat limit) (length (logs s)).
Proof.
  intros Hl. unfold getLogs. rewrite sliceFrom_neg by done. unfold lastN. split.
  - exists (take (length (logs s) - Z.to_nat limit) (logs s)).
    by rewrite take_drop.
  - rewrite length_drop. lia.
Qed.

Lemma getLogs_newest_example :
  let e := fun m => {| level := info; message := m; data := None |} in
  let s := set_logs [e "a"; e "b"; e "c"] newScheduler in
  (exists older, logs s = older ++ getLogs 2 s) /\
  length (getLogs 2 s) = Nat.min (Z.to_nat 2) (length (logs s)).
Proof. intros e s. apply (getLogs_newest 2 s). lia. Defined.

(** X5. A limit of 0 does not give an empty answer: [getLogs(0)] is the whole
    buffer, [slice(-0)] being [slice(0)]. A negative limit [-k] drops the [k]
    oldest entries. *)
Theorem getLogs_without_limit (limit : Z) (s : Scheduler) :
  limit <= 0 ->
  getLogs limit s = drop (Z.to_nat (- limit)) (logs s) /\
  (limit = 0 -> getLogs limit s = logs s).
Proof.
  intros Hl.
  assert (H : getLogs limit s = drop (Z.to_nat (- limit)) (logs s)).
  { unfold getLogs, JS.sliceFrom, JS.relativeIndex.
    destruct (Z.ltb_spec (- limit) 0); [lia|].
    destruct (Z.le_gt_cases (- limit) (Z.of_nat (length (logs s)))).
    - f_equal. lia.
    - rewrite !drop_ge; [done|lia..]. }
  split; [done|]. intros ->. by rewrite H.
Qed.

Lemma getLogs_without_limit_example :
  let e := fun m => {| level := info; message := m; data := None |} in
  let s := set_logs [e "a"; e "b"; e "c"] newScheduler in
  getLogs 0 s = drop (Z.to_nat (- 0)) (logs s) /\
  (0 = 0 -> getLogs 0 s = logs s).
Proof. intros e s. apply (getLogs_without_limit 0 s). lia. Defined.

(** ** The history of runs *)

(** X6. With a capacity of at least 1, [finishRun] releases the flag and
    leaves in history the last [maxRuns] summaries of the former history
    extended by the summary of the current run: the history never exceeds its
    capacity once it is within it, and the oldest summaries are evicted
    first. The current run, the results and the log are left alone. *)
Theorem finishRun_bounds_history (s : Scheduler) (r : Run.t) :
  1 <= maxRuns s -> currentRun s = Some r ->
  exists s',
    finishRun s = Returned tt s' /\
    isRunning s' = false /\
    runs s' = lastN (Z.to_nat (maxRuns s)) (runs s ++ [Run.set_students None r]) /\
    Z.of_nat (length (runs s')) <= maxRuns s /\
    currentRun s' = currentRun s /\ logs s' = logs s /\
    studentResults s' = studentResults s /\ shouldStop s' = shouldStop s.
Proof.
  intros Hm Hr. eexists. split; [by apply finishRun_run|]. simpl.
  split; [done|].
  assert (Hk :
    (if maxRuns s <? Z.of_nat (length (runs s ++ [Run.set_students None r]))
     then JS.sliceFrom (runs s ++ [Run.set_students None r]) (- maxRuns s)
     else runs s ++ [Run.set_students None r]) =
    lastN (Z.to_nat (maxRuns s)) (runs s ++ [Run.set_students None r])).
  { destruct (Z.ltb_spec (maxRuns s)
                (Z.of_nat (length (runs s ++ [Run.set_students None r])))).
    - by apply sliceFrom_neg.
    - unfold lastN. by replace (_ - _)%nat with 0%nat by lia. }
  rewrite Hk. split; [done|]. split; [|done].
  pose proof (lastN_length (Z.to_nat (maxRuns s))
                (runs s ++ [Run.set_students None r])). lia.
Qed.

Lemma finishRun_bounds_history_example :
  let r := newRun 7 1 in
  let s := set_currentRun (Some r) (set_isRunning true newScheduler) in
  exists s',
    finishRun s = Returned tt s' /\
    isRunning s' = false /\
    runs s' = lastN (Z.to_nat (maxRuns s)) (runs s ++ [Run.set_students None r]) /\
    Z.of_nat (length (runs s')) <= maxRuns s /\
    currentRun s' = currentRun s /\ logs s' = logs s /\
    studentResults s' = studentResults s /\ shouldStop s' = shouldStop s.
Proof.
  intros r s. apply (finishRun_bounds_history s r); [simpl; lia | reflexivity].
Defined.

(** ** Chunks *)

Lemma chunkLoop_shape {A} (arr : list A) (size : Z) (Hs : 1 <= size) fuel :
  forall (n : nat) (acc : list (list A)),
  (length arr - n * Z.to_nat size < fuel)%nat ->
  length acc = n ->
  (forall i c, acc !! i = Some c ->
     c = take (Z.to_nat size) (drop (i * Z.to_nat size) arr)) ->
  exists chunks,
    chunkLoop fuel arr size (Z.of_nat (n * Z.to_nat size)) acc = Some chunks /\
    (forall i c, chunks !! i = Some c ->
       c = take (Z.to_nat size) (drop (i * Z.to_nat size) arr)) /\
    (n * Z.to_nat size < length arr ->
     (length chunks - 1) * Z.to_nat size < length arr <=
       length chunks * Z.to_nat size)%nat /\
    (length arr <= n * Z.to_nat size -> length chunks = n)%nat.
Proof.
  induction fuel as [|fuel IH]; intros n acc Hfuel Hn Hacc; [lia|].
  simpl.
  destruct (Z.ltb_spec (Z.of_nat (n * Z.to_nat size)) (Z.of_nat (length arr)))
    as [Hlt|Hge].
  - rewrite slice_chunk by lia.
    replace (Z.of_nat (n * Z.to_nat size) + size)
      with (Z.of_nat (S n * Z.to_nat size)) by lia.
    destruct (IH (S n)
                (acc ++ [take (Z.to_nat size) (drop (n * Z.to_nat size) arr)]))
      as (chunks & E & Hshape & Hcount & Hdone).
    + lia.
    + rewrite length_app. simpl. lia.
    + intros i c Hi. destruct (decide (i < n)%nat) as [Hin|Hin].
      * rewrite lookup_app_l in Hi by lia. by apply Hacc.
      * rewrite lookup_app_r in Hi by lia.
        destruct (i - length acc)%nat eqn:Hd; [|by destruct n0].
        simpl in Hi. assert (i = n) as -> by lia. congruence.
    + exists chunks. split; [exact E|]. split; [exact Hshape|]. split; [|lia].
      intros _.
      destruct (decide (S n * Z.to_nat size < length arr)%nat) as [Hmore|Hlast].
      * by apply Hcount.
      * rewrite Hdone by lia. lia.
  - exists acc. split; [done|]. split; [done|]. split; [lia|done].
Qed.

(** X7. For a size of at least 1, the chunk number [i] of [chunkArray] is
    the [size] elements of the array from position [i * size] on (fewer at
    the end of the array), and there are as many chunks as it takes to cover
    the array: every chunk but the last is full, and an empty array gives no
    chunk. *)
Theorem chunkArray_shape {A} (arr : list A) (size : Z) :
  1 <= size ->
  exists chunks,
    chunkArray arr size = Some chunks /\
    (forall i c, chunks !! i = Some c ->
       c = take (Z.to_nat size) (drop (i * Z.to_nat size) arr)) /\
    (forall i c, chunks !! i = Some c -> (S i < length chunks)%nat ->
       length c = Z.to_nat size) /\
    ((length chunks - 1) * Z.to_nat size <= length arr <=
       length chunks * Z.to_nat size)%nat /\
    (arr = [] -> chunks = []).
Proof.
  intros Hs. unfold chunkArray.
  destruct (chunkLoop_shape arr size Hs (S (length arr)) 0 [])
    as (chunks & E & Hshape & Hcount & Hdone); [simpl; lia | done | done |].
  simpl in E. exists chunks. split; [exact E|]. split; [exact Hshape|].
  assert (Hbounds :
    ((length chunks - 1) * Z.to_nat size <= length arr <=
       length chunks * Z.to_nat size)%nat).
  { destruct (decide (0 < length arr)%nat) as [Hpos|Hzero].
    - simpl in Hcount. specialize (Hcount Hpos). lia.
    - rewrite Hdone by (simpl; lia). simpl. lia. }
  split; [|split; [exact Hbounds|]].
  - intros i c Hi Hnext. rewrite (Hshape i c Hi), length_take, length_drop.
    assert (S i * Z.to_nat size <= (length chunks - 1) * Z.to_nat size)%nat
      by (apply Nat.mul_le_mono_r; lia).
    lia.
  - intros ->. destruct chunks as [|c chunks]; [done|].
    simpl in Hdone. specialize (Hdone ltac:(lia)). done.
Qed.

Lemma chunkArray_shape_example :
  exists chunks,
    chunkArray [docA; docB; docD] 2 = Some chunks /\
    (forall i c, chunks !! i = Some c ->
       c = take (Z.to_nat 2) (drop (i * Z.to_nat 2) [docA; docB; docD])) /\
    (forall i c, chunks !! i = Some c -> (S i < length chunks)%nat ->
       length c = Z.to_nat 2) /\
    ((length chunks - 1) * Z.to_nat 2 <= length [docA; docB; docD] <=
       length chunks * Z.to_nat 2)%nat /\
    ([docA; docB; docD] = [] -> chunks = []).
Proof. apply (chunkArray_shape [docA; docB; docD] 2). lia. Defined.

(** ** Invariants of the chunk loop *)

Section Undisturbed.

Variable env : Env.
Variable allowed : Effect -> Prop.
Variable I : Scheduler -> Prop.
Hypothesis HI : undisturbed env allowed I.

Section Pool.

Hypothesis pool_allowed : forall e, poolEvent e -> allowed e.

Lemma keeps_verifyDocument doc : keeps I (verifyDocument env doc).
Proof.
  unfold verifyDocument. destruct (noFile doc).
  - apply keeps_bind; [apply (keeps_log _ _ _ HI) | intros; apply keeps_ret].
  - apply (keeps_withRetry _ _ _ HI); [intros; by apply pool_allowed|].
    intros attempt. unfold downloadAndVerify.
    apply keeps_bind; [|intros]; apply (keeps_await _ _ _ HI);
      by apply pool_allowed.
Qed.

Lemma keeps_allSettled chunk : keeps I (allSettled env chunk).
Proof.
  intros s Hs.
  destruct (allSettled_reaches env chunk s) as (rs & s' & evs & E & _ & R & Hev & _).
  rewrite E. eapply reach_keeps; [exact HI | | | exact R | exact Hs].
  - intros e He. by apply pool_allowed, documentStep_poolEvent.
  - eapply Forall_impl; [exact Hev|].
    intros [] ?; try done; by apply pool_allowed.
Qed.

Lemma keeps_mergeResult applnID doc result acc :
  keeps I (mergeResult applnID doc result acc).
Proof.
  unfold mergeResult. destruct acc as [sr ups], result as [v|reason].
  - case_bool_decide;
      (apply keeps_bind; [apply (keeps_log _ _ _ HI) | intros; apply keeps_ret]).
  - apply keeps_bind; [apply (keeps_log _ _ _ HI) | intros; apply keeps_ret].
Qed.

Lemma keeps_mergeResults applnID settled : forall acc,
  keeps I (mergeResults applnID settled acc).
Proof.
  induction settled as [|[doc result] rest IH]; intros acc; [apply keeps_ret|].
  rewrite mergeResults_cons.
  apply keeps_bind; [apply keeps_mergeResult | intros; apply IH].
Qed.

Lemma keeps_processChunks applnID chunks : forall acc,
  keeps I (processChunks env applnID chunks acc).
Proof.
  induction chunks as [|chunk rest IH]; intros acc; [apply keeps_ret|].
  rewrite processChunks_cons. apply keeps_bind; [apply keeps_gets|].
  intros [|].
  - apply keeps_bind; [apply (keeps_log _ _ _ HI) | intros; apply keeps_ret].
  - apply keeps_bind; [apply keeps_allSettled|]. intros results.
    apply keeps_bind; [apply keeps_mergeResults|]. intros acc'.
    apply keeps_bind; [|intros; apply IH].
    destruct rest; [apply keeps_ret|].
    apply keeps_bind; [apply keeps_gets|]. intros.
    apply (keeps_sleep _ _ _ HI). by apply pool_allowed.
Qed.

End Pool.

End Undisturbed.

(** ** The decisive attempt *)

Section Decisive.

Variable env : Env.
Context {A : Type} (c : Call) (answer : Z -> nat -> Outcome A) (label : string).

(** [k] attempts that fail with errors that are retried, none of them the
    last one allowed, lead to the attempt that follows them. *)
Lemma retryLoop_skips_failures k : forall attempt lastError s fuel,
  (forall i t, attempt <= i < attempt + Z.of_nat k ->
     exists m, answer i t = Rejected m /\ nonRetryable m = false) ->
  attempt + Z.of_nat k <= retryAttempts (config s) ->
  exists lastError' s',
    retryLoop env (fun a => await env c (answer a)) label (k + fuel) attempt
      lastError s =
    retryLoop env (fun a => await env c (answer a)) label fuel
      (attempt + Z.of_nat k) lastError' s' /\
    frame s s' /\
    effects s' =
      effects s ++
      exhaustedTrace c (retryDelayMs (config s)) (retryAttempts (config s))
        attempt k.
Proof.
  induction k as [|k IH]; intros attempt lastError s fuel Hfail Hk.
  - exists lastError, s. rewrite Z.add_0_r, app_nil_r.
    split; [done|]. split; [apply frame_refl | done].
  - change (S k + fuel)%nat with (S (k + fuel)). simpl retryLoop. run.
    destruct (Z.leb_spec attempt (retryAttempts (config s))); [|lia]. run.
    destruct (await_spec env c (answer attempt) s) as (s1 & F1 & E1 & R1).
    destruct (Hfail attempt (clock s)) as (m & Hm & Hr); [lia|].
    rewrite R1, Hm. unfold messageOf. run. rewrite or_else_empty, Hr. run.
    assert (Hc : config s1 = config s) by solve_frame. rewrite !Hc.
    destruct (Z.ltb_spec attempt (retryAttempts (config s))); [|lia]. run.
    match goal with |- context [sleep env ?d ?st] =>
      destruct (sleep_returns env d st) as (s2 & E2 & F2 & Ef2) end.
    rewrite E2.
    assert (Hc2 : config s2 = config s).
    { pose proof (pushLog_frame warn "" None s1). solve_frame. }
    destruct (IH (attempt + 1) (ThrownError m) s2 fuel)
      as (lastError' & s' & R & F & Ef).
    { intros i t Hi. apply Hfail. lia. }
    { rewrite Hc2. lia. }
    exists lastError', s'. split.
    { rewrite R. f_equal. lia. }
    split.
    { eapply frame_trans; [exact F1|]. eapply frame_trans; [|exact F].
      eapply frame_trans; [|exact F2]. apply pushLog_frame. }
    rewrite Ef, Ef2, pushLog_effects, E1, Hc2.
    change (exhaustedTrace c (retryDelayMs (config s)) (retryAttempts (config s))
              attempt (S k))
      with (Called c ::
            (if attempt <? retryAttempts (config s)
             then [Slept (retryDelayMs (config s) * 2 ^ (attempt - 1))] else []) ++
            exhaustedTrace c (retryDelayMs (config s)) (retryAttempts (config s))
              (attempt + 1) k).
    destruct (Z.ltb_spec attempt (retryAttempts (config s))); [|lia].
    by rewrite <- !app_assoc.
Qed.

End Decisive.

Lemma attemptsMade_app a b :
  attemptsMade (a ++ b) = (attemptsMade a + attemptsMade b)%nat.
Proof. unfold attemptsMade. by rewrite List.filter_app, length_app. Qed.

Lemma delaysOf_app a b : delaysOf (a ++ b) = delaysOf a ++ delaysOf b.
Proof. unfold delaysOf. apply omap_app. Qed.

(** The delays of [k] failed attempts none of which is the last one
    allowed. *)
Lemma delaysOf_failures c base final k : forall attempt,
  attempt + Z.of_nat k <= final ->
  delaysOf (exhaustedTrace c base final attempt k) =
  (fun j => base * 2 ^ (j - 1)) <$> seqZ attempt (Z.of_nat k).
Proof.
  unfold delaysOf.
  induction k as [|k IH]; intros attempt Hk; [done|]. simpl exhaustedTrace.
  destruct (Z.ltb_spec attempt final); [|lia].
  simpl. rewrite IH by lia.
  rewrite (seqZ_cons attempt) by lia. simpl. do 3 f_equal; lia.
Qed.

(** X8. An operation (a remote call) that fails with retried errors on its
    attempts before the [j]-th and resolves on the [j]-th, [j] being within
    the attempts allowed: [withRetry] returns the value of the [j]-th
    attempt, after exactly [j] invocations and a delay of
    [retryDelayMs * 2^(i-1)] after each failed attempt [i]. *)
Theorem withRetry_recovers env {A} (c : Call) (answer : Z -> nat -> Outcome A)
    (label : string) (s : Scheduler) (j : Z) (v : A) :
  1 <= j <= retryAttempts (config s) ->
  (forall i t, 1 <= i < j ->
     exists m, answer i t = Rejected m /\ nonRetryable m = false) ->
  (forall t, answer j t = Resolved v) ->
  exists s' new,
    withRetry env (fun attempt => await env c (answer attempt)) label s =
      Returned v s' /\
    effects s' = effects s ++ new /\
    Z.of_nat (attemptsMade new) = j /\
    delaysOf new =
      (fun i => retryDelayMs (config s) * 2 ^ (i - 1)) <$> seqZ 1 (j - 1) /\
    last new = Some (Called c).
Proof.
  intros Hj Hfail Hres. unfold withRetry. run.
  destruct (retryLoop_skips_failures env c answer label (Z.to_nat (j - 1)) 1
              ThrownUndefined s
              (S (Z.to_nat (retryAttempts (config s))) - Z.to_nat (j - 1)))
    as (lastError' & s1 & R & F & Ef).
  { intros i t Hi. apply Hfail. lia. }
  { lia. }
  replace (Z.to_nat (j - 1) +
           (S (Z.to_nat (retryAttempts (config s))) - Z.to_nat (j - 1)))%nat
    with (S (Z.to_nat (retryAttempts (config s)))) in R by lia.
  rewrite R.
  destruct (S (Z.to_nat (retryAttempts (config s))) - Z.to_nat (j - 1))%nat
    as [|fuel] eqn:Hfuel; [lia|].
  simpl retryLoop. run.
  assert (Hc : config s1 = config s) by solve_frame. rewrite Hc.
  destruct (Z.leb_spec (1 + Z.of_nat (Z.to_nat (j - 1)))
              (retryAttempts (config s))); [|lia].
  run.
  destruct (await_spec env c (answer (1 + Z.of_nat (Z.to_nat (j - 1)))) s1)
    as (s2 & F2 & E2 & R2).
  replace (1 + Z.of_nat (Z.to_nat (j - 1))) with j in * by lia.
  rewrite R2, Hres. run.
  eexists s2, _. split; [reflexivity|]. split.
  { rewrite E2, Ef, <- app_assoc. reflexivity. }
  split.
  { rewrite attemptsMade_app, attemptsMade_exhaustedTrace.
    change (attemptsMade [Called c]) with 1%nat. lia. }
  split.
  { rewrite delaysOf_app, delaysOf_failures by lia.
    change (delaysOf [Called c]) with (@nil Z).
    rewrite app_nil_r. do 2 f_equal. lia. }
  apply last_snoc.
Qed.

(** The download of the document A of the scenario: two failures, then the
    file. *)
Lemma withRetry_recovers_example :
  let env := scenarioEnv in
  let s := newScheduler in
  let url := "https://s3/a.pdf" in
  let c := CallDownloadDocument url in
  exists s' new,
    withRetry env (fun attempt => await env c (downloadDocument env url attempt))
      "Verify A" s =
      Returned {| buffer := url; contentType := "application/pdf" |} s' /\
    effects s' = effects s ++ new /\
    Z.of_nat (attemptsMade new) = 3 /\
    delaysOf new =
      (fun i => retryDelayMs (config s) * 2 ^ (i - 1)) <$> seqZ 1 (3 - 1) /\
    last new = Some (Called c).
Proof.
  intros env s url c.
  apply (withRetry_recovers env c (downloadDocument env url) "Verify A" s 3
           {| buffer := url; contentType := "application/pdf" |}).
  - simpl. lia.
  - intros i t Hi. exists "socket hang up". split; [|vm_compute; reflexivity].
    simpl. destruct (Z.ltb_spec i 3); [reflexivity | lia].
  - intros t. reflexivity.
Defined.

(** X9. An operation that fails with retried errors on its attempts before
    the [j]-th and, on the [j]-th, with an error that bears an
    authentication, quota or rate-limit signature: [withRetry] rethrows that
    error after exactly [j] invocations, without waiting after it, whatever
    the number of attempts left; the error is the newest entry of the log. *)
Theorem withRetry_gives_up_at env {A} (c : Call)
    (answer : Z -> nat -> Outcome A) (label : string) (s : Scheduler) (j : Z)
    (m : string) :
  1 <= j <= retryAttempts (config s) ->
  (forall i t, 1 <= i < j ->
     exists m', answer i t = Rejected m' /\ nonRetryable m' = false) ->
  (forall t, answer j t = Rejected m) ->
  nonRetryable m = true ->
  exists s' new,
    withRetry env (fun attempt => await env c (answer attempt)) label s =
      Raised (ThrownError m) s' /\
    effects s' = effects s ++ new /\
    Z.of_nat (attemptsMade new) = j /\
    delaysOf new =
      (fun i => retryDelayMs (config s) * 2 ^ (i - 1)) <$> seqZ 1 (j - 1) /\
    last new = Some (Called c) /\
    (0 <= maxLogs s ->
     last (logs s') =
       Some {| level := error;
               message := label +:+ " failed with non-retryable error: " +:+ m;
               data := None |}).
Proof.
  intros Hj Hfail Hrej Hm. unfold withRetry. run.
  destruct (retryLoop_skips_failures env c answer label (Z.to_nat (j - 1)) 1
              ThrownUndefined s
              (S (Z.to_nat (retryAttempts (config s))) - Z.to_nat (j - 1)))
    as (lastError' & s1 & R & F & Ef).
  { intros i t Hi. apply Hfail. lia. }
  { lia. }
  replace (Z.to_nat (j - 1) +
           (S (Z.to_nat (retryAttempts (config s))) - Z.to_nat (j - 1)))%nat
    with (S (Z.to_nat (retryAttempts (config s)))) in R by lia.
  rewrite R.
  destruct (S (Z.to_nat (retryAttempts (config s))) - Z.to_nat (j - 1))%nat
    as [|fuel] eqn:Hfuel; [lia|].
  simpl retryLoop. run.
  assert (Hc : config s1 = config s) by solve_frame. rewrite Hc.
  destruct (Z.leb_spec (1 + Z.of_nat (Z.to_nat (j - 1)))
              (retryAttempts (config s))); [|lia].
  run.
  destruct (await_spec env c (answer (1 + Z.of_nat (Z.to_nat (j - 1)))) s1)
    as (s2 & F2 & E2 & R2).
  replace (1 + Z.of_nat (Z.to_nat (j - 1))) with j in * by lia.
  rewrite R2, Hrej. unfold messageOf. run. rewrite or_else_empty, Hm. run.
  eexists _, _. split; [reflexivity|]. split.
  { rewrite pushLog_effects, E2, Ef, <- app_assoc. reflexivity. }
  split.
  { rewrite attemptsMade_app, attemptsMade_exhaustedTrace.
    change (attemptsMade [Called c]) with 1%nat. lia. }
  split.
  { rewrite delaysOf_app, delaysOf_failures by lia.
    change (delaysOf [Called c]) with (@nil Z).
    rewrite app_nil_r. do 2 f_equal. lia. }
  split; [apply last_snoc|].
  intros Hcap. unfold pushLog. simpl.
  assert (maxLogs s2 = maxLogs s) as -> by solve_frame.
  match goal with |- last (if _ <? Z.of_nat (length (?l ++ [?x])) then _ else _) = _ =>
    destruct (pushed_history l x (maxLogs s) Hcap) as (k & ->) end.
  apply last_snoc.
Qed.

(** A token that Atlas refuses on the second request. *)
Lemma withRetry_gives_up_at_example :
  let env := revokedEnv in
  let s := newScheduler in
  let c := CallGetDocumentList "S1" in
  let m := "Request failed with status code 401" in
  exists s' new,
    withRetry env (fun attempt => await env c (getDocumentList env "S1" attempt))
      "Fetch docs for S1" s = Raised (ThrownError m) s' /\
    effects s' = effects s ++ new /\
    Z.of_nat (attemptsMade new) = 2 /\
    delaysOf new =
      (fun i => retryDelayMs (config s) * 2 ^ (i - 1)) <$> seqZ 1 (2 - 1) /\
    last new = Some (Called c) /\
    (0 <= maxLogs s ->
     last (logs s') =
       Some {| level := error;
               message :=
                 "Fetch docs for S1" +:+ " failed with non-retryable error: "
                 +:+ m;
               data := None |}).
Proof.
  intros env s c m.
  apply (withRetry_gives_up_at env c (getDocumentList env "S1")
           "Fetch docs for S1" s 2 m).
  - simpl. lia.
  - intros i t Hi. exists "socket hang up". split; [|vm_compute; reflexivity].
    simpl. destruct (Z.ltb_spec i 2); [reflexivity | lia].
  - intros t. reflexivity.
  - vm_compute. reflexivity.
Defined.

(** ** One subject in detail *)

Lemma mergeResult_updates applnID doc result sr ups s sr' ups' s' :
  mergeResult applnID doc result (sr, ups) s = Returned (sr', ups') s' ->
  (length ups' + reported sr = length ups + reported sr')%nat.
Proof.
  unfold mergeResult, reported. destruct result as [v|reason].
  - case_bool_decide; [run; intros [= <- <- <-]; simpl; lia|].
    case_bool_decide; run; intros [= <- <- <-]; rewrite length_app; simpl; lia.
  - run. intros [= <- <- <-]. rewrite length_app. simpl. lia.
Qed.

Lemma mergeResults_updates applnID settled : forall sr ups s sr' ups' s',
  mergeResults applnID settled (sr, ups) s = Returned (sr', ups') s' ->
  (length ups' + reported sr = length ups + reported sr')%nat.
Proof.
  induction settled as [|[doc result] rest IH]; intros sr ups s sr' ups' s'.
  - simpl. run. intros [= <- <- <-]. lia.
  - rewrite mergeResults_cons. run.
    destruct (mergeResult_returns applnID doc result sr ups s)
      as (sr1 & ups1 & s1 & E1 & _).
    rewrite E1. intros E. apply mergeResult_updates in E1. apply IH in E. lia.
Qed.

Section Detail.

Variable env : Env.

Lemma processChunks_updates applnID chunks : forall sr ups s sr' ups' s',
  processChunks env applnID chunks (sr, ups) s = Returned (sr', ups') s' ->
  (length ups' + reported sr = length ups + reported sr')%nat.
Proof.
  induction chunks as [|chunk rest IH]; intros sr ups s sr' ups' s'.
  - simpl. run. intros [= <- <- <-]. lia.
  - rewrite processChunks_cons. run. destruct (shouldStop s).
    + run. intros [= <- <- <-]. lia.
    + run. destruct (allSettled_returns env chunk s) as (rs & s1 & n1 & E1 & _).
      rewrite E1. run.
      destruct (mergeResults_returns applnID (zip chunk rs) (sr, ups) s1)
        as ([sr1 ups1] & s2 & E2 & _).
      rewrite E2. run. apply mergeResults_updates in E2.
      assert (exists s3,
        (match rest with
         | [] => mret ()
         | _ :: _ => gets config ≫= λ cfg, sleep env (delayBetweenDocsMs cfg)
         end) s2 = Returned tt s3) as (s3 & ->).
      { destruct rest; [by exists s2|]. run.
        destruct (sleep_returns env (delayBetweenDocsMs (config s2)) s2)
          as (s3 & E3 & _). by exists s3. }
      intros E. apply IH in E. lia.
Qed.

Variable I : Scheduler -> Prop.
Hypothesis HI : undisturbed env (fun _ => True) I.

(** A retried remote call keeps what is undisturbed, leaves in the trace
    only its invocations and delays, and throws [undefined] only where no
    attempt is allowed. *)
Lemma retried_call {A} c (answer : Z -> nat -> Outcome A) label s :
  I s ->
  match withRetry env (fun attempt => await env c (answer attempt)) label s with
  | Returned _ s' | Raised (ThrownError _) s' =>
      I s' /\ evolves (retryEvent c) s s'
  | Raised ThrownUndefined s' =>
      I s' /\ evolves (retryEvent c) s s' /\ retryAttempts (config s) < 1
  | Diverged => False
  end.
Proof.
  intros Hs.
  pose proof (keeps_retried env _ I HI (fun _ => Logic.I) c answer label
                Logic.I s Hs) as Hk.
  assert (Hset : settles (evolves (retryEvent c)) (retryAttempts (config s) < 1)
            (withRetry env (fun attempt => await env c (answer attempt)) label) s).
  { apply withRetry_settles; [|intros; right; eauto].
    intros attempt s0. unfold settles.
    destruct (await_spec env c (answer attempt) s0) as (s1 & F & E & R).
    rewrite R.
    assert (evolves (retryEvent c) s0 s1).
    { split; [done|]. eexists. split; [exact E|]. by repeat constructor. }
    by destruct (answer attempt (clock s0)). }
  unfold settles in Hset.
  destruct (withRetry env _ label s) as [a s1|[|m] s1|]; tauto.
Qed.

Lemma storeResult_outcome s s0 new applnID studentName sr :
  1 <= retryAttempts (config s) ->
  I s0 -> frame s s0 -> effects s0 = effects s ++ new ->
  StudentResult.applnID sr = applnID ->
  subjectDetail (config s) applnID studentName (StudentResult.set_ended true sr)
    new (shouldStop s0) ->
  subjectOutcome I s applnID studentName (storeResult sr s0).
Proof.
  intros Hn Hs0 F E Ha Hd. rewrite storeResult_run. split; [done|].
  exists s0, new. rewrite Ha. done.
Qed.

Lemma processStudent_outcome applnID studentName s :
  I s ->
  subjectOutcome I s applnID studentName
    (processStudent env applnID studentName s).
Proof.
  intros Hs. unfold processStudent. run.
  destruct (Z.le_gt_cases 1 (retryAttempts (config s))) as [Hn|Hn]; cycle 1.
  { rewrite withRetry_unconfigured by lia.
    unfold processingFailed, messageOf. by run. }
  pose proof (retried_call (CallGetDocumentList applnID)
                (getDocumentList env applnID) ("Fetch docs for " +:+ applnID)
                s Hs) as Hfetch.
  destruct (withRetry env _ ("Fetch docs for " +:+ applnID) s)
    as [resp s1|[|m] s1|]; [|lia| |done].
  2:{ (* the fetch failed *)
    destruct Hfetch as (Hs1 & F1 & n1 & E1 & T1).
    unfold processingFailed, messageOf. run.
    apply (storeResult_outcome s _ n1);
      [done | by apply HI | | by rewrite pushLog_effects | done |].
    { eapply frame_trans; [exact F1 | apply pushLog_frame]. }
    left. split; [done|]. by left. }
  destruct Hfetch as (Hs1 & F1 & n1 & E1 & T1).
  assert (Hc1 : config s1 = config s) by solve_frame.
  destruct (if bool_decide (dl_status resp = 1)
            then dl_document_status resp else None) as [allDocs|]; cycle 1.
  { run.
    apply (storeResult_outcome s _ n1);
      [done | by apply HI | | by rewrite pushLog_effects | done |].
    { eapply frame_trans; [exact F1 | apply pushLog_frame]. }
    left. split; [done|]. by right. }
  run.
  assert (Hcands :
    (if skipAlreadyVerified (config s1)
     then List.filter
            (fun doc => negb (bool_decide (Doc.verify_status doc = "2")))
            (List.filter hasFile allDocs)
     else List.filter hasFile allDocs) = candidates (config s) allDocs).
  { by rewrite Hc1. }
  rewrite !Hcands. clear Hcands.
  change (StudentResult.set_totalDocs (length (candidates (config s) allDocs)) _)
    with (listed (config s) applnID studentName allDocs).
  destruct (candidates (config s) allDocs) as [|c0 cands'] eqn:Ecands.
  { run.
    apply (storeResult_outcome s _ n1);
      [done | by apply HI | | by rewrite pushLog_effects | done |].
    { eapply frame_trans; [exact F1 | apply pushLog_frame]. }
    right. exists allDocs. left. by rewrite Ecands. }
  rewrite <- Ecands. run. rewrite Hc1.
  destruct (chunkArray (candidates (config s) allDocs) (concurrency (config s)))
    as [chunks|] eqn:Echunks; cycle 1.
  { unfold diverge. simpl.
    destruct (Z.le_gt_cases 1 (concurrency (config s))) as [Hc|Hc]; [|lia].
    destruct (chunkArray_spec (candidates (config s) allDocs)
                (concurrency (config s)) Hc) as (? & ? & _).
    congruence. }
  run.
  destruct (processChunks_returns env applnID chunks
              (listed (config s) applnID studentName allDocs, []) s1)
    as ([sr2 ups2] & s2 & k & n2 & E2 & F2 & Hk & A2 & Ef2 & T2 & _ & Hall2).
  pose proof (keeps_processChunks env _ I HI (fun _ _ => Logic.I) applnID chunks
                (listed (config s) applnID studentName allDocs, []) s1 Hs1)
    as Hs2.
  assert (Hpool :
    match processChunks env applnID chunks
            (listed (config s) applnID studentName allDocs, []) s1 with
    | Returned _ s' | Raised _ s' =>
        exists new, effects s' = effects s1 ++ new /\ Forall poolEvent new
    | Diverged => True
    end).
  { apply (keeps_processChunks env poolEvent _
             (undisturbed_trace env poolEvent (effects s1)) (fun _ H => H)).
    exists []. by rewrite app_nil_r. }
  pose proof (processChunks_updates applnID chunks _ _ _ _ _ _ E2) as Hups.
  rewrite E2 in Hs2, Hpool |- *. run.
  destruct Hpool as (n2' & Ef2' & P2).
  assert (n2' = n2) as -> by (rewrite Ef2 in Ef2'; by apply app_inv_head in Ef2').
  simpl in A2, Hups.
  assert (Ha2 : StudentResult.applnID sr2 = applnID).
  { destruct A2 as (_ & _ & _ & _ & -> & _). done. }
  assert (Hconclude : forall s3 n3,
    I s3 -> frame s2 s3 -> effects s3 = effects s2 ++ n3 ->
    Forall (retryEvent (CallUpdateDocumentStatus applnID ups2)) n3 ->
    (n3 <> [] -> shouldStop s2 = false /\ ups2 <> []) ->
    subjectOutcome I s applnID studentName
      (storeResult
         (StudentResult.set_status
            (if (0 <? StudentResult.errors sr2)%nat then partial else completed)
            sr2) s3)).
  { intros s3 n3 Hs3 F3 E3 T3 Hwb.
    apply (storeResult_outcome s s3 (n1 ++ n2 ++ n3)); [done | done | | | done |].
    { eapply frame_trans; [exact F1|]. eapply frame_trans; eauto. }
    { by rewrite E3, Ef2, E1, <- !app_assoc. }
    right. exists allDocs. right. split; [by rewrite Ecands|].
    exists sr2, ups2, chunks, k, n1, n2, n3.
    split; [done|]. split; [done|]. split; [done|].
    split; [unfold reported in *; simpl in Hups; lia|].
    split; [done|]. split; [done|]. split; [done|]. split; [done|].
    split; [done|]. split; [done|]. split.
    - intros Hne. destruct (Hwb Hne) as [Hstop ?]. split; [by apply Hall2|done].
    - intros Hstop. apply Hall2.
      destruct (shouldStop s2) eqn:Hs2'; [|done].
      destruct F3 as (_ & _ & _ & _ & _ & _ & Hmono). rewrite Hmono in Hstop; done. }
  destruct ((0 <? length ups2)%nat && negb (shouldStop s2)) eqn:Hguard; cycle 1.
  { apply (Hconclude s2 []);
      [done | apply frame_refl | by rewrite app_nil_r | constructor | done]. }
  apply andb_true_iff in Hguard as [Hlen Hstop].
  assert (Hwb : shouldStop s2 = false /\ ups2 <> []).
  { split; [by destruct (shouldStop s2)|]. intros ->. simpl in Hlen. done. }
  run.
  pose proof (retried_call (CallUpdateDocumentStatus applnID ups2)
                (updateDocumentStatus env applnID ups2)
                ("Update status for " +:+ applnID) s2 Hs2) as Hupd.
  assert (Hc2 : config s2 = config s) by solve_frame.
  destruct (withRetry env _ ("Update status for " +:+ applnID) s2)
    as [[] s3|[|m] s3|]; [|rewrite Hc2 in Hupd; lia| |done].
  - run. destruct Hupd as (Hs3 & F3 & n3 & E3 & T3).
    apply (Hconclude _ n3); [by apply HI | | by rewrite pushLog_effects | done | done].
    eapply frame_trans; [exact F3 | apply pushLog_frame].
  - unfold messageOf. run. destruct Hupd as (Hs3 & F3 & n3 & E3 & T3).
    apply (Hconclude _ n3); [by apply HI | | by rewrite pushLog_effects | done | done].
    eapply frame_trans; [exact F3 | apply pushLog_frame].
Qed.

End Detail.

Lemma subjectDetail_identity cfg applnID studentName res new stop :
  subjectDetail cfg applnID studentName res new stop ->
  StudentResult.applnID res = applnID /\ StudentResult.ended res = true.
Proof.
  intros [(_ & [-> | ->]) | (allDocs & [(_ & _ & ->) | (_ & H)])]; try done.
  destruct H as (merged & ups & chunks & k & n1 & n2 & n3 & _ & _ & A & _ & -> & _).
  destruct A as (_ & _ & _ & _ & Ha & _). done.
Qed.

(** X10. The result [processStudent] returns is the one it has stored for
    the subject: [getStudentResult] yields it afterwards, stamped as ended
    and bearing the subject's id; it replaces what was stored for that
    subject, and the results of the other subjects are as they were. *)
Theorem processStudent_caches_result env applnID studentName s res s' :
  processStudent env applnID studentName s = Returned res s' ->
  getStudentResult applnID s' = Some res /\
  StudentResult.applnID res = applnID /\ StudentResult.ended res = true /\
  studentResults s' = <[applnID := res]> (studentResults s) /\
  forall other, other <> applnID ->
    getStudentResult other s' = getStudentResult other s.
Proof.
  intros Hrun.
  pose proof (processStudent_outcome env _
                (undisturbed_results env (studentResults s))
                applnID studentName s eq_refl) as H.
  rewrite Hrun in H. destruct H as (_ & s0 & new & Hm & _ & -> & _ & Hd).
  apply subjectDetail_identity in Hd as [Ha He].
  unfold getStudentResult. simpl. rewrite Hm.
  split; [apply lookup_insert_eq|]. split; [done|]. split; [done|].
  split; [done|]. intros other Hne. by apply lookup_insert_ne.
Qed.

Lemma processStudent_caches_result_example :
  exists res s',
    processStudent scenarioEnv "S1" "Ann" newScheduler = Returned res s' /\
    getStudentResult "S1" s' = Some res /\
    StudentResult.applnID res = "S1" /\ StudentResult.ended res = true /\
    studentResults s' = <["S1" := res]> (studentResults newScheduler) /\
    forall other, other <> "S1" ->
      getStudentResult other s' = getStudentResult other newScheduler.
Proof.
  eexists _, _. split; [vm_compute; reflexivity|].
  apply (processStudent_caches_result scenarioEnv "S1" "Ann" newScheduler).
  vm_compute. reflexivity.
Defined.

Lemma uploaded_entries (l l' : list Entry.t) :
  entryKey <$> l' = entryKey <$> l ->
  length (List.filter Entry.is_uploaded l') =
  length (List.filter Entry.is_uploaded l).
Proof.
  revert l'. induction l as [|e l IH]; intros [|e' l'] H; try done.
  rewrite !fmap_cons in H. inversion H as [[Hi Hu Hl]]. simpl. rewrite Hu.
  destruct (Entry.is_uploaded e); simpl; by rewrite (IH l').
Qed.

Lemma uploaded_listed (allDocs : list Doc.t) :
  length (List.filter Entry.is_uploaded (entryOf <$> allDocs)) =
  length (List.filter hasFile allDocs).
Proof.
  induction allDocs as [|d l IH]; [done|].
  rewrite fmap_cons.
  change (List.filter Entry.is_uploaded (entryOf d :: (entryOf <$> l)))
    with (if Entry.is_uploaded (entryOf d)
          then entryOf d :: List.filter Entry.is_uploaded (entryOf <$> l)
          else List.filter Entry.is_uploaded (entryOf <$> l)).
  change (List.filter hasFile (d :: l))
    with (if hasFile d then d :: List.filter hasFile l
          else List.filter hasFile l).
  rewrite entryOf_is_uploaded.
  destruct (hasFile d); simpl; by rewrite IH.
Qed.

Lemma candidates_uploaded cfg allDocs :
  (length (candidates cfg allDocs) <= length (List.filter hasFile allDocs))%nat /\
  (skipAlreadyVerified cfg = false ->
   candidates cfg allDocs = List.filter hasFile allDocs).
Proof.
  unfold candidates. destruct (skipAlreadyVerified cfg); [|done].
  split; [apply List.filter_length_le | done].
Qed.

(** X11. The status of a result [processStudent] returns tells what was
    done. [error] (here [failed]): the document list could not be fetched,
    and the result is blank. [skipped]: nothing was to verify, and no
    outcome is recorded. [completed] and [partial]: at least one document
    was to verify, and [partial] is the status exactly when some task
    failed. In every case [totalDocs <= uploaded <= allDocuments.length],
    [uploaded] counts the entries of [allDocuments] that are uploaded, and
    [totalDocs] is [uploaded] unless already verified documents are left
    out. *)
Theorem processStudent_status env applnID studentName s res s' :
  processStudent env applnID studentName s = Returned res s' ->
  match StudentResult.status res with
  | processing => False
  | failed => res = finalized failed (newStudentResult applnID studentName)
  | skipped =>
      StudentResult.documents res = [] /\ StudentResult.totalDocs res = 0%nat /\
      outcomes res = 0%nat
  | completed =>
      StudentResult.errors res = 0%nat /\ (1 <= StudentResult.totalDocs res)%nat
  | partial =>
      (1 <= StudentResult.errors res)%nat /\
      (1 <= StudentResult.totalDocs res)%nat
  end /\
  (StudentResult.totalDocs res <= StudentResult.uploaded res)%nat /\
  (StudentResult.uploaded res <= length (StudentResult.allDocuments res))%nat /\
  StudentResult.uploaded res =
    length (List.filter Entry.is_uploaded (StudentResult.allDocuments res)) /\
  (skipAlreadyVerified (config s) = false ->
   StudentResult.totalDocs res = StudentResult.uploaded res).
Proof.
  intros Hrun.
  pose proof (processStudent_outcome env (fun _ => True)
                ltac:(by repeat split) applnID studentName s Logic.I) as H.
  rewrite Hrun in H. destruct H as (_ & s0 & new & _ & _ & _ & _ & Hd).
  destruct Hd as [(_ & [-> | ->]) | (allDocs & [(Hc & _ & ->) | (Hc & H)])].
  - simpl. repeat split; (done || lia).
  - simpl. repeat split; (done || lia).
  - simpl. rewrite Hc, length_fmap, uploaded_listed. simpl.
    repeat split; try (done || lia).
    + apply List.filter_length_le.
    + intros Hskip. rewrite <- (proj2 (candidates_uploaded _ allDocs) Hskip), Hc. done.
  - destruct H as (merged & ups & chunks & k & n1 & n2 & n3 & _ & _ & A & _ &
                   -> & _).
    destruct A as (_ & Ht & Hu & _ & _ & _ & Hk & _). simpl in Ht, Hu, Hk.
    assert (Hpos : (1 <= length (candidates (config s) allDocs))%nat).
    { destruct (candidates (config s) allDocs); [done | simpl; lia]. }
    assert (Hlen : length (StudentResult.allDocuments merged) = length allDocs).
    { apply (f_equal length) in Hk. by rewrite !length_fmap in Hk. }
    split.
    { simpl. destruct (Nat.ltb_spec 0 (StudentResult.errors merged)); simpl; lia. }
    simpl. rewrite Ht, Hu, Hlen, (uploaded_entries _ _ Hk), uploaded_listed.
    split; [apply candidates_uploaded|].
    split; [apply List.filter_length_le|]. split; [done|].
    intros Hskip. by rewrite (proj2 (candidates_uploaded _ allDocs) Hskip).
Qed.

Lemma processStudent_status_example :
  exists res s',
    processStudent scenarioEnv "S1" "Ann" newScheduler = Returned res s' /\
    match StudentResult.status res with
    | processing => False
    | failed => res = finalized failed (newStudentResult "S1" "Ann")
    | skipped =>
        StudentResult.documents res = [] /\ StudentResult.totalDocs res = 0%nat /\
        outcomes res = 0%nat
    | completed =>
        StudentResult.errors res = 0%nat /\ (1 <= StudentResult.totalDocs res)%nat
    | partial =>
        (1 <= StudentResult.errors res)%nat /\
        (1 <= StudentResult.totalDocs res)%nat
    end /\
    (StudentResult.totalDocs res <= StudentResult.uploaded res)%nat /\
    (StudentResult.uploaded res <= length (StudentResult.allDocuments res))%nat /\
    StudentResult.uploaded res =
      length (List.filter Entry.is_uploaded (StudentResult.allDocuments res)) /\
    (skipAlreadyVerified (config newScheduler) = false ->
     StudentResult.totalDocs res = StudentResult.uploaded res).
Proof.
  eexists _, _. split; [vm_compute; reflexivity|].
  eapply (processStudent_status scenarioEnv "S1" "Ann" newScheduler).
  vm_compute. reflexivity.
Defined.

Lemma chunkRuns_elem (chunks : list (list Doc.t)) (evs : list Effect)
    (e : Effect) :
  chunkRuns chunks (taskEvents evs) -> e ∈ taskEvents evs ->
  exists d, (e = TaskStarted d \/ e = TaskSettled d) /\ d ∈ concat chunks.
Proof.
  intros (runs & T & Hruns) He.
  assert (Ht : isTaskEvent e = true).
  { apply list_elem_of_In, List.filter_In in He. tauto. }
  rewrite T in He. clear T.
  induction Hruns as [|chunk run chunks runs Hrun _ IH]; [by apply elem_of_nil in He|].
  simpl in He. apply elem_of_app in He as [He|He].
  - destruct (chunkRun_elem chunk run e Hrun He Ht) as (d & Hd & Hor).
    exists d. split; [done|]. simpl. apply elem_of_app. by left.
  - destruct (IH He) as (d & Hor & Hd). exists d. split; [done|].
    simpl. apply elem_of_app. by right.
Qed.

Lemma taskEvents_elem (e : Effect) (evs : list Effect) :
  e ∈ evs -> isTaskEvent e = true -> e ∈ taskEvents evs.
Proof.
  intros He Ht. apply list_elem_of_In, List.filter_In.
  split; [by apply list_elem_of_In | done].
Qed.

Lemma candidates_elem cfg allDocs d :
  d ∈ candidates cfg allDocs ->
  d ∈ allDocs /\ hasFile d = true /\
  (skipAlreadyVerified cfg = true -> Doc.verify_status d <> "2").
Proof.
  unfold candidates. rewrite list_elem_of_In.
  destruct (skipAlreadyVerified cfg).
  - intros [[Hd Hf]%List.filter_In Hv]%List.filter_In.
    split; [by apply list_elem_of_In|]. split; [done|]. intros _.
    unfold notVerified in Hv. apply negb_true_iff, bool_decide_eq_false in Hv.
    done.
  - intros [Hd Hf]%List.filter_In.
    split; [by apply list_elem_of_In|]. split; [done|]. intros; discriminate.
Qed.

(** The tasks of a subject are tasks of its candidates. *)
Lemma subjectDetail_tasks cfg applnID studentName res new stop d :
  subjectDetail cfg applnID studentName res new stop ->
  TaskStarted d ∈ new \/ TaskSettled d ∈ new ->
  exists allDocs, d ∈ candidates cfg allDocs.
Proof.
  assert (Hretry : forall c (l : list Effect),
    Forall (retryEvent c) l -> TaskStarted d ∈ l \/ TaskSettled d ∈ l -> False).
  { intros c l Hl Hin. rewrite Forall_forall in Hl.
    destruct Hin as [Hin|Hin]; destruct (Hl _ Hin) as [?|[? ?]]; discriminate. }
  intros [(Hf & _) | (allDocs & [(_ & Hf & _) | (_ & H)])] Hin;
    [by destruct (Hretry _ _ Hf Hin).. |].
  destruct H as (merged & ups & chunks & k & n1 & n2 & n3 & Hch & _ & _ & _ & _ &
                 -> & T1 & _ & T2 & T3 & _).
  exists allDocs.
  assert (Hpool : TaskStarted d ∈ n2 \/ TaskSettled d ∈ n2).
  { rewrite !elem_of_app in Hin.
    destruct Hin as [[H|[H|H]]|[H|[H|H]]]; try tauto;
      first [ by destruct (Hretry _ _ T1 (or_introl H))
            | by destruct (Hretry _ _ T1 (or_intror H))
            | by destruct (Hretry _ _ T3 (or_introl H))
            | by destruct (Hretry _ _ T3 (or_intror H)) ]. }
  assert (Hev : exists e, e ∈ taskEvents n2 /\
                  (e = TaskStarted d \/ e = TaskSettled d)).
  { destruct Hpool as [H|H]; eexists; (split; [by apply taskEvents_elem|tauto]). }
  destruct Hev as (e & He & Hd).
  apply (chunkRuns_elem _ _ _ T2) in He as (d' & Hd' & Hin').
  assert (d' = d) as -> by (destruct Hd as [->| ->], Hd' as [?|?]; congruence).
  apply elem_of_concat_take in Hin'. apply chunkArray_concat in Hch.
  by rewrite Hch in Hin'.
Qed.

(** X12. With [skipAlreadyVerified] set, a document whose [verify_status]
    is ['2'] is left alone by [processStudent]: no task is started or
    settled for it. *)
Theorem verified_documents_are_left_alone env applnID studentName s res s'
    (doc : Doc.t) :
  skipAlreadyVerified (config s) = true -> Doc.verify_status doc = "2" ->
  processStudent env applnID studentName s = Returned res s' ->
  exists new,
    effects s' = effects s ++ new /\
    (TaskStarted doc ∉ new) /\ (TaskSettled doc ∉ new).
Proof.
  intros Hskip Hv Hrun.
  pose proof (processStudent_outcome env (fun _ => True)
                ltac:(by repeat split) applnID studentName s Logic.I) as H.
  rewrite Hrun in H. destruct H as (_ & s0 & new & _ & _ & -> & E & Hd).
  exists new. split; [done|].
  assert (Hno : ~ (TaskStarted doc ∈ new \/ TaskSettled doc ∈ new)); [|tauto].
  intros Hin.
  destruct (subjectDetail_tasks _ _ _ _ _ _ doc Hd Hin) as (allDocs & Hc).
  apply candidates_elem in Hc as (_ & _ & Hnv). by apply Hnv.
Qed.

Lemma verified_documents_are_left_alone_example :
  exists res s',
    processStudent (steadyEnv [docA; docV]) "S1" "Ann" newScheduler =
      Returned res s' /\
    exists new,
      effects s' = effects newScheduler ++ new /\
      (TaskStarted docV ∉ new) /\ (TaskSettled docV ∉ new).
Proof.
  eexists _, _. split; [vm_compute; reflexivity|].
  eapply (verified_documents_are_left_alone (steadyEnv [docA; docV]) "S1" "Ann"
            newScheduler); [reflexivity | reflexivity |].
  vm_compute. reflexivity.
Defined.

(** X13. [processStudent] writes back to Atlas only for its own subject and
    only what is complete: whenever [updateDocumentStatus] is called, every
    document to verify has its outcome ([approved + rejected + errors +
    skipped = totalDocs]), and the call carries one update for each
    document counted as approved, rejected or failed, and none for a
    skipped one. *)
Theorem write_back_is_complete env applnID studentName s res s' :
  processStudent env applnID studentName s = Returned res s' ->
  exists new,
    effects s' = effects s ++ new /\
    forall subject updates,
      Called (CallUpdateDocumentStatus subject updates) ∈ new ->
      subject = applnID /\ updates <> [] /\
      length updates = reported res /\
      outcomes res = StudentResult.totalDocs res /\
      (StudentResult.status res = completed \/
       StudentResult.status res = partial).
Proof.
  intros Hrun.
  pose proof (processStudent_outcome env (fun _ => True)
                ltac:(by repeat split) applnID studentName s Logic.I) as H.
  rewrite Hrun in H. destruct H as (_ & s0 & new & _ & _ & -> & E & Hd).
  exists new. split; [done|]. intros subject updates Hin.
  assert (Hfetch : forall l,
    Forall (retryEvent (CallGetDocumentList applnID)) l ->
    Called (CallUpdateDocumentStatus subject updates) ∈ l -> False).
  { intros l Hl Hc. rewrite Forall_forall in Hl.
    destruct (Hl _ Hc) as [?|[? ?]]; discriminate. }
  destruct Hd as [(Hf & _) | (allDocs & [(_ & Hf & _) | (_ & H)])];
    [by destruct (Hfetch _ Hf Hin).. |].
  destruct H as (merged & ups & chunks & k & n1 & n2 & n3 & Hch & _ & A & Hups &
                 -> & -> & T1 & P2 & _ & T3 & Hwb & _).
  rewrite !elem_of_app in Hin. destruct Hin as [H|[H|H]].
  { by destruct (Hfetch _ T1 H). }
  { rewrite Forall_forall in P2. by destruct (P2 _ H). }
  assert (Hne : n3 <> []) by (intros ->; by apply elem_of_nil in H).
  destruct (Hwb Hne) as [-> Hupsne].
  rewrite Forall_forall in T3. destruct (T3 _ H) as [Heq|[? ?]]; [|discriminate].
  injection Heq as -> ->.
  split; [done|]. split; [done|]. split; [done|]. split.
  - destruct A as (Ho & Ht & _). unfold outcomes in *. simpl in *.
    rewrite firstn_all in Ho. apply chunkArray_concat in Hch.
    rewrite Hch in Ho. lia.
  - simpl. destruct (0 <? StudentResult.errors merged)%nat; tauto.
Qed.

Lemma write_back_is_complete_example :
  exists res s',
    processStudent scenarioEnv "S1" "Ann" newScheduler = Returned res s' /\
    exists new,
      effects s' = effects newScheduler ++ new /\
      forall subject updates,
        Called (CallUpdateDocumentStatus subject updates) ∈ new ->
        subject = "S1" /\ updates <> [] /\
        length updates = reported res /\
        outcomes res = StudentResult.totalDocs res /\
        (StudentResult.status res = completed \/
         StudentResult.status res = partial).
Proof.
  eexists _, _. split; [vm_compute; reflexivity|].
  apply (write_back_is_complete scenarioEnv "S1" "Ann" newScheduler).
  vm_compute. reflexivity.
Defined.

Lemma subjectDetail_settled cfg applnID studentName res new stop :
  subjectDetail cfg applnID studentName res new stop -> settledResult res.
Proof.
  unfold settledResult, isVerified.
  intros [(_ & [-> | ->]) | (allDocs & [(Hc & _ & ->) | (_ & H)])];
    [simpl; repeat split; (done || lia).. | |].
  { simpl. rewrite Hc. repeat split; (done || lia). }
  destruct H as (merged & ups & chunks & k & n1 & n2 & n3 & Hch & _ & A & _ &
                 -> & _).
  destruct A as (Ho & Ht & _). unfold outcomes in Ho. simpl in Ho, Ht.
  apply chunkArray_concat in Hch.
  pose proof (concat_take_length chunks k) as Hle. rewrite Hch in Hle.
  simpl. split; [by destruct (0 <? _)%nat|]. split; [done|].
  split; [lia|]. by destruct (0 <? _)%nat.
Qed.

(** ** Batches *)

Lemma tallied_refl r l : Run.students r = Some l -> tallied [] r r.
Proof.
  intros Hl. unfold tallied, counted, verifiedTotal. simpl.
  repeat split; try lia. exists l. by rewrite app_nil_r.
Qed.

Lemma counted_app p a b : counted p (a ++ b) = (counted p a + counted p b)%nat.
Proof. unfold counted. by rewrite List.filter_app, length_app. Qed.

Lemma verifiedTotal_app f a b :
  verifiedTotal f (a ++ b) = (verifiedTotal f a + verifiedTotal f b)%nat.
Proof.
  unfold verifiedTotal. rewrite List.filter_app, fmap_app.
  induction (f <$> List.filter isVerified a) as [|n l IH]; simpl; lia.
Qed.

Lemma tallied_trans a b r1 r2 r3 :
  tallied a r1 r2 -> tallied b r2 r3 -> tallied (a ++ b) r1 r3.
Proof.
  unfold tallied.
  intros (I1 & T1 & (l1 & L1 & L1') & P1 & C1 & S1 & E1 & D1 & A1 & R1)
         (I2 & T2 & (l2 & L2 & L2') & P2 & C2 & S2 & E2 & D2 & A2 & R2).
  rewrite !counted_app, !verifiedTotal_app, !length_app.
  split; [congruence|]. split; [congruence|]. split.
  { exists l1. split; [done|]. rewrite L2', app_assoc. congruence. }
  repeat split; lia.
Qed.

(** One result pushed, counted and tallied as in the loop of [runBatch]. *)
Lemma tallied_one res r l :
  Run.students r = Some l ->
  tallied [res] r
    (tally res
       (Run.set_processed (S (Run.processed r))
          (Run.set_students (Some (l ++ [res])) r))) /\
  Run.status
    (tally res
       (Run.set_processed (S (Run.processed r))
          (Run.set_students (Some (l ++ [res])) r))) = Run.status r.
Proof.
  intros Hl.
  unfold tallied, tally, counted, verifiedTotal, isFailed, isVerified, isSkipped.
  simpl. destruct (StudentResult.status res); simpl;
    (split; [|done]); repeat split; try lia; by exists l.
Qed.

Lemma runFrame_refl s : runFrame s s.
Proof. by repeat split. Qed.

Lemma runFrame_trans s1 s2 s3 : runFrame s1 s2 -> runFrame s2 s3 -> runFrame s1 s3.
Proof.
  unfold runFrame. intros (?&?&?&?&?&?) (?&?&?&?&?&?).
  repeat split; try congruence; auto.
Qed.

Lemma frame_runFrame s s' : frame s s' -> runFrame s s'.
Proof. unfold frame, runFrame. tauto. Qed.

Section Values.

Variable env : Env.
Context {A : Type} (c : Call) (answer : Z -> nat -> Outcome A) (label : string).

(** What a retried call returns is the answer of an attempt, and the error
    it throws is the error of an attempt. *)
Lemma retryLoop_value fuel : forall attempt lastError s,
  match retryLoop env (fun a => await env c (answer a)) label fuel attempt
          lastError s with
  | Returned v _ => exists a t, answer a t = Resolved v
  | Raised (ThrownError m) _ =>
      (exists a t, answer a t = Rejected m) \/ lastError = ThrownError m
  | _ => True
  end.
Proof.
  induction fuel as [|fuel IH]; intros attempt lastError s; [done|].
  simpl retryLoop. run.
  destruct (attempt <=? retryAttempts (config s)); run; cycle 1.
  { destruct lastError; [done | by right]. }
  destruct (await_spec env c (answer attempt) s) as (s1 & F1 & E1 & R1).
  rewrite R1. destruct (answer attempt (clock s)) as [v|m] eqn:Ha; run;
    [by eauto|].
  unfold messageOf. run. destruct (nonRetryable (JS.or_else m "")); run.
  { left. eauto. }
  assert (Hnext : forall s2,
    match retryLoop env (fun a => await env c (answer a)) label fuel
            (attempt + 1) (ThrownError m) s2 with
    | Returned v _ => exists a t, answer a t = Resolved v
    | Raised (ThrownError m') _ =>
        (exists a t, answer a t = Rejected m') \/ lastError = ThrownError m'
    | _ => True
    end).
  { intros s2. specialize (IH (attempt + 1) (ThrownError m) s2).
    destruct (retryLoop env _ label fuel (attempt + 1) (ThrownError m) s2)
      as [v s3|[|m'] s3|]; try done.
    destruct IH as [?|[= <-]]; [by left|]. left. eauto. }
  destruct (attempt <? retryAttempts (config s1)); run; [|apply Hnext].
  match goal with |- context [sleep env ?d ?st] =>
    destruct (sleep_returns env d st) as (s2 & E2 & _) end.
  rewrite E2. apply Hnext.
Qed.

Lemma withRetry_value s :
  match withRetry env (fun a => await env c (answer a)) label s with
  | Returned v _ => exists a t, answer a t = Resolved v
  | Raised (ThrownError m) _ => exists a t, answer a t = Rejected m
  | _ => True
  end.
Proof.
  unfold withRetry. run.
  pose proof (retryLoop_value (S (Z.to_nat (retryAttempts (config s)))) 1
                ThrownUndefined s) as H.
  destruct (retryLoop env _ label _ 1 ThrownUndefined s) as [v s1|[|m] s1|];
    try done.
  by destruct H.
Qed.

End Values.

Section Batch.

Variable env : Env.
Variable I : Scheduler -> Prop.
Hypothesis HI : undisturbed env (fun _ => True) I.
Hypothesis HU : unobserved I.

Lemma forStudents_cons student rest total :
  forStudents env (student :: rest) total =
  (stop ← gets shouldStop;
   if stop : bool then
     log info "Batch stopped by user" None ;;
     updateRun (Run.set_status stopped)
   else
     match applnIDOf student with
     | None => forStudents env rest total
     | Some applnID =>
         let studentName := studentNameOf student applnID in
         r ← theRun;
         log info
           ("Processing student " +:+ pretty (S (Run.processed r)) +:+ "/"
            +:+ pretty total +:+ ": " +:+ applnID +:+ " (" +:+ studentName
            +:+ ")") None ;;
         result ← processStudent env applnID studentName;
         pushStudent result ;;
         updateRun (fun r => Run.set_processed (S (Run.processed r)) r) ;;
         updateRun (tally result) ;;
         stop ← gets shouldStop;
         (if stop : bool then mret tt
          else cfg ← gets config; sleep env (delayBetweenStudentsMs cfg)) ;;
         forStudents env rest total
     end).
Proof. reflexivity. Qed.

Lemma forStudents_spec students : forall total s r l,
  I s -> currentRun s = Some r -> Run.students r = Some l ->
  1 <= retryAttempts (config s) -> 1 <= concurrency (config s) ->
  exists s' r' results j,
    forStudents env students total s = Returned tt s' /\
    I s' /\ runFrame s s' /\ currentRun s' = Some r' /\
    tallied results r r' /\
    Forall settledResult results /\
    studentResults s' = storeAll results (studentResults s) /\
    StudentResult.applnID <$> results = omap applnIDOf (take j students) /\
    ((Run.status r' = stopped /\ (j < length students)%nat /\
      shouldStop s' = true) \/
     (Run.status r' = Run.status r /\ j = length students)).
Proof.
  induction students as [|student rest IH]; intros total s r l Hs Hcur Hl Hn Hc.
  { exists s, r, [], 0%nat. split; [done|]. split; [done|].
    split; [apply runFrame_refl|]. split; [done|].
    split; [by eapply tallied_refl|]. split; [constructor|]. split; [done|].
    split; [done|]. by right. }
  rewrite forStudents_cons. run. destruct (shouldStop s) eqn:Hstop.
  { run. erewrite updateRun_run by exact Hcur.
    eexists _, _, [], 0%nat. split; [reflexivity|].
    split; [by apply HU, HI|]. split; [by repeat split|].
    split; [reflexivity|]. split.
    { unfold tallied, counted, verifiedTotal. simpl.
      repeat split; try lia. exists l. by rewrite app_nil_r. }
    split; [constructor|]. split; [done|]. split; [done|]. left. simpl.
    split; [done|]. split; [lia|done]. }
  destruct (applnIDOf student) as [applnID|] eqn:Hid; cycle 1.
  { destruct (IH total s r l Hs Hcur Hl Hn Hc)
      as (s' & r' & results & j & E & Hs' & F & Hcur' & T & Hres & Hsto & Hids &
          Hst).
    exists s', r', results, (S j). split; [exact E|]. split; [done|].
    split; [done|]. split; [done|]. split; [done|]. split; [done|].
    split; [done|]. split; [simpl; by rewrite Hid|].
    destruct Hst as [(? & ? & ?)|(? & ?)]; [left|right]; simpl;
      repeat split; (done || lia). }
  cbv zeta. unfold theRun at 1. run. rewrite Hcur. run.
  pose proof (undisturbed_and env _ _ _ HI
                (undisturbed_results env (studentResults s))) as HI'.
  match goal with |- context [processStudent env applnID ?n ?s0] =>
    pose proof (processStudent_outcome env _ HI' applnID n s0
                  ltac:(split; [by apply HI | reflexivity])) as Hsub;
    destruct (processStudent env applnID n s0) as [res s1|e s1|]
  end; [|simpl in Hsub; lia..].
  destruct Hsub as (_ & s0 & new & [Hs0 Hsto0] & F0 & -> & _ & Hd).
  assert (Hident := subjectDetail_identity _ _ _ _ _ _ Hd).
  destruct Hident as [Hident Hended].
  assert (Hsettled := subjectDetail_settled _ _ _ _ _ _ Hd).
  assert (Hcur0 : currentRun s0 = Some r).
  { destruct F0 as (_ & _ & _ & _ & Hc0 & _). rewrite Hc0. exact Hcur. }
  run.
  erewrite pushStudent_run; [|exact Hcur0 | exact Hl].
  run. erewrite updateRun_run by reflexivity.
  run. erewrite updateRun_run by reflexivity.
  run.
  match goal with |- context [forStudents env rest total] =>
    match goal with |- context [(if shouldStop ?st then _ else _) ?st] =>
      set (s2 := st) end end.
  destruct (tallied_one res r l Hl) as [Tone Sone].
  set (r2 := tally res
               (Run.set_processed (S (Run.processed r))
                  (Run.set_students (Some (l ++ [res])) r))) in *.
  assert (Hcur2 : currentRun s2 = Some r2) by reflexivity.
  assert (Hs2 : I s2) by (subst s2; repeat apply HU; exact Hs0).
  assert (F2 : runFrame s s2).
  { pose proof (pushLog_frame info "" None s) as Fl.
    unfold frame, runFrame in *. subst s2. simpl in *.
    intuition (auto; congruence). }
  assert (Hl2 : Run.students r2 = Some (l ++ [res])).
  { destruct Tone as (_ & _ & (l' & Hl' & ->) & _). congruence. }
  assert (Hpause : exists s3,
    (if shouldStop s2 then mret ()
     else gets config ≫= λ cfg : Config, sleep env (delayBetweenStudentsMs cfg))
      s2 = Returned tt s3 /\
    I s3 /\ runFrame s2 s3 /\ currentRun s3 = Some r2 /\
    studentResults s3 = studentResults s2).
  { destruct (shouldStop s2).
    - exists s2. split; [done|]. split; [done|].
      split; [apply runFrame_refl|done].
    - run. destruct (sleep_returns env (delayBetweenStudentsMs (config s2)) s2)
        as (s3 & E3 & F3 & _).
      pose proof (keeps_sleep env _ _
                    (undisturbed_and env _ _ _ HI
                       (undisturbed_results env (studentResults s2)))
                    (delayBetweenStudentsMs (config s2)) Logic.I s2
                    (conj Hs2 eq_refl)) as Hk.
      rewrite E3 in Hk. destruct Hk as [Hs3 Hsto3].
      exists s3. split; [exact E3|]. split; [done|].
      split; [by apply frame_runFrame|]. split; [solve_frame | done]. }
  destruct Hpause as (s3 & -> & Hs3 & F3 & Hcur3 & Hsto3).
  assert (F13 : runFrame s s3) by (eapply runFrame_trans; eauto).
  destruct (IH total s3 r2 (l ++ [res]) Hs3 Hcur3 Hl2)
    as (s' & r' & results & j & E & Hs' & F & Hcur' & T & Hres & Hsto & Hids &
        Hst).
  { destruct F13 as (-> & _). done. }
  { destruct F13 as (-> & _). done. }
  exists s', r', (res :: results), (S j). split; [exact E|]. split; [done|].
  split; [eapply runFrame_trans; eauto|]. split; [done|].
  split; [apply (tallied_trans [res] results r r2 r'); done|].
  split; [by constructor|].
  split.
  { rewrite Hsto, Hsto3. subst s2. simpl. by rewrite Hsto0, Hident. }
  split.
  { rewrite fmap_cons, Hids, Hident. simpl. by rewrite Hid. }
  destruct Hst as [(? & ? & ?)|(? & ?)]; [left|right]; simpl;
    repeat split; (done || lia || congruence).
Qed.

Lemma theRun_run s r : currentRun s = Some r -> theRun s = Returned r s.
Proof. intros Hr. unfold theRun. run. rewrite Hr. by run. Qed.

Lemma finishRun_archive s r :
  currentRun s = Some r ->
  finishRun s =
  Returned tt
    (set_runs (archive (maxRuns s) (runs s) r) (set_isRunning false s)).
Proof. apply finishRun_run. Qed.

Lemma runBatch_spec runId s :
  isRunning s = false ->
  1 <= retryAttempts (config s) -> 1 <= concurrency (config s) ->
  I (set_shouldStop false s) ->
  exists run s',
    runBatch env runId s = Returned (Some run) s' /\ I s' /\
    batchOutcome env s runId run s'.
Proof.
  intros Hidle Hn Hc Hs. unfold runBatch. run. rewrite Hidle. run.
  match goal with |- context [batchBody env ?st] => set (s0 := st) end.
  assert (Hs0 : I s0).
  { subst s0. apply HI, HU.
    change (I (set_isRunning true (set_shouldStop false s))). by apply HU. }
  assert (Hcur0 : currentRun s0 = Some (newRun runId 0)) by reflexivity.
  unfold batchBody. run.
  pose proof (retried_call env _
                (undisturbed_and env _ _ _ HI
                   (undisturbed_results env (studentResults s)))
                CallGetStudentList (getStudentList env)
                "Fetch student list" s0 (conj Hs0 eq_refl)) as Hfetch.
  pose proof (withRetry_value env CallGetStudentList (getStudentList env)
                "Fetch student list" s0) as Hval.
  destruct (withRetry env _ "Fetch student list" s0) as [resp s1|[|m] s1|];
    [| simpl in Hfetch; lia | | done].
  2:{ (* the list could not be fetched *)
    destruct Hfetch as ([Hs1 Hsto1] & F1 & n1 & E1 & T1). unfold messageOf. run.
    assert (Hcur1 : currentRun s1 = Some (newRun runId 0)) by solve_frame.
    erewrite updateRun_run by exact Hcur1. run.
    erewrite updateRun_run by reflexivity. run.
    erewrite theRun_run by reflexivity. run.
    erewrite finishRun_archive by reflexivity. run.
    eexists _, _. split; [reflexivity|].
    split; [repeat (apply HU || apply HI); exact Hs1|].
    unfold batchOutcome. simpl.
    destruct F1 as (-> & -> & -> & _ & _ & -> & _). simpl.
    do 7 (split; [reflexivity|]). exists [].
    split; [constructor|]. split; [exact Hsto1|]. left. split; [reflexivity|].
    split; [destruct Hval as (a & t & Ha); exists a, t; right; eauto|].
    split; [reflexivity|].
    split.
    { unfold tallied, counted, verifiedTotal. simpl.
      repeat split; try lia. by exists []. }
    exists n1. by rewrite E1. }
  destruct Hfetch as ([Hs1 Hsto1] & F1 & n1 & E1 & T1).
  assert (Hcur1 : currentRun s1 = Some (newRun runId 0)) by solve_frame.
  assert (Hlist : forall students,
    fetchedList env students ->
    exists run s',
      match
        (updateRun (Run.set_totalStudents (length students)) ;;
         log info
           ("Found " +:+ pretty (length students) +:+ " students to process")
           None ;;
         forStudents env students (length students) ;;
         r ← theRun;
         (match Run.status r with
          | running => updateRun (Run.set_status run_completed)
          | _ => mret tt
          end) ;;
         mret false) s1
      with
      | Returned a s' => Returned (inl a) s'
      | Raised e s' => Returned (inr e) s'
      | Diverged => Diverged
      end = Returned (inl false) s' /\ I s' /\ currentRun s' = Some run /\
      Run.status run <> running /\ runFrame s1 s' /\
      exists results,
        Forall settledResult results /\
        studentResults s' = storeAll results (studentResults s) /\
        exists j,
          tallied results (newRun runId (length students)) run /\
          StudentResult.applnID <$> results = omap applnIDOf (take j students) /\
          ((Run.status run = stopped /\ (j < length students)%nat /\
            shouldStop s' = true) \/
           (Run.status run = run_completed /\ j = length students))).
  { intros students Hfetched. run.
    erewrite updateRun_run by exact Hcur1. run.
    match goal with |- context [forStudents env students _ ?st] =>
      destruct (forStudents_spec students (length students) st
                  (Run.set_totalStudents (length students) (newRun runId 0)) [])
        as (s2 & r2 & results & j & E2 & Hs2 & F2 & Hcur2 & T2 & Hres & Hsto2 &
            Hids & Hst)
    end; [by apply HI, HU | reflexivity | reflexivity | | |].
    { simpl. destruct F1 as (-> & _). done. }
    { simpl. destruct F1 as (-> & _). done. }
    rewrite E2. run. erewrite theRun_run by exact Hcur2. run.
    assert (F12 : runFrame s1 s2).
    { unfold runFrame in *. simpl in F2. exact F2. }
    simpl in Hsto2. rewrite Hsto1 in Hsto2.
    destruct Hst as [(Hst & Hj & Hstop)|(Hst & Hj)].
    - rewrite Hst. run. exists r2, s2. split; [done|]. split; [done|].
      split; [done|]. split; [by rewrite Hst|]. split; [done|].
      exists results. split; [done|]. split; [done|]. exists j.
      split; [exact T2|]. split; [done|]. by left.
    - simpl in Hst. rewrite Hst. cbv iota.
      erewrite updateRun_run by exact Hcur2. run.
      eexists _, _. split; [reflexivity|]. split; [by apply HU|].
      split; [reflexivity|]. split; [done|]. split; [done|].
      exists results. split; [done|]. split; [done|]. exists j. split.
      { unfold tallied in *. simpl. exact T2. }
      split; [done|]. by right. }
  cbv beta iota. destruct resp as [|l|one].
  { (* Atlas has answered without data *)
    run. erewrite updateRun_run by exact Hcur1. run.
    erewrite updateRun_run by reflexivity. run.
    erewrite finishRun_archive by reflexivity. run.
    eexists _, _. split; [reflexivity|].
    split; [repeat (apply HU || apply HI); exact Hs1|].
    unfold batchOutcome. simpl.
    destruct F1 as (-> & -> & -> & _ & _ & -> & _). simpl.
    do 7 (split; [reflexivity|]). exists [].
    split; [constructor|]. split; [exact Hsto1|]. left. split; [reflexivity|].
    split; [destruct Hval as (a & t & Ha); exists a, t; by left|].
    split; [reflexivity|]. split.
    { unfold tallied, counted, verifiedTotal. simpl.
      repeat split; try lia. by exists []. }
    exists n1. by rewrite E1. }
  1: assert (Hfetched : fetchedList env l)
       by (destruct Hval as (a & t & Ha); exists a, t; by left).
  2: assert (Hfetched : fetchedList env [one])
       by (destruct Hval as (a & t & Ha); exists a, t; right; by exists one).
  all: cbv beta iota zeta.
  all: destruct (Hlist _ Hfetched)
         as (run & s2 & -> & Hs2 & Hcur2 & Hst & F2 & results & Hres & Hsto2 &
             j & T2 & Hids & Hend).
  all: run; erewrite updateRun_run by exact Hcur2; run.
  all: erewrite theRun_run by reflexivity; run.
  all: erewrite finishRun_archive by reflexivity; run.
  all: eexists _, _; (split; [reflexivity|]).
  all: split; [repeat (apply HU || apply HI); exact Hs2|].
  all: unfold batchOutcome; simpl.
  all: destruct F2 as (-> & -> & -> & _ & -> & Hmono).
  all: destruct F1 as (-> & -> & -> & _ & _ & -> & _); simpl.
  all: do 7 (split; [reflexivity|]); exists results; (split; [done|]).
  all: split; [exact Hsto2|].
  all: right; eexists _, j; (split; [exact Hfetched|]); (split; [exact T2|]).
  all: split; [done | exact Hend].
Qed.

End Batch.

Lemma counted_partition results :
  (counted isVerified results + counted isSkipped results +
   counted isFailed results)%nat = length results.
Proof.
  unfold counted, isFailed, isVerified, isSkipped.
  induction results as [|res l IH]; [done|]. simpl.
  destruct (StudentResult.status res); simpl; lia.
Qed.

Lemma omap_take_length {A B} (f : A -> option B) (l : list A) j :
  (length (omap f (take j l)) <= j)%nat /\
  (length (omap f (take j l)) <= length l)%nat.
Proof.
  assert (H : forall l' : list A, (length (omap f l') <= length l')%nat).
  { induction l' as [|x l' IH]; [done|].
    change (omap f (x :: l'))
      with (match f x with Some y => y :: omap f l' | None => omap f l' end).
    destruct (f x); simpl length; lia. }
  specialize (H (take j l)). rewrite length_take in H. lia.
Qed.

(** Over settled results, the sum of a counter bounded by [totalDocs] is
    its sum over the verified ones. *)
Lemma verifiedTotal_all (f : StudentResult.t -> nat) results :
  (forall res, settledResult res -> (f res <= StudentResult.totalDocs res)%nat) ->
  Forall settledResult results ->
  verifiedTotal f results = sum_list (f <$> results).
Proof.
  assert (Hcons : forall n l, sum_list (n :: l) = (n + sum_list l)%nat) by done.
  intros Hf. unfold verifiedTotal.
  induction 1 as [|res l Hres _ IH]; [done|].
  change (List.filter isVerified (res :: l))
    with (if isVerified res then res :: List.filter isVerified l
          else List.filter isVerified l).
  rewrite (fmap_cons f res l), Hcons.
  destruct (isVerified res) eqn:Hv; [by rewrite fmap_cons, Hcons, IH|].
  rewrite IH. pose proof (Hf res Hres) as Hle.
  destruct Hres as (_ & _ & _ & Hz). rewrite (Hz Hv) in Hle. lia.
Qed.

Lemma archive_lastN capacity history r :
  1 <= capacity ->
  archive capacity history r =
  lastN (Z.to_nat capacity) (history ++ [Run.set_students None r]).
Proof.
  intros Hm. unfold archive.
  destruct (Z.ltb_spec capacity
              (Z.of_nat (length (history ++ [Run.set_students None r])))).
  - by apply sliceFrom_neg.
  - unfold lastN. by replace (_ - _)%nat with 0%nat by lia.
Qed.

(** X14. From an idle scheduler with at least one attempt allowed and a
    concurrency of at least 1, [runBatch] always returns its run,
    finalized: the run is ended, its status is [completed], [stopped] or
    [error], the flag is released and the summary of the run is the newest
    entry of history. The run has processed as many subjects as it holds
    results, each counted once as completed, skipped or failed, and never
    more than the list had students; a stopped run has left students out;
    a run that ended in [error] has processed none. *)
Theorem runBatch_finalizes env runId (s : Scheduler) :
  isRunning s = false ->
  1 <= retryAttempts (config s) -> 1 <= concurrency (config s) ->
  exists run s' results,
    runBatch env runId s = Returned (Some run) s' /\
    Run.id run = runId /\ Run.ended run = true /\
    Run.status run <> running /\
    isRunning s' = false /\ currentRun s' = Some run /\
    config s' = config s /\
    (1 <= maxRuns s ->
     runs s' =
       lastN (Z.to_nat (maxRuns s)) (runs s ++ [Run.set_students None run])) /\
    Run.students run = Some results /\
    Forall settledResult results /\
    Run.processed run = length results /\
    (Run.completed run + Run.skipped run + Run.errors run)%nat =
      Run.processed run /\
    (Run.processed run <= Run.totalStudents run)%nat /\
    (Run.status run = stopped ->
     (Run.processed run < Run.totalStudents run)%nat /\ shouldStop s' = true) /\
    (Run.status run = run_error ->
     Run.processed run = 0%nat /\ Run.totalStudents run = 0%nat).
Proof.
  intros Hidle Hn Hc.
  destruct (runBatch_spec env (fun _ => True) ltac:(by repeat split)
              ltac:(by repeat split) runId s Hidle Hn Hc Logic.I)
    as (run & s' & E & _ & Hcfg & _ & _ & Hidle' & Hcur & Hruns & Hended &
        results & Hres & _ & Hcase).
  exists run, s', results. split; [exact E|].
  assert (Htally : exists total j,
    tallied results (newRun runId total) run /\
    (length results <= j)%nat /\ (j <= total)%nat /\
    (Run.status run = run_error /\ results = [] /\ total = 0%nat \/
     Run.status run = stopped /\ (j < total)%nat /\ shouldStop s' = true \/
     Run.status run = run_completed)).
  { destruct Hcase as [(Hst & _ & -> & T & _) |
                       (students & j & _ & T & Hids & Hst)].
    - exists 0%nat, 0%nat. split; [done|]. split; [done|]. split; [done|].
      by left.
    - exists (length students), j. split; [done|].
      apply (f_equal length) in Hids. rewrite length_fmap in Hids.
      destruct (omap_take_length applnIDOf students j) as [Hj _].
      split; [lia|].
      destruct Hst as [(? & ? & ?)|(? & ->)]; (split; [lia|]); tauto. }
  destruct Htally as (total & j & T & Hlen & Hj & Hst).
  destruct T as (Hid & Htot & (l & Hl & Hl') & Hp & Hco & Hsk & Her & _).
  simpl in Hid, Htot, Hl, Hp, Hco, Hsk, Her. injection Hl as <-.
  pose proof (counted_partition results) as Hpart.
  split; [done|]. split; [done|].
  split; [destruct Hst as [(-> & _)|[(-> & _)| ->]]; done|].
  split; [done|]. split; [done|]. split; [done|].
  split; [intros Hm; rewrite Hruns; by apply archive_lastN|].
  split; [done|]. split; [done|]. split; [lia|]. split; [lia|].
  split; [lia|]. split.
  - intros Hs. destruct Hst as [(H & _)|[(_ & ? & ?)|H]];
      [congruence | split; [lia|done] | congruence].
  - intros Hs. destruct Hst as [(_ & -> & ->)|[(H & _)|H]];
      [simpl in *; lia | congruence..].
Qed.

(** The batch over the campus list: the student without id is passed
    over. *)
Lemma runBatch_finalizes_example :
  exists run s' results,
    runBatch campusEnv 7 newScheduler = Returned (Some run) s' /\
    Run.id run = 7 /\ Run.ended run = true /\
    Run.status run <> running /\
    isRunning s' = false /\ currentRun s' = Some run /\
    config s' = config newScheduler /\
    (1 <= maxRuns newScheduler ->
     runs s' =
       lastN (Z.to_nat (maxRuns newScheduler))
         (runs newScheduler ++ [Run.set_students None run])) /\
    Run.students run = Some results /\
    Forall settledResult results /\
    Run.processed run = length results /\
    (Run.completed run + Run.skipped run + Run.errors run)%nat =
      Run.processed run /\
    (Run.processed run <= Run.totalStudents run)%nat /\
    (Run.status run = stopped ->
     (Run.processed run < Run.totalStudents run)%nat /\ shouldStop s' = true) /\
    (Run.status run = run_error ->
     Run.processed run = 0%nat /\ Run.totalStudents run = 0%nat).
Proof.
  apply (runBatch_finalizes campusEnv 7 newScheduler);
    [reflexivity | simpl; lia | simpl; lia].
Defined.

(** X15. The totals of a finalized batch are the sums over the results it
    holds: [totalDocsVerified] of their [totalDocs], [totalApproved] and
    [totalRejected] of their [approved] and [rejected] counters (the
    subjects that are skipped or failed contribute nothing); so the
    verdicts of a run never exceed the documents it had to verify. *)
Theorem runBatch_totals env runId (s : Scheduler) run s' results :
  isRunning s = false ->
  1 <= retryAttempts (config s) -> 1 <= concurrency (config s) ->
  runBatch env runId s = Returned (Some run) s' ->
  Run.students run = Some results ->
  Run.totalDocsVerified run = sum_list (StudentResult.totalDocs <$> results) /\
  Run.totalApproved run = sum_list (StudentResult.approved <$> results) /\
  Run.totalRejected run = sum_list (StudentResult.rejected <$> results) /\
  Run.completed run = counted isVerified results /\
  Run.skipped run = counted isSkipped results /\
  Run.errors run = counted isFailed results /\
  (Run.totalApproved run + Run.totalRejected run <= Run.totalDocsVerified run)%nat.
Proof.
  intros Hidle Hn Hc Hrun Hstudents.
  destruct (runBatch_spec env (fun _ => True) ltac:(by repeat split)
              ltac:(by repeat split) runId s Hidle Hn Hc Logic.I)
    as (run' & s'' & E & _ & _ & _ & _ & _ & _ & _ & _ & results' & Hres & _ &
        Hcase).
  rewrite Hrun in E. injection E as <- <-.
  assert (T : exists total, tallied results' (newRun runId total) run).
  { destruct Hcase as [(_ & _ & _ & T & _) | (students & j & _ & T & _)]; eauto. }
  destruct T as (total & _ & _ & (l & Hl & Hl') & _ & Hco & Hsk & Her & Hd & Ha & Hr).
  simpl in Hl, Hco, Hsk, Her, Hd, Ha, Hr. injection Hl as <-.
  assert (results' = results) as -> by (simpl in Hl'; congruence).
  rewrite verifiedTotal_all in Hd, Ha, Hr; try done.
  2,3: intros res (_ & _ & ? & _); lia.
  do 6 (split; [done|]). rewrite Hd, Ha, Hr.
  clear -Hres. induction Hres as [|res l (_ & _ & Hle & _) _ IH]; [done|].
  rewrite !fmap_cons.
  simpl. simpl in IH. lia.
Qed.

Lemma runBatch_totals_example :
  exists run s' results,
    runBatch campusEnv 7 newScheduler = Returned (Some run) s' /\
    Run.students run = Some results /\
    Run.totalDocsVerified run = sum_list (StudentResult.totalDocs <$> results) /\
    Run.totalApproved run = sum_list (StudentResult.approved <$> results) /\
    Run.totalRejected run = sum_list (StudentResult.rejected <$> results) /\
    Run.completed run = counted isVerified results /\
    Run.skipped run = counted isSkipped results /\
    Run.errors run = counted isFailed results /\
    (Run.totalApproved run + Run.totalRejected run <=
       Run.totalDocsVerified run)%nat.
Proof.
  eexists _, _, _. split; [vm_compute; reflexivity|]. split; [reflexivity|].
  eapply (runBatch_totals campusEnv 7 newScheduler);
    [reflexivity | simpl; lia | simpl; lia | vm_compute; reflexivity
    | reflexivity].
Defined.

(** X16. When Atlas never answers with a student list (every attempt is
    refused, or answered without data), the batch ends in [error] with
    nothing processed: it holds no result, and its only remote calls are
    those of [getStudentList]. *)
Theorem runBatch_without_list env runId (s : Scheduler) :
  isRunning s = false ->
  1 <= retryAttempts (config s) -> 1 <= concurrency (config s) ->
  (forall attempt t,
     getStudentList env attempt t = Resolved NoStudentData \/
     exists m, getStudentList env attempt t = Rejected m) ->
  exists run s' new,
    runBatch env runId s = Returned (Some run) s' /\
    Run.status run = run_error /\ Run.ended run = true /\
    Run.students run = Some [] /\ Run.processed run = 0%nat /\
    Run.totalStudents run = 0%nat /\
    isRunning s' = false /\
    effects s' = effects s ++ new /\
    (forall c, Called c ∈ new -> c = CallGetStudentList).
Proof.
  intros Hidle Hn Hc Hnone.
  destruct (runBatch_spec env (fun _ => True) ltac:(by repeat split)
              ltac:(by repeat split) runId s Hidle Hn Hc Logic.I)
    as (run & s' & E & _ & _ & _ & _ & Hidle' & _ & _ & Hended & results &
        _ & _ & Hcase).
  destruct Hcase as [(Hst & _ & -> & T & new & Hnew & Hev) |
                     (students & j & (a & t & Hlist) & _)]; cycle 1.
  { destruct (Hnone a t) as [H|[m H]], Hlist as [H'|(one & H' & _)]; congruence. }
  exists run, s', new. split; [exact E|].
  destruct T as (_ & Htot & (l & Hl & Hl') & Hp & _).
  simpl in Htot, Hl, Hp. injection Hl as <-.
  do 6 (split; [done|]). split; [done|].
  intros c Hin. rewrite Forall_forall in Hev.
  destruct (Hev _ Hin) as [[= ->]|[? ?]]; [done | discriminate].
Qed.

Lemma runBatch_without_list_example :
  exists run s' new,
    runBatch (unreachableEnv "socket hang up") 7 newScheduler =
      Returned (Some run) s' /\
    Run.status run = run_error /\ Run.ended run = true /\
    Run.students run = Some [] /\ Run.processed run = 0%nat /\
    Run.totalStudents run = 0%nat /\
    isRunning s' = false /\
    effects s' = effects newScheduler ++ new /\
    (forall c, Called c ∈ new -> c = CallGetStudentList).
Proof.
  apply (runBatch_without_list (unreachableEnv "socket hang up") 7 newScheduler);
    [reflexivity | simpl; lia | simpl; lia |].
  intros attempt t. right. eexists. reflexivity.
Defined.

(** X17. When no stop is requested during the run and Atlas answers every
    request for the list with the students [students], the batch ends
    [completed]: [totalStudents] is their number, and the run holds one
    result for each student that bears an id, in the order of the list; the
    students without any id are passed over, so [processed] stays below
    [totalStudents] when there are some. A stop flag left raised by an
    earlier run does not matter. *)
Theorem runBatch_uninterrupted env runId (s : Scheduler)
    (students : list Student) :
  isRunning s = false ->
  1 <= retryAttempts (config s) -> 1 <= concurrency (config s) ->
  (forall t, stopRequested env t = false) ->
  (forall attempt t,
     getStudentList env attempt t = Resolved (StudentArray students)) ->
  exists run s' results,
    runBatch env runId s = Returned (Some run) s' /\
    Run.status run = run_completed /\
    Run.totalStudents run = length students /\
    Run.students run = Some results /\
    StudentResult.applnID <$> results = omap applnIDOf students /\
    Run.processed run = length (omap applnIDOf students) /\
    shouldStop s' = false.
Proof.
  intros Hidle Hn Hc Hquiet Hlist.
  assert (HI : undisturbed env (fun _ => True) (fun x => shouldStop x = false)).
  { repeat split; try done; intros; by rewrite Hquiet in *. }
  assert (HU : unobserved (fun x => shouldStop x = false)) by by repeat split.
  destruct (runBatch_spec env _ HI HU runId s Hidle Hn Hc eq_refl)
    as (run & s' & E & Hstop & _ & _ & _ & _ & _ & _ & _ & results & _ & _ &
        Hcase).
  exists run, s', results. split; [exact E|].
  destruct Hcase as [(_ & (a & t & Hfail) & _) |
                     (students' & j & (a & t & Hfetched) & T & Hids & Hst)].
  { rewrite Hlist in Hfail. destruct Hfail as [?|[? ?]]; discriminate. }
  assert (students' = students) as ->.
  { rewrite Hlist in Hfetched.
    destruct Hfetched as [[= ->]|(one & ? & _)]; [done | discriminate]. }
  destruct Hst as [(_ & _ & Hs')|(Hst & ->)]; [congruence|].
  rewrite firstn_all in Hids.
  destruct T as (_ & Htot & (l & Hl & Hl') & Hp & _).
  simpl in Htot, Hl, Hp. injection Hl as <-.
  split; [done|]. split; [done|]. split; [done|]. split; [done|].
  split; [|done]. rewrite Hp, <- Hids, length_fmap. done.
Qed.

Lemma runBatch_uninterrupted_example :
  let students :=
    [mkStudent (Some "S1") (Some "Ann"); mkStudent None (Some "Bob");
     mkStudent (Some "S3") None] in
  exists run s' results,
    runBatch campusEnv 7 (set_shouldStop true newScheduler) =
      Returned (Some run) s' /\
    Run.status run = run_completed /\
    Run.totalStudents run = length students /\
    Run.students run = Some results /\
    StudentResult.applnID <$> results = omap applnIDOf students /\
    Run.processed run = length (omap applnIDOf students) /\
    shouldStop s' = false.
Proof.
  intros students.
  apply (runBatch_uninterrupted campusEnv 7 (set_shouldStop true newScheduler)
           students); [reflexivity | simpl; lia | simpl; lia | done | done].
Defined.

(** X18. A batch keeps the log buffer within its capacity: started with at
    most [maxLogs] entries in the buffer ([maxLogs] being at least 1), it
    ends with at most [maxLogs] entries, whatever it has logged. *)
Theorem runBatch_keeps_log_bounded env runId (s : Scheduler) :
  isRunning s = false ->
  1 <= retryAttempts (config s) -> 1 <= concurrency (config s) ->
  1 <= maxLogs s -> Z.of_nat (length (logs s)) <= maxLogs s ->
  exists run s',
    runBatch env runId s = Returned (Some run) s' /\
    maxLogs s' = maxLogs s /\ Z.of_nat (length (logs s')) <= maxLogs s.
Proof.
  intros Hidle Hn Hc Hcap Hlen.
  assert (HU : unobserved logBounded).
  { unfold unobserved, logBounded. repeat split; simpl; tauto. }
  destruct (runBatch_spec env logBounded (undisturbed_logBounded env) HU
              runId s Hidle Hn Hc (conj Hcap Hlen))
    as (run & s' & E & [_ Hb] & _ & Hm & _).
  exists run, s'. split; [exact E|]. split; [done|]. by rewrite <- Hm.
Qed.

Lemma runBatch_keeps_log_bounded_example :
  exists run s',
    runBatch campusEnv 7 (schedulerWithMaxLogs 3) = Returned (Some run) s' /\
    maxLogs s' = maxLogs (schedulerWithMaxLogs 3) /\
    Z.of_nat (length (logs s')) <= maxLogs (schedulerWithMaxLogs 3).
Proof.
  apply (runBatch_keeps_log_bounded campusEnv 7 (schedulerWithMaxLogs 3));
    [reflexivity | simpl; lia | simpl; lia | simpl; lia | simpl; lia].
Defined.

(** X19. With no attempt allowed ([retryAttempts] below 1), a batch started
    on an idle scheduler calls nothing: [withRetry] throws [undefined], the
    handler of [runBatch] fails on [err.message], and [runBatch] throws
    before [finishRun]. The flag stays raised and the run stays [running]:
    from then on every [runBatch] returns [null] and every
    [verifySingleStudent] is refused. *)
Theorem no_attempt_wedges_scheduler env runId (s : Scheduler) :
  isRunning s = false -> retryAttempts (config s) < 1 ->
  exists s',
    runBatch env runId s =
      Raised
        (ThrownError "Cannot read properties of undefined (reading 'message')")
        s' /\
    isRunning s' = true /\ (Run.status <$> currentRun s') = Some running /\
    runs s' = runs s /\ effects s' = effects s /\
    (forall runId', exists s'', runBatch env runId' s' = Returned None s'' /\
       isRunning s'' = true) /\
    (forall runId' applnID,
       verifySingleStudent env runId' applnID s' = Raised busy s').
Proof.
  intros Hidle Hn. unfold runBatch at 1. run. rewrite Hidle. run.
  unfold batchBody. run. rewrite withRetry_unconfigured by (simpl; lia).
  unfold messageOf. run. eexists. split; [reflexivity|].
  do 4 (split; [reflexivity|]). split.
  - intros runId'. unfold runBatch. run. simpl isRunning. run.
    eexists. split; reflexivity.
  - intros runId' applnID. unfold verifySingleStudent. by run.
Qed.

Lemma no_attempt_wedges_scheduler_example :
  let s :=
    set_config
      {| concurrency := 2; retryAttempts := 0; retryDelayMs := 2000;
         delayBetweenStudentsMs := 1000; delayBetweenDocsMs := 500;
         skipAlreadyVerified := true |} newScheduler in
  exists s',
    runBatch campusEnv 7 s =
      Raised
        (ThrownError "Cannot read properties of undefined (reading 'message')")
        s' /\
    isRunning s' = true /\ (Run.status <$> currentRun s') = Some running /\
    runs s' = runs s /\ effects s' = effects s /\
    (forall runId', exists s'', runBatch campusEnv runId' s' = Returned None s'' /\
       isRunning s'' = true) /\
    (forall runId' applnID,
       verifySingleStudent campusEnv runId' applnID s' = Raised busy s').
Proof.
  intros s. apply (no_attempt_wedges_scheduler campusEnv 7 s);
    [reflexivity | simpl; lia].
Defined.

Lemma storeAll_other results : forall store other,
  other ∉ (StudentResult.applnID <$> results) ->
  storeAll results store !! other = store !! other.
Proof.
  unfold storeAll.
  induction results as [|res l IH]; intros store other Hother; [done|].
  rewrite fmap_cons in Hother. apply not_elem_of_cons in Hother as [Hne Hl].
  simpl. rewrite IH by done. by apply lookup_insert_ne.
Qed.

Lemma storeAll_lookup results : forall store res,
  NoDup (StudentResult.applnID <$> results) -> res ∈ results ->
  storeAll results store !! StudentResult.applnID res = Some res.
Proof.
  induction results as [|first l IH]; intros store res Hnd Hin;
    [by apply elem_of_nil in Hin|].
  rewrite fmap_cons in Hnd. apply NoDup_cons in Hnd as [Hfirst Hnd].
  apply elem_of_cons in Hin as [->|Hin].
  - change (storeAll (first :: l) store)
      with (storeAll l (<[StudentResult.applnID first := first]> store)).
    rewrite storeAll_other by done. apply lookup_insert_eq.
  - by apply IH.
Qed.

(** X20. After a batch, the store of results holds what it held before
    with the results of the run stored over it in turn, each under its
    subject's id: [getStudentResult] yields the run's result for every
    subject of the run (the ids of the run being distinct), and what it
    yielded before for every other id. *)
Theorem runBatch_caches_results env runId (s : Scheduler) run s' results :
  isRunning s = false ->
  1 <= retryAttempts (config s) -> 1 <= concurrency (config s) ->
  runBatch env runId s = Returned (Some run) s' ->
  Run.students run = Some results ->
  studentResults s' = storeAll results (studentResults s) /\
  (NoDup (StudentResult.applnID <$> results) ->
   forall res, res ∈ results ->
     getStudentResult (StudentResult.applnID res) s' = Some res) /\
  (forall other, other ∉ (StudentResult.applnID <$> results) ->
     getStudentResult other s' = getStudentResult other s).
Proof.
  intros Hidle Hn Hc Hrun Hstudents.
  destruct (runBatch_spec env (fun _ => True) ltac:(by repeat split)
              ltac:(by repeat split) runId s Hidle Hn Hc Logic.I)
    as (run' & s'' & E & _ & _ & _ & _ & _ & _ & _ & _ & results' & _ & Hsto &
        Hcase).
  rewrite Hrun in E. injection E as <- <-.
  assert (results' = results) as ->.
  { destruct Hcase as [(_ & _ & _ & T & _) | (students & j & _ & T & _)];
      destruct T as (_ & _ & (l & Hl & Hl') & _); simpl in Hl;
      injection Hl as <-; simpl in Hl'; congruence. }
  unfold getStudentResult. rewrite Hsto. split; [done|]. split.
  - intros Hnd res Hin. by apply storeAll_lookup.
  - intros other Hother. by apply storeAll_other.
Qed.

Lemma runBatch_caches_results_example :
  exists run s' results,
    runBatch campusEnv 7 newScheduler = Returned (Some run) s' /\
    Run.students run = Some results /\
    studentResults s' = storeAll results (studentResults newScheduler) /\
    (NoDup (StudentResult.applnID <$> results) ->
     forall res, res ∈ results ->
       getStudentResult (StudentResult.applnID res) s' = Some res) /\
    (forall other, other ∉ (StudentResult.applnID <$> results) ->
       getStudentResult other s' = getStudentResult other newScheduler).
Proof.
  eexists _, _, _. split; [vm_compute; reflexivity|]. split; [reflexivity|].
  eapply (runBatch_caches_results campusEnv 7 newScheduler);
    [reflexivity | simpl; lia | simpl; lia | vm_compute; reflexivity
    | reflexivity].
Defined.

(** X21. An on-demand run stores the result of its subject: whenever
    [verifySingleStudent] returns its run, the run holds exactly one result,
    which bears the subject's id and is what [getStudentResult] yields for
    it afterwards; the results stored for other subjects are as they
    were. *)
Theorem verifySingleStudent_caches_result env runId applnID (s : Scheduler)
    run s' :
  verifySingleStudent env runId applnID s = Returned run s' ->
  exists r res,
    run = Some r /\ Run.students r = Some [res] /\
    StudentResult.applnID res = applnID /\
    getStudentResult applnID s' = Some res /\
    forall other, other <> applnID ->
      getStudentResult other s' = getStudentResult other s.
Proof.
  unfold verifySingleStudent. run. destruct (isRunning s); run; [done|].
  match goal with |- context [processStudent env applnID applnID ?s0] =>
    pose proof (processStudent_outcome env _
                  (undisturbed_results env (studentResults s))
                  applnID applnID s0 eq_refl) as Hsub;
    destruct (processStudent env applnID applnID s0) as [res s1|e s1|]
  end; [|done..].
  destruct Hsub as (_ & s0 & new & Hsto & F0 & -> & _ & Hd).
  apply subjectDetail_identity in Hd as [Hident _].
  assert (Hcur0 : currentRun s0 = Some (newRun runId 1)) by solve_frame.
  run. erewrite pushStudent_run by (exact Hcur0 || reflexivity). run.
  do 4 (erewrite updateRun_run by reflexivity; run).
  erewrite finishRun_run by reflexivity. run. intros [= <- <-].
  eexists _, res. split; [reflexivity|].
  split; [unfold tallySingle; by destruct (StudentResult.status res)|].
  split; [done|]. unfold getStudentResult. simpl. rewrite Hsto.
  split; [apply lookup_insert_eq|]. intros other Hne. by apply lookup_insert_ne.
Qed.

Lemma verifySingleStudent_caches_result_example :
  exists run s',
    verifySingleStudent scenarioEnv 7 "S1" newScheduler = Returned run s' /\
    exists r res,
      run = Some r /\ Run.students r = Some [res] /\
      StudentResult.applnID res = "S1" /\
      getStudentResult "S1" s' = Some res /\
      forall other, other <> "S1" ->
        getStudentResult other s' = getStudentResult other newScheduler.
Proof.
  eexists _, _. split; [vm_compute; reflexivity|].
  apply (verifySingleStudent_caches_result scenarioEnv 7 "S1" newScheduler).
  vm_compute. reflexivity.
Defined.

(** X22. The id [runBatch] reads off a student is the first of [applnID],
    [id] and [application_id] that is neither missing nor empty; a student
    for whom all three are is passed over. So a subject is never processed
    under an empty id, nor under an empty name. *)
Theorem batch_subject_identity (student : Student) :
  match applnIDOf student with
  | Some applnID =>
      applnID <> "" /\ studentNameOf student applnID <> "" /\
      (st_applnID student = Some applnID \/
       JS.truthy_opt (st_applnID student) = false /\
       (st_id student = Some applnID \/
        JS.truthy_opt (st_id student) = false /\
        st_application_id student = Some applnID))
  | None =>
      JS.truthy_opt (st_applnID student) = false /\
      JS.truthy_opt (st_id student) = false /\
      JS.truthy_opt (st_application_id student) = false
  end.
Proof.
  assert (Htruthy : forall o a, JS.truthy_opt o = true -> o = Some a -> a <> "").
  { intros o a Ht -> ->. done. }
  assert (Hor : forall a b, b <> "" -> JS.or_else a b <> "").
  { intros a b Hb. unfold JS.or_else, JS.truthy.
    case_bool_decide; simpl; done. }
  assert (Hname : forall a, a <> "" -> studentNameOf student a <> "").
  { intros a Ha. unfold studentNameOf. by apply Hor, Hor. }
  unfold applnIDOf, JS.or_null.
  destruct (JS.truthy_opt (st_applnID student)) eqn:H1.
  { destruct (st_applnID student) as [a|] eqn:E1; [|done].
    assert (a <> "") by (by eapply Htruthy). auto. }
  destruct (JS.truthy_opt (st_id student)) eqn:H2.
  { destruct (st_id student) as [a|] eqn:E2; [|done].
    assert (a <> "") by (by eapply Htruthy). auto 6. }
  destruct (JS.truthy_opt (st_application_id student)) eqn:H3; [|done].
  destruct (st_application_id student) as [a|] eqn:E3; [|done].
  assert (a <> "") by (by eapply Htruthy). auto 8.
Qed.

(** ** A concurrency below 1 *)

Lemma withRetry_first_try env {A} c (answer : Z -> nat -> Outcome A) label s v :
  1 <= retryAttempts (config s) -> answer 1 (clock s) = Resolved v ->
  exists s',
    withRetry env (fun a => await env c (answer a)) label s = Returned v s' /\
    frame s s' /\ effects s' = effects s ++ [Called c].
Proof.
  intros Hn Ha. unfold withRetry. run. simpl retryLoop. run.
  destruct (Z.leb_spec 1 (retryAttempts (config s))); [|lia]. run.
  destruct (await_spec env c (answer 1) s) as (s1 & F1 & E1 & R1).
  rewrite R1, Ha. run. by exists s1.
Qed.

(** X23. With a concurrency below 1, [chunkArray] never ends on a list that
    is not empty, however many iterations are granted: [i] does not
    advance. So [processStudent] does not return for a subject with a
    document to verify; it has fetched the document list and nothing
    else. *)
Theorem no_concurrency_no_return env applnID studentName (s : Scheduler)
    (docs : list Doc.t) :
  concurrency (config s) < 1 -> 1 <= retryAttempts (config s) ->
  getDocumentList env applnID 1 (clock s) =
    Resolved {| dl_status := 1; dl_document_status := Some docs |} ->
  candidates (config s) docs <> [] ->
  (forall fuel,
     chunkLoop fuel (candidates (config s) docs) (concurrency (config s)) 0 [] =
     None) /\
  processStudent env applnID studentName s = Diverged.
Proof.
  intros Hc Hn Hlist Hcands. split.
  { intros fuel. apply chunkLoop_diverges; (done || lia). }
  unfold processStudent. run.
  destruct (withRetry_first_try env (CallGetDocumentList applnID)
              (getDocumentList env applnID) ("Fetch docs for " +:+ applnID) s _
              Hn Hlist) as (s1 & -> & F1 & _).
  run. cbn [dl_status dl_document_status].
  rewrite bool_decide_eq_true_2 by done. cbv iota. run.
  assert (Hc1 : config s1 = config s) by solve_frame.
  rewrite !Hc1.
  change (if skipAlreadyVerified (config s)
          then List.filter
                 (fun doc => negb (bool_decide (Doc.verify_status doc = "2")))
                 (List.filter hasFile docs)
          else List.filter hasFile docs) with (candidates (config s) docs).
  destruct (candidates (config s) docs) as [|c0 cands] eqn:Ecands; [done|].
  run. rewrite Hc1. unfold chunkArray.
  rewrite chunkLoop_diverges; [done | lia | done | lia].
Qed.

Lemma no_concurrency_no_return_example :
  let s :=
    set_config
      {| concurrency := 0; retryAttempts := 3; retryDelayMs := 2000;
         delayBetweenStudentsMs := 1000; delayBetweenDocsMs := 500;
         skipAlreadyVerified := true |} newScheduler in
  (forall fuel,
     chunkLoop fuel (candidates (config s) [docA; docB]) (concurrency (config s))
       0 [] = None) /\
  processStudent (steadyEnv [docA; docB]) "S1" "Ann" s = Diverged.
Proof.
  intros s.
  apply (no_concurrency_no_return (steadyEnv [docA; docB]) "S1" "Ann" s
           [docA; docB]); [simpl; lia | simpl; lia | reflexivity | done].
Defined.

(** ** The configuration and the status *)

(** X24. [updateConfig] stores the values it is given for the allowed keys,
    unchecked, and leaves the run, the history and the results alone. A
    schedule that is given, not empty, while the scheduler is active
    restarts the scheduler: it ends active exactly when the new schedule is
    valid, and a batch that is running is signalled to stop. In the other
    cases neither the scheduler nor the stop flag is touched: an empty
    schedule is stored while the job goes on. *)
Theorem updateConfig_restarts_cron (validate : string -> bool)
    (updates : Updates) (st : Settings) (s : Scheduler) :
  exists s',
    updateConfig validate updates st s =
      Returned (updatedSettings updates st, config s') s' /\
    config s' = updatedConfig updates (config s) /\
    autoStart (updatedSettings updates st) = autoStart st /\
    isRunning s' = isRunning s /\ currentRun s' = currentRun s /\
    runs s' = runs s /\ studentResults s' = studentResults s /\
    effects s' = effects s /\
    match u_cronSchedule updates with
    | Some schedule =>
        cronSchedule (updatedSettings updates st) = schedule /\
        if bool_decide (schedule = "") || negb (cronJob s)
        then cronJob s' = cronJob s /\ shouldStop s' = shouldStop s
        else cronJob s' = validate schedule /\
             shouldStop s' = (shouldStop s || isRunning s)
    | None =>
        cronSchedule (updatedSettings updates st) = cronSchedule st /\
        cronJob s' = cronJob s /\ shouldStop s' = shouldStop s
    end.
Proof.
  unfold updateConfig, updatedSettings, JS.truthy_opt, JS.truthy. run.
  change (cronJob (set_config (updatedConfig updates (config s)) s))
    with (cronJob s).
  destruct (u_cronSchedule updates) as [schedule|]; cycle 1.
  { cbn [andb]. run. eexists. split; [reflexivity|]. by repeat split. }
  change (default (cronSchedule st) (Some schedule)) with schedule.
  destruct (bool_decide (schedule = "")) eqn:Hempty; cbn [negb andb orb].
  { run. eexists. split; [reflexivity|]. by repeat split. }
  destruct (cronJob s) eqn:Hjob; cbn [negb andb orb]; cycle 1.
  { run. eexists. split; [reflexivity|]. simpl. rewrite Hjob. by repeat split. }
  unfold stopScheduler, startScheduler. run. cbn [cronJob set_config].
  rewrite Hjob. run. cbn [isRunning cronJob set_config set_cronJob pushLog set_logs].
  destruct (isRunning s) eqn:Hrun; run;
    cbn [cronJob set_shouldStop pushLog set_logs set_cronJob cronSchedule];
    destruct (validate schedule) eqn:Hvalid; cbn [negb]; run;
    (eexists; split; [reflexivity|]); simpl; rewrite ?Hrun, ?orb_true_r,
      ?orb_false_r; by repeat split.
Qed.

Lemma lastN_lookup {A} (l : list A) n i :
  (i < length (lastN n l))%nat ->
  reverse (lastN n l) !! i = l !! (length l - S i)%nat.
Proof.
  intros Hi. rewrite reverse_lookup by done. unfold lastN in *.
  rewrite length_drop in *. rewrite lookup_drop. f_equal. lia.
Qed.

(** X25. [getStatus] lists at most ten runs of history, the newest first.
    Right after a run is finalized (history holding at least one run), that
    run heads the list, and it is also the current run reported, in both
    places without its per-subject results. *)
Theorem getStatus_lists_newest_first (st : Settings) (s : Scheduler) (r : Run.t) :
  currentRun s = Some r -> 1 <= maxRuns s ->
  exists s',
    finishRun s = Returned tt s' /\
    Status.isRunning (getStatus st s') = false /\
    Status.currentRun (getStatus st s') = Some (Run.set_students None r) /\
    head (Status.recentRuns (getStatus st s')) =
      Some (Run.set_students None r) /\
    length (Status.recentRuns (getStatus st s')) =
      Nat.min 10 (length (runs s')) /\
    forall i, (i < length (Status.recentRuns (getStatus st s')))%nat ->
      Status.recentRuns (getStatus st s') !! i =
      runs s' !! (length (runs s') - S i)%nat.
Proof.
  intros Hr Hm. rewrite (finishRun_archive s r Hr). eexists.
  split; [reflexivity|]. unfold getStatus. simpl.
  rewrite Hr, archive_lastN by done.
  change (-10) with (- (10)). rewrite (sliceFrom_neg _ 10) by lia.
  split; [done|]. split; [done|].
  set (history := lastN (Z.to_nat (maxRuns s)) (runs s ++ [Run.set_students None r])).
  assert (Hlast : last history = Some (Run.set_students None r)).
  { subst history. unfold lastN. rewrite drop_app, length_app. simpl.
    replace (length (runs s) + 1 - Z.to_nat (maxRuns s) - length (runs s))%nat
      with 0%nat by lia.
    apply last_snoc. }
  assert (Hlen : length (lastN (Z.to_nat 10) history) =
                 Nat.min 10 (length history)).
  { unfold lastN. rewrite length_drop. lia. }
  split.
  { rewrite head_lookup, lastN_lookup by (rewrite Hlen;
      destruct history; [done | simpl; lia]).
    rewrite last_lookup in Hlast. rewrite <- Hlast. f_equal. lia. }
  split; [by rewrite length_reverse|].
  intros i Hi. rewrite length_reverse in Hi. by apply lastN_lookup.
Qed.

Lemma getStatus_lists_newest_first_example :
  let r := newRun 7 1 in
  let s := set_currentRun (Some r) (set_isRunning true newScheduler) in
  exists s',
    finishRun s = Returned tt s' /\
    Status.isRunning (getStatus defaultSettings s') = false /\
    Status.currentRun (getStatus defaultSettings s') =
      Some (Run.set_students None r) /\
    head (Status.recentRuns (getStatus defaultSettings s')) =
      Some (Run.set_students None r) /\
    length (Status.recentRuns (getStatus defaultSettings s')) =
      Nat.min 10 (length (runs s')) /\
    forall i,
      (i < length (Status.recentRuns (getStatus defaultSettings s')))%nat ->
      Status.recentRuns (getStatus defaultSettings s') !! i =
      runs s' !! (length (runs s') - S i)%nat.
Proof.
  intros r s.
  apply (getStatus_lists_newest_first defaultSettings s r);
    [reflexivity | simpl; lia].
Defined.

(** ** The cost of a retried call *)

Section BackOff.

Variable env : Env.
Context {A : Type} (c : Call) (answer : Z -> nat -> Outcome A) (label : string).

Lemma retryLoop_backs_off fuel : forall attempt lastError s,
  attempt <= retryAttempts (config s) ->
  (Z.to_nat (retryAttempts (config s) - attempt) + 1 < fuel)%nat ->
  exists new k,
    match retryLoop env (fun a => await env c (answer a)) label fuel attempt
            lastError s with
    | Returned _ s' | Raised _ s' => effects s' = effects s ++ new
    | Diverged => False
    end /\
    1 <= k <= retryAttempts (config s) - attempt + 1 /\
    Z.of_nat (attemptsMade new) = k /\
    delaysOf new =
      (fun i => retryDelayMs (config s) * 2 ^ (i - 1)) <$> seqZ attempt (k - 1) /\
    Forall (retryEvent c) new.
Proof.
  induction fuel as [|fuel IH]; intros attempt lastError s Ha Hfuel; [lia|].
  simpl retryLoop. run.
  destruct (Z.leb_spec attempt (retryAttempts (config s))); [|lia]. run.
  destruct (await_spec env c (answer attempt) s) as (s1 & F1 & E1 & R1).
  assert (Hone : forall s', effects s' = effects s1 ->
    exists new k,
      effects s' = effects s ++ new /\
      1 <= k <= retryAttempts (config s) - attempt + 1 /\
      Z.of_nat (attemptsMade new) = k /\
      delaysOf new =
        (fun i => retryDelayMs (config s) * 2 ^ (i - 1)) <$>
        seqZ attempt (k - 1) /\
      Forall (retryEvent c) new).
  { intros s' Hs'. exists [Called c], 1. rewrite Hs', E1.
    split; [done|]. split; [lia|]. split; [done|]. split; [done|].
    repeat constructor. }
  rewrite R1. destruct (answer attempt (clock s)) as [v|m]; run.
  { destruct (Hone s1 eq_refl) as (new & k & ? & ?). by exists new, k. }
  unfold messageOf. run. destruct (nonRetryable (JS.or_else m "")); run.
  { destruct (Hone (pushLog error
                (label +:+ " failed with non-retryable error: " +:+
                 JS.or_else m "") None s1) eq_refl) as (new & k & ? & ?).
    by exists new, k. }
  assert (Hc : config s1 = config s) by solve_frame. rewrite !Hc.
  destruct (Z.ltb_spec attempt (retryAttempts (config s))) as [Hlt|Hge]; run.
  - match goal with |- context [sleep env ?d ?st] =>
      destruct (sleep_returns env d st) as (s2 & E2 & F2 & Ef2) end.
    rewrite E2.
    assert (Hc2 : config s2 = config s).
    { pose proof (pushLog_frame warn "" None s1). solve_frame. }
    destruct (IH (attempt + 1) (ThrownError m) s2) as (new & k & Hrun & Hk & Hn & Hd & Hev);
      [rewrite Hc2; lia..|].
    rewrite Hc2 in *.
    exists (Called c :: Slept (retryDelayMs (config s) * 2 ^ (attempt - 1)) :: new),
      (k + 1).
    split.
    { destruct (retryLoop env _ label fuel (attempt + 1) (ThrownError m) s2);
        [| |done]; rewrite Hrun, Ef2, pushLog_effects, E1, <- !app_assoc; done. }
    split; [lia|]. split.
    { change (attemptsMade (Called c :: Slept _ :: new))
        with (S (attemptsMade new)). lia. }
    split.
    { change (delaysOf (Called c :: Slept ?d :: new)) with (d :: delaysOf new).
      rewrite Hd, (seqZ_cons attempt) by lia. simpl.
      do 3 f_equal; lia. }
    constructor; [by left|]. constructor; [right; eauto | done].
  - destruct fuel as [|fuel]; [lia|]. simpl retryLoop. run. rewrite Hc.
    destruct (Z.leb_spec (attempt + 1) (retryAttempts (config s))); [lia|]. run.
    destruct (Hone s1 eq_refl) as (new & k & ? & ?). by exists new, k.
Qed.

End BackOff.

(** X26. Whatever a remote operation answers, [withRetry] (with at least
    one attempt allowed) ends, by a return or by a throw, after some number
    [k] of invocations, [1 <= k <= retryAttempts], and [k - 1] delays, the
    delay after the [i]-th invocation being [retryDelayMs * 2^(i-1)]; it
    makes no other call. *)
Theorem withRetry_backs_off env {A} (c : Call) (answer : Z -> nat -> Outcome A)
    (label : string) (s : Scheduler) :
  1 <= retryAttempts (config s) ->
  exists new k,
    match withRetry env (fun a => await env c (answer a)) label s with
    | Returned _ s' | Raised _ s' => effects s' = effects s ++ new
    | Diverged => False
    end /\
    1 <= k <= retryAttempts (config s) /\
    Z.of_nat (attemptsMade new) = k /\
    delaysOf new =
      (fun i => retryDelayMs (config s) * 2 ^ (i - 1)) <$> seqZ 1 (k - 1) /\
    (forall c', Called c' ∈ new -> c' = c).
Proof.
  intros Hn. unfold withRetry. run.
  destruct (retryLoop_backs_off env c answer label
              (S (Z.to_nat (retryAttempts (config s)))) 1 ThrownUndefined s)
    as (new & k & Hrun & Hk & Hcalls & Hd & Hev); [lia..|].
  exists new, k. split; [exact Hrun|]. split; [lia|]. split; [done|].
  split; [done|]. intros c' Hin. rewrite Forall_forall in Hev.
  destruct (Hev _ Hin) as [[= ->]|[? ?]]; [done | discriminate].
Qed.

Lemma withRetry_backs_off_example :
  let env := scenarioEnv in
  let s := newScheduler in
  let url := "https://s3/a.pdf" in
  let c := CallDownloadDocument url in
  exists new k,
    match withRetry env (fun a => await env c (downloadDocument env url a))
            "Verify A" s with
    | Returned _ s' | Raised _ s' => effects s' = effects s ++ new
    | Diverged => False
    end /\
    1 <= k <= retryAttempts (config s) /\
    Z.of_nat (attemptsMade new) = k /\
    delaysOf new =
      (fun i => retryDelayMs (config s) * 2 ^ (i - 1)) <$> seqZ 1 (k - 1) /\
    (forall c', Called c' ∈ new -> c' = c).
Proof.
  intros env s url c.
  apply (withRetry_backs_off env c (downloadDocument env url) "Verify A" s).
  simpl. lia.
Defined.
